(** * Sum benchmark (src/main_sum.cpp): shallow embedding and properties

    The harness generates [n] unsigned integers, computes their sum
    sequentially, then re-computes it with a sequential loop, an OpenMP
    reduction and five OpenCL kernels, comparing each result with the
    reference through [raiseFail] (the [EXPECT_THE_SAME] macro).

    [unsigned int] values are integers in [0, 2^32) with wrap-around
    written out; [int] loop counters are integers in
    [-2^31, 2^31) whose overflow is undefined behaviour.  [main] is
    embedded as a state and error monad over the two device buffers and
    a trace of what the program prints and calls.  Its constants
    ([benchmarkingIters], [n], [workGroupSize]) are parameters of
    [main_with]; what main_sum.cpp takes from elsewhere (the random
    generator, the OpenMP runtime, device memory, the kernels) is a
    parameter too.

    The first part holds the definitions, the second the lemmas about
    them, the third the runs of the harness as a whole, and the last one
    theorem for each stated property of the benchmark. *)

From Stdlib Require Import String ZArith List Lia Bool Permutation.
Import ListNotations.
Open Scope Z_scope.

(** ** Machine integers *)

Module UInt.

Definition width : Z := 32.
Definition modulus : Z := 2 ^ width.

(** [std::numeric_limits<unsigned int>::max()] *)
Definition UINT_MAX : Z := modulus - 1.
Definition INT_MAX : Z := 2 ^ (width - 1) - 1.

(** Conversion of a mathematical integer to [unsigned int]. *)
Definition wrap (x : Z) : Z := x mod modulus.

(** [a + b], [a - b], [a * b], [a / b] on [unsigned int]. *)
Definition add (a b : Z) : Z := wrap (a + b).
Definition sub (a b : Z) : Z := wrap (a - b).
Definition mul (a b : Z) : Z := wrap (a * b).
Definition div (a b : Z) : Z := a / b.

Definition in_range (x : Z) : Prop := 0 <= x <= UINT_MAX.

End UInt.

Import UInt.

(** ** Work partition (main, lines 79-81)

    [unsigned int global_work_size =
        (n + workGroupSize - 1) / workGroupSize * workGroupSize;]
    Every intermediate result is an [unsigned int]; a division by zero
    has no defined result. *)

Definition global_work_size (n workGroupSize : Z) : option Z :=
  if workGroupSize =? 0 then None
  else Some
    (UInt.mul (UInt.div (UInt.sub (UInt.add n workGroupSize) 1) workGroupSize)
              workGroupSize).

(** [unsigned int n_work_groups = global_work_size / workGroupSize;] *)
Definition n_work_groups (gws workGroupSize : Z) : option Z :=
  if workGroupSize =? 0 then None else Some (UInt.div gws workGroupSize).

(** The property the specification states of the computed size. *)
Definition smallest_multiple_geq (G N m : Z) : Prop :=
  (exists k, 0 <= k /\ m = k * G) /\ N <= m /\
  (forall m', (exists k, 0 <= k /\ m' = k * G) -> N <= m' -> m <= m').

(** ** Effects of the harness

    A run either returns, or ends by an uncaught [std::runtime_error]
    (thrown by [raiseFail]; [main] has no handler), or reaches undefined
    behaviour.  The state carries the two device buffers and a trace: what
    the program prints, and the calls to the collaborators (timer, device
    buffers, kernels) and to [raiseFail] in the order they happen. *)

Inductive UB : Type :=
| SignedOverflow   (* [++i] on an [int] equal to INT_MAX *)
| OutOfBounds      (* [as[i]] or a buffer read outside the allocated range *)
| DivisionByZero.

Inductive Result (A : Type) : Type :=
| Ok (a : A)
| Throw (what : string)
| Undefined (u : UB)
| OutOfFuel.
Arguments Ok {A} a.
Arguments Throw {A} what.
Arguments Undefined {A} u.
Arguments OutOfFuel {A}.

(** The entry points of cl/sum_cl.h named by the harness. *)
Inductive Kernel : Type :=
| globalAtomSum | BatchSum | BatchSumCoalesed | LocalMemSUm | TreeSum.

(** [gpu::WorkSize(groupSize, workSize)] as the harness builds it. *)
Record WorkSize : Type := mkWorkSize { groupSize : Z; workSize : Z }.

Inductive Event : Type :=
| EvCompare (message : string) (a b : Z) (line : Z)  (* [raiseFail] evaluates [a != b] *)
| EvCerr (message : string) (a b : Z) (filename : string) (line : Z)
| EvNextLap                                          (* [t.nextLap()] *)
| EvCout (label : string)                            (* one report line *)
| EvWriteSum (v : Z)                                 (* [sum_buffer.writeN(&sum, 1)] *)
| EvExec (k : Kernel) (ws : WorkSize) (n : Z) (acc : list Z)
                                                     (* [kernel.exec]; [acc] is the
                                                        accumulator buffer at dispatch *)
| EvReadSum (v : Z).                                 (* [sum_buffer.readN(&sum, 1)] *)

Record State : Type := mkState {
  trace : list Event;
  as_buffer : list Z;
  sum_buffer : list Z
}.

Definition M (A : Type) : Type := State -> Result A * State.

Definition ret {A} (a : A) : M A := fun st => (Ok a, st).

Definition bind {A B} (m : M A) (f : A -> M B) : M B :=
  fun st =>
    match m st with
    | (Ok a, st') => f a st'
    | (Throw w, st') => (Throw w, st')
    | (Undefined u, st') => (Undefined u, st')
    | (OutOfFuel, st') => (OutOfFuel, st')
    end.

Declare Scope harness_scope.
Delimit Scope harness_scope with harness.
Notation "x <- m ;; k" := (bind m (fun x => k))
  (at level 61, m at next level, right associativity) : harness_scope.
Notation "' pat <- m ;; k" := (bind m (fun x => match x with pat => k end))
  (at level 61, pat pattern, m at next level, right associativity) : harness_scope.
Notation "m ;; k" := (bind m (fun _ => k))
  (at level 61, right associativity) : harness_scope.
Open Scope harness_scope.

Definition throw {A} (what : string) : M A := fun st => (Throw what, st).
Definition undefined {A} (u : UB) : M A := fun st => (Undefined u, st).
Definition out_of_fuel {A} : M A := fun st => (OutOfFuel, st).

Definition emit (e : Event) : M unit :=
  fun st => (Ok tt, mkState (trace st ++ [e]) (as_buffer st) (sum_buffer st)).

(** *** [int] counters and [for] loops *)

(** [++i] for [int i]. *)
Definition int_incr (i : Z) : M Z :=
  if i <? INT_MAX then ret (i + 1) else undefined SignedOverflow.

(** [i < n] for [int i] and [unsigned int n]: the usual arithmetic
    conversions turn [i] into an [unsigned int]. *)
Definition int_lt_uint (i n : Z) : bool := UInt.wrap i <? n.

(** [i < m] for two [int]s. *)
Definition int_lt_int (i m : Z) : bool := i <? m.

(** [for (int i = i0; cond(i); ++i) body(i)], the loop state threaded
    through [body]. *)
Fixpoint for_loop {St : Type} (fuel : nat) (cond : Z -> bool)
    (body : Z -> St -> M St) (i : Z) (s : St) : M St :=
  match fuel with
  | O => out_of_fuel
  | S fuel' =>
      if cond i then
        s' <- body i s ;;
        i' <- int_incr i ;;
        for_loop fuel' cond body i' s'
      else ret s
  end.

(** A loop whose bound is [bound] is given one unit of fuel more than
    the bound: each iteration and the final test use one. *)
Definition loop_fuel (bound : Z) : nat := S (Z.to_nat bound).

(** *** [std::vector<unsigned int>] *)

Definition vec_get (v : list Z) (i : Z) : M Z :=
  if (0 <=? i) && (i <? Z.of_nat (length v))
  then ret (nth (Z.to_nat i) v 0)
  else undefined OutOfBounds.

Fixpoint list_set (v : list Z) (i : nat) (x : Z) : list Z :=
  match v, i with
  | [], _ => []
  | _ :: v', O => x :: v'
  | y :: v', S i' => y :: list_set v' i' x
  end.

Definition vec_set (v : list Z) (i : Z) (x : Z) : M (list Z) :=
  if (0 <=? i) && (i <? Z.of_nat (length v))
  then ret (list_set v (Z.to_nat i) x)
  else undefined OutOfBounds.

(** [a / b] on [unsigned int]. *)
Definition udiv (a b : Z) : M Z :=
  if b =? 0 then undefined DivisionByZero else ret (UInt.div a b).

(** *** raiseFail (lines 8-15) and EXPECT_THE_SAME (line 17) *)

Definition file_name : string := "main_sum.cpp".

Definition raiseFail (a b : Z) (message filename : string) (line : Z) : M unit :=
  emit (EvCompare message a b line) ;;
  if negb (a =? b) then
    emit (EvCerr message a b filename line) ;;
    throw message
  else ret tt.

Definition EXPECT_THE_SAME (a b : Z) (message : string) (line : Z) : M unit :=
  raiseFail a b message file_name line.

(** *** Timer and report lines *)

Definition nextLap : M unit := emit EvNextLap.

(** The two [std::cout] lines that end each block; the numbers printed
    are wall-clock statistics and are not part of the model. *)
Definition report (label : string) : M unit :=
  emit (EvCout label) ;; emit (EvCout label).

(** ** The harness (main, lines 20-180) *)

(** An OpenMP [parallel for reduction(+:sum)] as the runtime may carry it
    out: the iterations are dealt out in chunks, each chunk is summed into
    a private copy of [sum] that starts at 0, and the private copies are
    combined pairwise in whatever order the runtime chooses. *)
Inductive Reduction : Type :=
| Chunk (iterations : list Z)
| Combine (l r : Reduction).

Fixpoint iterations_of (r : Reduction) : list Z :=
  match r with
  | Chunk its => its
  | Combine l r => iterations_of l ++ iterations_of r
  end.

Fixpoint foldM {St I : Type} (body : I -> St -> M St) (l : list I) (s : St) : M St :=
  match l with
  | [] => ret s
  | i :: l' => s' <- body i s ;; foldM body l' s'
  end.

(** [sum += as[i]], the body of the loops of lines 37-39 and 52-54. *)
Definition accumulate (as_ : list Z) (i : Z) (sum : Z) : M Z :=
  x <- vec_get as_ i ;; ret (UInt.add sum x).

(** Device buffers ([gpu::gpu_mem_32u]): [buf.writeN(data, n)] copies
    [n] elements to the start of the buffer. *)
Definition writeN (data : list Z) (n : Z) (buf : list Z) : list Z :=
  firstn (Z.to_nat n) data ++ skipn (Z.to_nat n) buf.

(** The lines of the two CPU checks. *)
Definition line_CPU : Z := 40.
Definition line_OMP : Z := 55.

Section Harness.

(** Collaborators that are not part of main_sum.cpp: [FastRandom] (the
    generator state, its constructor and [next]); the OpenMP runtime (how
    it carries out a reduction over [n] iterations); the contents of
    freshly allocated device memory; and what a kernel of cl/sum_cl.h does
    to the two buffers when it is dispatched with a work size on the
    arguments [(as_buffer, n, sum_buffer)]. *)
Variable Rng : Type.
Variable FastRandom : Z -> Rng.
Variable rng_next : Rng -> Z -> Z -> Z * Rng.
Variable omp_schedule : Z -> Reduction.
Variable uninitialised : nat -> Z.
Variable kernel_exec :
  Kernel -> WorkSize -> list Z -> Z -> list Z -> list Z * list Z.

(** The constants of [main] (lines 22, 25 and 79), as parameters. *)
Variable benchmarkingIters : Z.
Variable n : Z.
Variable workGroupSize : Z.

(** [buf.resizeN(k)] *)
Definition resizeN (k : Z) : list Z := map uninitialised (seq 0 (Z.to_nat k)).

(** The body of the loop of lines 28-31. *)
Definition generate_body (i : Z) (s : list Z * Rng * Z) : M (list Z * Rng * Z) :=
  let '(as_, r, reference_sum) := s in
  bound <- udiv UINT_MAX n ;;
  let '(x, r) := rng_next r 0 bound in
  as_ <- vec_set as_ i (UInt.wrap x) ;;
  x <- vec_get as_ i ;;
  ret (as_, r, UInt.add reference_sum x).

(** Lines 24-31: the input and its reference sum. *)
Definition generate : M (list Z * Z) :=
  let reference_sum := 0 in
  let as_ := repeat 0 (Z.to_nat n) in
  let r := FastRandom 42 in
  '(as_, _, reference_sum) <-
    for_loop (loop_fuel n) (fun i => int_lt_uint i n) generate_body
      0 (as_, r, reference_sum) ;;
  ret (as_, reference_sum).

(** Lines 36-39: the sequential sum. *)
Definition cpu_sum (as_ : list Z) : M Z :=
  let sum := 0 in
  for_loop (loop_fuel n) (fun i => int_lt_uint i n) (accumulate as_) 0 sum.

(** Lines 33-45. *)
Definition cpu_block (as_ : list Z) (reference_sum : Z) : M unit :=
  for_loop (loop_fuel benchmarkingIters) (fun iter => int_lt_int iter benchmarkingIters)
    (fun _ _ =>
       sum <- cpu_sum as_ ;;
       EXPECT_THE_SAME reference_sum sum "CPU result should be consistent!" line_CPU ;;
       nextLap)
    0 tt ;;
  report "CPU:     ".

(** Line 52: the loop the pragma is attached to has the header of the
    sequential one, [for (int i = 0; i < n; ++i)].  Its counter is an
    [int] that has to run from 0 up to the bound for the iterations to be
    counted, and it overflows where the counter of the sequential loop
    does. *)
Definition omp_iterations : M unit :=
  for_loop (loop_fuel n) (fun i => int_lt_uint i n) (fun _ u => ret u) 0 tt.

(** Lines 50-54: the OpenMP reduction over the iterations the runtime
    deals out. *)
Fixpoint omp_reduce (as_ : list Z) (r : Reduction) : M Z :=
  match r with
  | Chunk its => foldM (accumulate as_) its 0
  | Combine l r =>
      a <- omp_reduce as_ l ;;
      b <- omp_reduce as_ r ;;
      ret (UInt.add a b)
  end.

Definition omp_sum (as_ : list Z) : M Z :=
  let sum := 0 in
  omp_iterations ;;
  partial <- omp_reduce as_ (omp_schedule n) ;;
  ret (UInt.add sum partial).

(** Lines 47-60. *)
Definition omp_block (as_ : list Z) (reference_sum : Z) : M unit :=
  for_loop (loop_fuel benchmarkingIters) (fun iter => int_lt_int iter benchmarkingIters)
    (fun _ _ =>
       sum <- omp_sum as_ ;;
       EXPECT_THE_SAME reference_sum sum "CPU OpenMP result should be consistent!" line_OMP ;;
       nextLap)
    0 tt ;;
  report "CPU OMP: ".

(** Lines 71-77. *)
Definition gpu_setup (as_ : list Z) : M unit :=
  fun st =>
    let as_buffer := resizeN n in
    let as_buffer := writeN as_ n as_buffer in
    let sum_buffer := resizeN 1 in
    (Ok tt, mkState (trace st) as_buffer sum_buffer).

(** [sum_buffer.writeN(&sum, 1)] *)
Definition write_sum (sum : Z) : M unit :=
  fun st =>
    (Ok tt, mkState (trace st ++ [EvWriteSum sum]) (as_buffer st)
              (writeN [sum] 1 (sum_buffer st))).

(** [kernel.exec(ws, as_buffer, n, sum_buffer)] *)
Definition exec (k : Kernel) (ws : WorkSize) : M unit :=
  fun st =>
    let '(a, s) := kernel_exec k ws (as_buffer st) n (sum_buffer st) in
    (Ok tt, mkState (trace st ++ [EvExec k ws n (sum_buffer st)]) a s).

(** [sum_buffer.readN(&sum, 1)] *)
Definition read_sum : M Z :=
  fun st =>
    match sum_buffer st with
    | v :: _ => (Ok v, mkState (trace st ++ [EvReadSum v]) (as_buffer st) (sum_buffer st))
    | [] => (Undefined OutOfBounds, st)
    end.

(** One iteration of the loop of a GPU block: lines 91-94, 111-114,
    131-134, 150-153, 169-172.  [sum] is the host variable declared before
    the loop. *)
Definition gpu_iteration (k : Kernel) (ws : WorkSize) (sum : Z) : M unit :=
  write_sum sum ;;
  exec k ws ;;
  nextLap.

(** The five GPU blocks (lines 83-101, 103-121, 123-141, 142-160,
    161-179) are the same text up to the kernel name, the work size, the
    report label and the line of the check. *)
Definition gpu_block (k : Kernel) (ws : WorkSize) (label : string)
    (line : Z) (reference_sum : Z) : M unit :=
  let sum := 0 in
  for_loop (loop_fuel benchmarkingIters) (fun i => int_lt_int i benchmarkingIters)
    (fun _ _ => gpu_iteration k ws sum)
    0 tt ;;
  sum <- read_sum ;;
  EXPECT_THE_SAME reference_sum sum "GPU result should be consistent!" line ;;
  report label.

(** Lines 79-81. *)
Definition work_partition : M (Z * Z) :=
  match global_work_size n workGroupSize with
  | Some gws =>
      match n_work_groups gws workGroupSize with
      | Some groups => ret (gws, groups)
      | None => undefined DivisionByZero
      end
  | None => undefined DivisionByZero
  end.

(** The GPU part of [main], lines 67-179. *)
Definition gpu_part (as_ : list Z) (reference_sum : Z) : M unit :=
  gpu_setup as_ ;;
  '(global_work_size, _) <- work_partition ;;
  gpu_block globalAtomSum (mkWorkSize workGroupSize global_work_size)
    "GPU (Atomic): " 97 reference_sum ;;
  gpu_block BatchSum (mkWorkSize workGroupSize (UInt.div global_work_size 32))
    "GPU (BatchSum): " 117 reference_sum ;;
  gpu_block BatchSumCoalesed (mkWorkSize workGroupSize (UInt.div global_work_size 32))
    "GPU (BatchSumCoalesed): " 137 reference_sum ;;
  gpu_block LocalMemSUm (mkWorkSize workGroupSize global_work_size)
    "GPU (LocalMemSum): " 156 reference_sum ;;
  gpu_block TreeSum (mkWorkSize workGroupSize global_work_size)
    "GPU (TreeSum): " 175 reference_sum.

Definition main_with : M Z :=
  '(as_, reference_sum) <- generate ;;
  cpu_block as_ reference_sum ;;
  omp_block as_ reference_sum ;;
  gpu_part as_ reference_sum ;;
  ret 0.

End Harness.

(** [main] with the constants of lines 22, 25 and 79. *)
Definition benchmarkingIters_main : Z := 10.
Definition n_main : Z := 100 * 1000 * 1000.
Definition workGroupSize_main : Z := 128.

Definition main {Rng : Type} (FastRandom : Z -> Rng)
    (rng_next : Rng -> Z -> Z -> Z * Rng) (omp_schedule : Z -> Reduction)
    (uninitialised : nat -> Z)
    (kernel_exec : Kernel -> WorkSize -> list Z -> Z -> list Z -> list Z * list Z)
    : M Z :=
  main_with Rng FastRandom rng_next omp_schedule uninitialised kernel_exec
    benchmarkingIters_main n_main workGroupSize_main.

Definition initial_state : State := mkState [] [] [].

(** ** Sums and indices *)

(** The indices [i, i+1, ..., i+k-1]. *)
Fixpoint Zseq (i : Z) (k : nat) : list Z :=
  match k with
  | O => []
  | S k' => i :: Zseq (i + 1) k'
  end.

(** The sum of a list in the integers. *)
Definition true_sum (l : list Z) : Z := fold_right Z.add 0 l.

(** The strictly sequential left-to-right sum on [unsigned int]: what the
    loops of lines 28-31 and 37-39 compute. *)
Definition seq_sum (l : list Z) : Z := fold_left UInt.add l 0.

(** [f 0 + f 1 + ... + f (k-1)] in the integers. *)
Definition sum_upto (f : nat -> Z) (k : nat) : Z := true_sum (map f (seq 0 k)).

Definition at_index (v : list Z) (i : Z) : Z := nth (Z.to_nat i) v 0.

Definition in_bounds (v : list Z) (i : Z) : Prop := 0 <= i < Z.of_nat (length v).

(** ** Properties of traces *)

Definition add_trace (st : State) (evs : list Event) : State :=
  mkState (trace st ++ evs) (as_buffer st) (sum_buffer st).

Definition kernel_eqb (k1 k2 : Kernel) : bool :=
  match k1, k2 with
  | globalAtomSum, globalAtomSum | BatchSum, BatchSum
  | BatchSumCoalesed, BatchSumCoalesed | LocalMemSUm, LocalMemSUm
  | TreeSum, TreeSum => true
  | _, _ => false
  end.

Definition is_dispatch (k : Kernel) (e : Event) : bool :=
  match e with EvExec k' _ _ _ => kernel_eqb k k' | _ => false end.

Definition is_compare (e : Event) : bool :=
  match e with EvCompare _ _ _ _ => true | _ => false end.

Definition is_reset (e : Event) : bool :=
  match e with EvWriteSum 0 => true | _ => false end.

(** How many times kernel [k] is dispatched, how many comparisons with
    the reference are made, how often the accumulator is written with 0. *)
Definition dispatches (k : Kernel) (tr : list Event) : nat :=
  length (filter (is_dispatch k) tr).
Definition compares (tr : list Event) : nat := length (filter is_compare tr).
Definition resets (tr : list Event) : nat := length (filter is_reset tr).

(** The comparisons made by the check at [line]. *)
Definition is_compare_at (line : Z) (e : Event) : bool :=
  match e with EvCompare _ _ _ l => l =? line | _ => false end.
Definition compares_at (line : Z) (tr : list Event) : nat :=
  length (filter (is_compare_at line) tr).

(** The accumulator cell (the element [readN] reads back) holds 0 when the
    kernel is dispatched. *)
Definition zeroed_dispatch (e : Event) : Prop :=
  match e with
  | EvExec _ _ _ acc => hd_error acc = Some 0
  | _ => True
  end.

(** The messages passed to EXPECT_THE_SAME (lines 40, 55 and 97, 117, 137,
    156, 175). *)
Definition cpu_message : string := "CPU result should be consistent!".
Definition omp_message : string := "CPU OpenMP result should be consistent!".
Definition gpu_message : string := "GPU result should be consistent!".

(** The seven checks of [main]: the strategy's kernel (none for the CPU
    strategies), the message and the line. *)
Definition checks : list (option Kernel * string * Z) :=
  [ (None, cpu_message, line_CPU);
    (None, omp_message, line_OMP);
    (Some globalAtomSum, gpu_message, 97);
    (Some BatchSum, gpu_message, 117);
    (Some BatchSumCoalesed, gpu_message, 137);
    (Some LocalMemSUm, gpu_message, 156);
    (Some TreeSum, gpu_message, 175) ].

Definition check_at (message : string) (line : Z) : Prop :=
  exists k, In (k, message, line) checks.

(** No check has failed so far: every comparison was of the reference sum
    [ref] with an equal value, and nothing was reported. *)
Definition passed_event (ref : Z) (e : Event) : Prop :=
  match e with
  | EvCompare _ a b _ => a = ref /\ b = ref
  | EvCerr _ _ _ _ _ => False
  | _ => True
  end.

Definition all_passed (ref : Z) (tr : list Event) : Prop := Forall (passed_event ref) tr.

(** The run stopped at a failed check: the last thing it did was to
    compare the reference sum with a different value [b] and to report
    the message, both values, the file name and the line. *)
Definition mismatch_reported (ref : Z) (what : string) (tr : list Event) : Prop :=
  exists pre b line,
    tr = pre ++ [EvCompare what ref b line; EvCerr what ref b file_name line] /\
    b <> ref /\ all_passed ref pre /\ check_at what line.

(** The message of the report a run ended with, and the kernel dispatched
    last before it. *)
Definition report_label (tr : list Event) : option string :=
  match rev tr with
  | EvCerr message _ _ _ _ :: _ => Some message
  | _ => None
  end.

Definition report_line (tr : list Event) : option Z :=
  match rev tr with
  | EvCerr _ _ _ _ line :: _ => Some line
  | _ => None
  end.

Fixpoint last_dispatched (tr : list Event) (k : option Kernel) : option Kernel :=
  match tr with
  | [] => k
  | EvExec k' _ _ _ :: tr' => last_dispatched tr' (Some k')
  | _ :: tr' => last_dispatched tr' k
  end.

(** The work sizes [main] passes: [gws] for the atomic, local-memory and
    tree kernels, [gws / 32] for the two batch kernels. *)
Definition launch_geometry (G gws : Z) (e : Event) : Prop :=
  match e with
  | EvExec BatchSum ws _ _ | EvExec BatchSumCoalesed ws _ _ =>
      groupSize ws = G /\ workSize ws = UInt.div gws 32
  | EvExec _ ws _ _ => groupSize ws = G /\ workSize ws = gws
  | _ => True
  end.

(** ** What a GPU block does *)

(** The state after one iteration of the loop of a GPU block. *)
Definition gpu_trial_state
    (kernel_exec : Kernel -> WorkSize -> list Z -> Z -> list Z -> list Z * list Z)
    (n : Z) (k : Kernel) (ws : WorkSize) (st : State) : State :=
  let acc := writeN [0] 1 (sum_buffer st) in
  let r := kernel_exec k ws (as_buffer st) n acc in
  mkState (trace st ++ [EvWriteSum 0; EvExec k ws n acc; EvNextLap]) (fst r) (snd r).

(** What a GPU block does after its loop, in the state [st] the loop left:
    lines 96-100, 116-120, 136-140, 155-159, 174-178. *)
Definition gpu_outcome (label : string) (line ref : Z) (st : State)
    : Result unit * State :=
  match sum_buffer st with
  | [] => (Undefined OutOfBounds, st)
  | v :: _ =>
      if ref =? v
      then (Ok tt, add_trace st [EvReadSum v; EvCompare gpu_message ref v line;
                                 EvCout label; EvCout label])
      else (Throw gpu_message,
            add_trace st [EvReadSum v; EvCompare gpu_message ref v line;
                          EvCerr gpu_message ref v file_name line])
  end.

(** The state after an iteration of a CPU block whose check passes. *)
Definition cpu_pass_state (message : string) (line ref : Z) (st : State) : State :=
  add_trace st [EvCompare message ref ref line; EvNextLap].

(** The properties of events [P] and of failed runs [E] that the blocks
    of [main] maintain: what has to hold of each event they emit. *)
Definition block_invariant (P : Event -> Prop) (E : string -> list Event -> Prop)
    (n workGroupSize ref : Z) : Prop :=
  P EvNextLap /\
  (forall label, P (EvCout label)) /\
  P (EvWriteSum 0) /\
  (forall v, P (EvReadSum v)) /\
  (forall message line, check_at message line -> P (EvCompare message ref ref line)) /\
  (forall tr message b line,
     Forall P tr -> b <> ref -> check_at message line ->
     E message (tr ++ [EvCompare message ref b line;
                       EvCerr message ref b file_name line])) /\
  (forall gws, global_work_size n workGroupSize = Some gws ->
   forall k ws acc,
     hd_error acc = Some 0 ->
     launch_geometry workGroupSize gws (EvExec k ws n acc) ->
     P (EvExec k ws n acc)).

(** ** The GPU strategies *)

(** Modelled from the spec: cl/sum_cl.h, the OpenCL source of the five
    kernels, is not among the sources at hand; main_sum.cpp only names
    their entry points and launches them.  The definitions below follow
    sections 4.3 to 4.7 of the specification.  A work-item that reads the
    input reads [as[i]] when [i < n] and nothing otherwise. *)
Definition load (as_ : list Z) (n : Z) (i : nat) : Z :=
  if Z.of_nat i <? n then nth i as_ 0 else 0.

(** The private running sum of a work-item. *)
Definition private_sum (xs : list Z) : Z := fold_left UInt.add xs 0.

(** The elements a batch work-item is responsible for. *)
Definition batch : nat := 32.

(** Modelled from the spec: section 4.3, Global-Atomic Sum.  Work-item
    [gid] reads one element and adds it atomically to the accumulator, or
    does nothing when [gid >= n]. *)
Definition global_atomic_item (as_ : list Z) (n : Z) (gid : nat) : option Z :=
  if Z.of_nat gid <? n then Some (nth gid as_ 0) else None.

(** Modelled from the spec: section 4.4, Strided-Batch Sum.  Work-item
    [gid] of [W] visits [gid, gid + W, gid + 2 W, ...], 32 elements, keeps
    a private sum and adds it atomically once. *)
Definition strided_item (as_ : list Z) (n : Z) (W gid : nat) : option Z :=
  Some (private_sum (map (fun k => load as_ n (gid + k * W)%nat) (seq 0 batch))).

(** Modelled from the spec: section 4.5, Coalesced-Batch Sum.  Work-item
    [gid] visits [base, base + 1, ..., base + 31] with [base = 32 gid]. *)
Definition coalesced_item (as_ : list Z) (n : Z) (gid : nat) : option Z :=
  Some (private_sum (map (fun k => load as_ n (gid * batch + k)%nat) (seq 0 batch))).

(** One lane of a tree step: [buf[dst] += buf[src]]. *)
Definition apply_lane (b : list Z) (op : nat * nat) : list Z :=
  list_set b (fst op) (UInt.add (nth (fst op) b 0) (nth (snd op) b 0)).

(** The lanes of one step, between two barriers. *)
Definition run_lanes (ops : list (nat * nat)) (b : list Z) : list Z :=
  fold_left apply_lane ops b.

(** Modelled from the spec: section 4.6, one step of the tree in local
    memory.  Each of the first [G / (2 step)] lanes adds element
    [i + step] into element [i]; lane [l] owns [i = 2 step l]. *)
Definition tree_step (step G : nat) (b : list Z) : list Z :=
  run_lanes (map (fun l => (2 * step * l, 2 * step * l + step)%nat)
                 (seq 0 (G / (2 * step))%nat)) b.

(** Modelled from the spec: section 4.6, step sizes 1, 2, 4, ... below
    the group size. *)
Fixpoint tree_loop (fuel step G : nat) (b : list Z) : list Z :=
  match fuel with
  | O => b
  | S fuel' =>
      if (step <? G)%nat then tree_loop fuel' (2 * step)%nat G (tree_step step G b)
      else b
  end.

(** Modelled from the spec: section 4.6, Local-Memory Tree Sum.  The
    work-items of group [g] load one element each into local memory; after
    the tree, lane 0 adds the group's total atomically. *)
Definition local_tree_group (as_ : list Z) (n : Z) (G g : nat) : option Z :=
  let local := map (fun lid => load as_ n (g * G + lid)%nat) (seq 0 G) in
  Some (nth 0 (tree_loop G 1 G local) 0).

(** Atomic additions into the accumulator, in the order [order] in which
    the device happens to carry them out. *)
Definition atomic_dispatch (order : list nat) (item : nat -> option Z) (acc : Z) : Z :=
  fold_left
    (fun a id => match item id with Some x => UInt.add a x | None => a end)
    order acc.

Definition on_accumulator (f : Z -> Z) (acc : list Z) : list Z :=
  match acc with
  | a :: rest => f a :: rest
  | [] => []
  end.

(** Modelled from the spec: section 4.7, one pass of the Full Tree Sum
    over [m] live elements: [buf[i] += buf[i + half]] for [i < half], where
    [half] is [m / 2] rounded up and a lane whose partner [i + half] is not
    live does nothing. *)
Definition tree_pass (m : nat) (b : list Z) : list Z :=
  let half := ((m + 1) / 2)%nat in
  run_lanes (map (fun i => (i, i + half)%nat)
                 (filter (fun i => (i + half <? m)%nat) (seq 0 half))) b.

(** The number of halving steps that bring [m] live elements down to one,
    each step leaving half of them, rounded up, as [tree_pass] does. *)
Fixpoint halving_steps (fuel m : nat) : nat :=
  match fuel with
  | O => O
  | S fuel' =>
      if (m <=? 1)%nat then O
      else S (halving_steps fuel' ((m + 1) / 2)%nat)
  end.

(** Modelled from the spec: what a dispatch of each kernel does to the
    two buffers.  [sched W] is the order in which the device carries out
    the atomic additions of [W] work-items (or groups).  A dispatch of
    [TreeSum] is one pass of section 4.7 over the [n] elements, in place;
    it uses no accumulator. *)
Definition spec_exec (sched : nat -> list nat) (k : Kernel) (ws : WorkSize)
    (as_ : list Z) (n : Z) (acc : list Z) : list Z * list Z :=
  let W := Z.to_nat (workSize ws) in
  let G := Z.to_nat (groupSize ws) in
  match k with
  | globalAtomSum =>
      (as_, on_accumulator (atomic_dispatch (sched W) (global_atomic_item as_ n)) acc)
  | BatchSum =>
      (as_, on_accumulator (atomic_dispatch (sched W) (strided_item as_ n W)) acc)
  | BatchSumCoalesed =>
      (as_, on_accumulator (atomic_dispatch (sched W) (coalesced_item as_ n)) acc)
  | LocalMemSUm =>
      (as_, on_accumulator
              (atomic_dispatch (sched (W / G)%nat) (local_tree_group as_ n G)) acc)
  | TreeSum => (tree_pass (Z.to_nat n) as_, acc)
  end.

(** The device carries out every work-item exactly once. *)
Definition fair_schedule (sched : nat -> list nat) : Prop :=
  forall W, Permutation (sched W) (seq 0 W).

(** The OpenMP runtime hands out every iteration exactly once. *)
Definition fair_reduction (r : Reduction) (n : nat) : Prop :=
  Permutation (iterations_of r) (Zseq 0 n).

(** The seven strategies of the specification. *)
Inductive Strategy : Type :=
| SequentialCPU | OpenMPCPU
| GlobalAtomic | StridedBatch | CoalescedBatch | LocalMemoryTree | FullTree.

(** What a GPU block of [main] reads back on a fresh device: lines 74-81,
    the loop of the block with its [benchmarkingIters] trials, and the
    read-back of the accumulator; the kernels are those of the
    specification. *)
Definition gpu_readback (uninitialised : nat -> Z) (sched : nat -> list nat)
    (k : Kernel) (ws : Z -> WorkSize) (as_ : list Z) : Result Z :=
  let n := Z.of_nat (length as_) in
  fst ((gpu_setup uninitialised n as_ ;;
        '(gws, _) <- work_partition n workGroupSize_main ;;
        for_loop (loop_fuel benchmarkingIters_main)
          (fun i => int_lt_int i benchmarkingIters_main)
          (fun _ _ => gpu_iteration (spec_exec sched) n k (ws gws) 0) 0 tt ;;
        read_sum) initial_state).

(** The output of a strategy on the input [as_]: the CPU strategies and
    the launch of the five kernels as in main_sum.cpp (each through the
    loop of its block and the read-back of the accumulator), the kernels
    as in the specification. *)
Definition strategy_output (omp : Reduction) (uninitialised : nat -> Z)
    (sched : nat -> list nat) (s : Strategy) (as_ : list Z) : Result Z :=
  let n := Z.of_nat (length as_) in
  match s with
  | SequentialCPU => fst (cpu_sum n as_ initial_state)
  | OpenMPCPU => fst (omp_sum (fun _ => omp) n as_ initial_state)
  | GlobalAtomic =>
      gpu_readback uninitialised sched globalAtomSum
        (fun gws => mkWorkSize workGroupSize_main gws) as_
  | StridedBatch =>
      gpu_readback uninitialised sched BatchSum
        (fun gws => mkWorkSize workGroupSize_main (UInt.div gws 32)) as_
  | CoalescedBatch =>
      gpu_readback uninitialised sched BatchSumCoalesed
        (fun gws => mkWorkSize workGroupSize_main (UInt.div gws 32)) as_
  | LocalMemoryTree =>
      gpu_readback uninitialised sched LocalMemSUm
        (fun gws => mkWorkSize workGroupSize_main gws) as_
  | FullTree =>
      gpu_readback uninitialised sched TreeSum
        (fun gws => mkWorkSize workGroupSize_main gws) as_
  end.

(** What a work-item adds to the accumulator, as a number. *)
Definition item_value (item : nat -> option Z) (id : nat) : Z :=
  match item id with Some x => x | None => 0 end.

(** The elements still to be added up before the step of size [step] of
    the tree in local memory: those at the multiples of [step]. *)
Definition live_sum (step q : nat) (b : list Z) : Z :=
  sum_upto (fun l => nth (l * step) b 0) q.

(** ** Collaborators used in the examples *)

(** A generator that stays within the bounds it is given. *)
Definition example_next (r lo hi : Z) : Z * Z :=
  (lo + r mod (hi - lo + 1), (r * 1103515245 + 12345) mod 2147483648).

(** A kernel that adds the sum of the [n] input elements to the
    accumulator, whatever its name and work size. *)
Definition ideal_exec (k : Kernel) (ws : WorkSize) (as_ : list Z) (n : Z)
    (acc : list Z) : list Z * list Z :=
  (as_, on_accumulator (fun a => UInt.add a (seq_sum (firstn (Z.to_nat n) as_))) acc).

(** A device on which kernel [bad] returns a wrong sum. *)
Definition faulty_exec (bad : Kernel) (k : Kernel) (ws : WorkSize) (as_ : list Z)
    (n : Z) (acc : list Z) : list Z * list Z :=
  if kernel_eqb bad k
  then (as_, on_accumulator (fun a => UInt.add a 1) (snd (ideal_exec k ws as_ n acc)))
  else ideal_exec k ws as_ n acc.

(** A kernel that returns the right sum but works in place: it leaves
    zeros in the input buffer. *)
Definition clearing_exec (k : Kernel) (ws : WorkSize) (as_ : list Z) (n : Z)
    (acc : list Z) : list Z * list Z :=
  (map (fun _ => 0) as_, snd (ideal_exec k ws as_ n acc)).

(** Device memory that is not zero when allocated. *)
Definition example_garbage (i : nat) : Z := 3735928559.

(** A reduction over 8 iterations by three threads. *)
Definition example_reduction : Reduction :=
  Combine (Chunk [6; 7]) (Combine (Chunk [0; 1; 2]) (Chunk [3; 4; 5])).

(** The device runs the work-items from the last to the first. *)
Definition example_schedule (W : nat) : list nat := rev (seq 0 W).

(** A small run of the harness: 8 elements, the iteration count and the
    group size of [main]. *)
Definition example_run
    (kernel_exec : Kernel -> WorkSize -> list Z -> Z -> list Z -> list Z * list Z)
    : Result Z * State :=
  main_with Z (fun seed => seed) example_next (fun _ => example_reduction)
    example_garbage kernel_exec benchmarkingIters_main 8 workGroupSize_main
    initial_state.

(** An input whose first element is 1 and whose [k] others are 0; a
    reduction that hands all the iterations to one thread; and the input of
    this form that has UINT_MAX elements. *)
Definition one_then_zeros (k : nat) : list Z := 1 :: repeat 0 k.
Definition one_chunk (as_ : list Z) : Reduction := Chunk (Zseq 0 (length as_)).
Definition long_input : list Z := one_then_zeros (Z.to_nat 4294967294).

(** An input of INT_MAX + 1 zeros. *)
Definition zeros_input : list Z := repeat 0 (Z.to_nat 2147483648).


(** ** The input generator *)

(** Modelled from the spec: libutils/fast_random.h is not among the
    sources at hand.  Section 6 describes the input generation collaborator
    as a seeded pseudo-random source whose values stay within the bounds it
    is called with. *)
Definition bounded_generator {Rng : Type} (rng_next : Rng -> Z -> Z -> Z * Rng) : Prop :=
  forall r lo hi, lo <= hi -> lo <= fst (rng_next r lo hi) <= hi.

(** The invariant of the loop of lines 28-31 after [k] iterations. *)
Definition generated_ok {Rng : Type} (n : Z) (k : nat) (s : list Z * Rng * Z) : Prop :=
  let '(as_, _, reference_sum) := s in
  Z.of_nat (length as_) = n /\
  reference_sum = seq_sum (firstn k as_) /\
  Forall (fun x => 0 <= x <= UINT_MAX / n) (firstn k as_).

(** ** Invariants of runs *)

(** [m] keeps the invariant [I] of the trace as long as it does not throw,
    and establishes [E what] of the trace when it throws [what]. *)
Definition run_inv {A : Type} (I : list Event -> Prop)
    (E : string -> list Event -> Prop) (m : M A) : Prop :=
  forall st,
    I (trace st) ->
    match m st with
    | (Throw what, st') => E what (trace st')
    | (_, st') => I (trace st')
    end.

(** [m] neither throws nor extends the trace. *)
Definition silent {A : Type} (m : M A) : Prop :=
  forall st,
    trace (snd (m st)) = trace st /\ forall what, fst (m st) <> Throw what.

(** ** Whole runs of [main] *)

(** The values [r.next(lo, hi)] returns when it is called [k] times in a
    row from the generator state [r], as the loop of lines 28-31 calls it,
    and the state the generator is left in. *)
Fixpoint draws {Rng : Type} (rng_next : Rng -> Z -> Z -> Z * Rng)
    (r : Rng) (lo hi : Z) (k : nat) : list Z :=
  match k with
  | O => []
  | S k' =>
      fst (rng_next r lo hi) :: draws rng_next (snd (rng_next r lo hi)) lo hi k'
  end.

Fixpoint rng_after {Rng : Type} (rng_next : Rng -> Z -> Z -> Z * Rng)
    (r : Rng) (lo hi : Z) (k : nat) : Rng :=
  match k with
  | O => r
  | S k' => rng_after rng_next (snd (rng_next r lo hi)) lo hi k'
  end.

(** The vector [main] fills in lines 26-31: each value the generator
    returns, converted to [unsigned int]. *)
Definition generated_input {Rng : Type} (FastRandom : Z -> Rng)
    (rng_next : Rng -> Z -> Z -> Z * Rng) (n : Z) : list Z :=
  map wrap (draws rng_next (FastRandom 42) 0 (UInt.div UINT_MAX n) (Z.to_nat n)).

(** The five GPU blocks of [main] in the order of the source (lines
    83-179): the kernel, the work size, the label of the report and the
    line of the check. *)
Definition gpu_blocks (workGroupSize gws : Z)
    : list (Kernel * WorkSize * string * Z) :=
  [ (globalAtomSum, mkWorkSize workGroupSize gws, "GPU (Atomic): "%string, 97);
    (BatchSum, mkWorkSize workGroupSize (UInt.div gws 32),
     "GPU (BatchSum): "%string, 117);
    (BatchSumCoalesed, mkWorkSize workGroupSize (UInt.div gws 32),
     "GPU (BatchSumCoalesed): "%string, 137);
    (LocalMemSUm, mkWorkSize workGroupSize gws, "GPU (LocalMemSum): "%string, 156);
    (TreeSum, mkWorkSize workGroupSize gws, "GPU (TreeSum): "%string, 175) ].

Definition block_kernel (b : Kernel * WorkSize * string * Z) : Kernel :=
  fst (fst (fst b)).

(** GPU blocks run one after the other. *)
Fixpoint run_blocks
    (kernel_exec : Kernel -> WorkSize -> list Z -> Z -> list Z -> list Z * list Z)
    (benchmarkingIters n reference_sum : Z)
    (bs : list (Kernel * WorkSize * string * Z)) : M unit :=
  match bs with
  | [] => ret tt
  | (k, ws, label, line) :: bs' =>
      gpu_block kernel_exec benchmarkingIters n k ws label line reference_sum ;;
      run_blocks kernel_exec benchmarkingIters n reference_sum bs'
  end.

(** The kernels in the order of their blocks in [main]. *)
Definition kernel_order : list Kernel :=
  [globalAtomSum; BatchSum; BatchSumCoalesed; LocalMemSUm; TreeSum].

(** The kernels dispatched in a run, in the order of their dispatch. *)
Definition dispatched_kernels (tr : list Event) : list Kernel :=
  flat_map (fun e => match e with EvExec k _ _ _ => [k] | _ => [] end) tr.

(** What a run launches: the kernel, the work size and the element count
    of each dispatch, in order. *)
Definition launches (tr : list Event) : list (Kernel * WorkSize * Z) :=
  flat_map (fun e => match e with EvExec k ws n _ => [(k, ws, n)] | _ => [] end) tr.

(** The launch of a block of [gpu_blocks] on [n] elements. *)
Definition block_launch (n : Z) (b : Kernel * WorkSize * string * Z)
    : Kernel * WorkSize * Z :=
  (fst (fst (fst b)), snd (fst (fst b)), n).

Definition is_report (e : Event) : bool :=
  match e with EvCerr _ _ _ _ _ => true | _ => false end.

(** What a CPU block does when its [iters] checks pass, and what a GPU
    block does when its kernel leaves [ref] in the accumulator. *)
Definition cpu_pass_trace (message : string) (line : Z) (label : string)
    (ref : Z) (iters : nat) : list Event :=
  concat (repeat [EvCompare message ref ref line; EvNextLap] iters)
  ++ [EvCout label; EvCout label].

Definition gpu_pass_trace (n ref : Z) (iters : nat)
    (b : Kernel * WorkSize * string * Z) : list Event :=
  let '(k, ws, label, line) := b in
  concat (repeat [EvWriteSum 0; EvExec k ws n [0]; EvNextLap] iters)
  ++ [EvReadSum ref; EvCompare gpu_message ref ref line; EvCout label; EvCout label].

(** The trace of a run of [main_with] in which every check passes. *)
Definition passing_trace (n workGroupSize gws ref : Z) (iters : nat) : list Event :=
  cpu_pass_trace cpu_message line_CPU "CPU:     " ref iters
  ++ cpu_pass_trace omp_message line_OMP "CPU OMP: " ref iters
  ++ flat_map (gpu_pass_trace n ref iters) (gpu_blocks workGroupSize gws).

(** The kernels do what the harness expects of them: launched as [main]
    launches them on an input of [n] elements and on an accumulator that
    holds 0, each leaves the input alone and the sum of the input, modulo
    2^32, in the accumulator. *)
Definition kernels_sum
    (kernel_exec : Kernel -> WorkSize -> list Z -> Z -> list Z -> list Z * list Z)
    (n workGroupSize gws : Z) : Prop :=
  forall k ws label line a,
    In (k, ws, label, line) (gpu_blocks workGroupSize gws) ->
    Z.of_nat (length a) = n ->
    kernel_exec k ws a n [0] = (a, [seq_sum a]).

(** A kernel does not change the size of the accumulator buffer. *)
Definition keeps_accumulator_size
    (kernel_exec : Kernel -> WorkSize -> list Z -> Z -> list Z -> list Z * list Z)
    : Prop :=
  forall k ws a m acc, length (snd (kernel_exec k ws a m acc)) = length acc.

(** How often a run calls [t.nextLap()] and how many lines it prints to
    [std::cout]. *)
Definition is_lap (e : Event) : bool :=
  match e with EvNextLap => true | _ => false end.
Definition is_cout (e : Event) : bool :=
  match e with EvCout _ => true | _ => false end.
Definition laps (tr : list Event) : nat := length (filter is_lap tr).
Definition couts (tr : list Event) : nat := length (filter is_cout tr).

(** * Properties *)

(** ** Machine integers *)

Module UIntFacts.

Lemma modulus_val : modulus = 4294967296.
Proof. reflexivity. Qed.

Lemma UINT_MAX_val : UINT_MAX = 4294967295.
Proof. reflexivity. Qed.

Lemma INT_MAX_val : INT_MAX = 2147483647.
Proof. reflexivity. Qed.

Lemma wrap_range x : in_range (wrap x).
Proof.
  unfold in_range, wrap, UINT_MAX.
  pose proof (Z.mod_pos_bound x modulus eq_refl). lia.
Qed.

Lemma wrap_small x : in_range x -> wrap x = x.
Proof.
  unfold in_range, wrap, UINT_MAX. intros H.
  apply Z.mod_small. lia.
Qed.

Lemma wrap_wrap x : wrap (wrap x) = wrap x.
Proof. unfold wrap. apply Z.mod_mod. rewrite modulus_val. lia. Qed.

Lemma add_wrap_l a b : add (wrap a) b = wrap (a + b).
Proof. unfold add, wrap. now rewrite Z.add_mod_idemp_l by (rewrite modulus_val; lia). Qed.

Lemma add_wrap_r a b : add a (wrap b) = wrap (a + b).
Proof. unfold add, wrap. now rewrite Z.add_mod_idemp_r by (rewrite modulus_val; lia). Qed.

Lemma add_wrap_both a b : add (wrap a) (wrap b) = wrap (a + b).
Proof. unfold add, wrap. now rewrite <- Zplus_mod. Qed.

Lemma add_comm a b : add a b = add b a.
Proof. unfold add. now rewrite Z.add_comm. Qed.

Lemma sub_wrap_l a b : sub (wrap a) b = wrap (a - b).
Proof. unfold sub, wrap. now rewrite Zminus_mod_idemp_l. Qed.

Lemma add_assoc a b c : add a (add b c) = add (add a b) c.
Proof.
  transitivity (wrap (a + b + c)).
  - change (add b c) with (wrap (b + c)). rewrite add_wrap_r. f_equal. lia.
  - change (add a b) with (wrap (a + b)). now rewrite add_wrap_l.
Qed.

Lemma add_0_l a : add 0 a = wrap a.
Proof. reflexivity. Qed.

End UIntFacts.

Import UIntFacts.

(** ** Work partition *)

(** Without wrap-around the formula rounds [n] up to a multiple of [G]. *)
Lemma global_work_size_no_wrap n G :
  0 < G -> 0 <= n -> n + G - 1 <= UINT_MAX ->
  global_work_size n G = Some ((n + G - 1) / G * G).
Proof.
  intros HG Hn Hfit. unfold global_work_size.
  destruct (Z.eqb_spec G 0) as [->|_]; [lia|].
  f_equal. unfold UInt.mul, UInt.div, UInt.sub, UInt.add.
  fold (UInt.sub (wrap (n + G)) 1). rewrite sub_wrap_l.
  rewrite (wrap_small (n + G - 1)) by (unfold in_range; lia).
  apply wrap_small. unfold in_range. split.
  - apply Z.mul_nonneg_nonneg; [apply Z.div_pos|]; lia.
  - pose proof (Z.mul_div_le (n + G - 1) G HG). lia.
Qed.

(** ** Reasoning about runs *)

Lemma Zseq_length i k : length (Zseq i k) = k.
Proof. revert i. induction k; intros; simpl; [reflexivity | now rewrite IHk]. Qed.

Lemma Zseq_In i k j : In j (Zseq i k) <-> i <= j < i + Z.of_nat k.
Proof.
  revert i. induction k as [|k IH]; intros i; simpl.
  - lia.
  - rewrite IH. lia.
Qed.

Lemma Zseq_app i k1 k2 :
  Zseq i (k1 + k2) = Zseq i k1 ++ Zseq (i + Z.of_nat k1) k2.
Proof.
  revert i. induction k1 as [|k1 IH]; intros i.
  - simpl. now rewrite Z.add_0_r.
  - cbn [Nat.add Zseq app]. rewrite IH. do 3 f_equal. lia.
Qed.

Lemma Zseq_map i k : Zseq i k = map (fun j => i + Z.of_nat j) (seq 0 k).
Proof.
  revert i. induction k as [|k IH]; intros i; [reflexivity|].
  cbn [Zseq seq map]. rewrite <- seq_shift, map_map, IH. f_equal; [lia|].
  apply map_ext. intros. lia.
Qed.

Lemma bind_ok {A B} (m : M A) (f : A -> M B) st a st' :
  m st = (Ok a, st') -> bind m f st = f a st'.
Proof. unfold bind. now intros ->. Qed.

Lemma bind_ext {A B} (m : M A) (f g : A -> M B) st :
  (forall a st', f a st' = g a st') -> bind m f st = bind m g st.
Proof.
  intros H. unfold bind. destruct (m st) as [[a| | |] st']; auto.
Qed.

Lemma bind_assoc {A B C} (m : M A) (f : A -> M B) (g : B -> M C) st :
  bind (bind m f) g st = bind m (fun a => bind (f a) g) st.
Proof.
  unfold bind. destruct (m st) as [[a| | |] st']; auto.
Qed.

Lemma foldM_app {St I} (body : I -> St -> M St) l1 l2 s st :
  foldM body (l1 ++ l2) s st = bind (foldM body l1 s) (foldM body l2) st.
Proof.
  revert s st. induction l1 as [|i l1 IH]; intros s st; simpl.
  - reflexivity.
  - rewrite bind_assoc. apply bind_ext. intros. apply IH.
Qed.

(** A counted loop whose test holds at [i, ..., i+k-1] and fails at
    [i+k] runs its body at exactly those indices, in order, provided the
    counter can reach [i+k]. *)
Lemma for_loop_counted {St} (cond : Z -> bool) (body : Z -> St -> M St) k :
  forall fuel i s st,
    (k < fuel)%nat ->
    (forall j, i <= j < i + Z.of_nat k -> cond j = true) ->
    cond (i + Z.of_nat k) = false ->
    i + Z.of_nat k <= INT_MAX ->
    for_loop fuel cond body i s st = foldM body (Zseq i k) s st.
Proof.
  induction k as [|k IH]; intros fuel i s st Hfuel Htrue Hfalse Hmax.
  - destruct fuel as [|fuel]; [lia|]. simpl.
    rewrite Z.add_0_r in Hfalse. now rewrite Hfalse.
  - destruct fuel as [|fuel]; [lia|]. cbn [for_loop Zseq foldM].
    rewrite Htrue by lia.
    apply bind_ext. intros s' st'.
    unfold int_incr.
    destruct (Z.ltb_spec i INT_MAX) as [_|Hge]; [|lia].
    change (bind (ret (i + 1)) (fun i' => for_loop fuel cond body i' s') st')
      with (for_loop fuel cond body (i + 1) s' st').
    apply IH.
    + lia.
    + intros j Hj. apply Htrue. lia.
    + rewrite <- Hfalse. f_equal. lia.
    + lia.
Qed.

(** [for (int i = 0; i < n; ++i)] with [unsigned int n]. *)
Lemma for_int_lt_uint {St} (body : Z -> St -> M St) n s st :
  0 <= n <= INT_MAX ->
  for_loop (loop_fuel n) (fun i => int_lt_uint i n) body 0 s st
  = foldM body (Zseq 0 (Z.to_nat n)) s st.
Proof.
  intros Hn. apply for_loop_counted.
  - unfold loop_fuel. lia.
  - intros j Hj. unfold int_lt_uint. rewrite wrap_small.
    + apply Z.ltb_lt. lia.
    + unfold in_range. rewrite UINT_MAX_val. rewrite INT_MAX_val in Hn. lia.
  - unfold int_lt_uint. rewrite wrap_small.
    + apply Z.ltb_ge. lia.
    + unfold in_range. rewrite UINT_MAX_val. rewrite INT_MAX_val in Hn. lia.
  - lia.
Qed.

(** [for (int iter = 0; iter < m; ++iter)] with [int m]. *)
Lemma for_int_lt_int {St} (body : Z -> St -> M St) m s st :
  m <= INT_MAX ->
  for_loop (loop_fuel m) (fun i => int_lt_int i m) body 0 s st
  = foldM body (Zseq 0 (Z.to_nat m)) s st.
Proof.
  intros Hm. pose proof INT_MAX_val as HM. apply for_loop_counted.
  - unfold loop_fuel. lia.
  - intros j Hj. unfold int_lt_int. apply Z.ltb_lt. lia.
  - unfold int_lt_int. apply Z.ltb_ge. lia.
  - lia.
Qed.

(** An [int] counter that has to pass INT_MAX overflows. *)
Lemma for_loop_overflow {St} (cond : Z -> bool) (body : Z -> St -> M St) st k :
  forall fuel i s,
    (k < fuel)%nat ->
    (forall j, i <= j <= INT_MAX -> cond j = true) ->
    (forall j s, i <= j <= INT_MAX -> exists s', body j s st = (Ok s', st)) ->
    i + Z.of_nat k = INT_MAX ->
    for_loop fuel cond body i s st = (Undefined SignedOverflow, st).
Proof.
  induction k as [|k IH]; intros fuel i s Hfuel Htrue Hbody Hmax.
  - destruct fuel as [|fuel]; [lia|]. simpl.
    rewrite Htrue by lia.
    destruct (Hbody i s ltac:(lia)) as [s' Hs']. rewrite (bind_ok _ _ _ _ _ Hs').
    unfold int_incr. destruct (Z.ltb_spec i INT_MAX); [lia|]. reflexivity.
  - destruct fuel as [|fuel]; [lia|]. cbn [for_loop].
    rewrite Htrue by lia.
    destruct (Hbody i s ltac:(lia)) as [s' Hs']. rewrite (bind_ok _ _ _ _ _ Hs').
    unfold int_incr. destruct (Z.ltb_spec i INT_MAX); [|lia].
    change (bind (ret (i + 1)) (fun i' => for_loop fuel cond body i' s') st)
      with (for_loop fuel cond body (i + 1) s' st).
    apply IH; try lia.
    + intros j Hj. apply Htrue. lia.
    + intros j s0 Hj. apply Hbody. lia.
Qed.

(** ** Sums *)

Lemma true_sum_app l1 l2 : true_sum (l1 ++ l2) = true_sum l1 + true_sum l2.
Proof. induction l1 as [|x l1 IH]; simpl; [reflexivity | rewrite IH; lia]. Qed.

Lemma true_sum_perm l1 l2 : Permutation l1 l2 -> true_sum l1 = true_sum l2.
Proof. induction 1; simpl; lia. Qed.

Lemma true_sum_nonneg l : Forall (fun x => 0 <= x) l -> 0 <= true_sum l.
Proof. induction 1; simpl; lia. Qed.

Lemma true_sum_bound l b :
  Forall (fun x => x <= b) l -> true_sum l <= Z.of_nat (length l) * b.
Proof.
  induction 1 as [|x l Hx Hl IH]; [simpl; lia|].
  change (true_sum (x :: l)) with (x + true_sum l).
  rewrite length_cons. lia.
Qed.

Lemma fold_add_wrap l a : wrap (fold_left UInt.add l a) = wrap (a + true_sum l).
Proof.
  revert a. induction l as [|x l IH]; intros a; cbn [fold_left true_sum fold_right].
  - now rewrite Z.add_0_r.
  - rewrite IH. fold (true_sum l). unfold UInt.add.
    fold (UInt.add (wrap (a + x)) (true_sum l)). rewrite add_wrap_l.
    f_equal. lia.
Qed.

Lemma fold_add_range l a : in_range a -> in_range (fold_left UInt.add l a).
Proof.
  revert a. induction l as [|x l IH]; intros a Ha; simpl; [assumption|].
  apply IH. apply wrap_range.
Qed.

Lemma fold_add_eq l a :
  in_range a -> fold_left UInt.add l a = wrap (a + true_sum l).
Proof.
  intros Ha. rewrite <- fold_add_wrap. symmetry. apply wrap_small.
  now apply fold_add_range.
Qed.

Lemma in_range_0 : in_range 0.
Proof. unfold in_range. rewrite UINT_MAX_val. lia. Qed.

(** The sequential sum is the true sum modulo 2^32. *)
Lemma seq_sum_wrap l : seq_sum l = wrap (true_sum l).
Proof. unfold seq_sum. now rewrite fold_add_eq by apply in_range_0. Qed.

Lemma seq_sum_range l : in_range (seq_sum l).
Proof. rewrite seq_sum_wrap. apply wrap_range. Qed.

Lemma seq_sum_perm l1 l2 : Permutation l1 l2 -> seq_sum l1 = seq_sum l2.
Proof. intros H. rewrite !seq_sum_wrap. f_equal. now apply true_sum_perm. Qed.

(** *** Reading a vector at a list of indices *)

Lemma vec_get_in_bounds v i st :
  in_bounds v i -> vec_get v i st = (Ok (at_index v i), st).
Proof.
  unfold in_bounds, vec_get. intros [H0 H1].
  destruct (Z.leb_spec 0 i); [|lia].
  destruct (Z.ltb_spec i (Z.of_nat (length v))); [|lia]. reflexivity.
Qed.

Lemma vec_get_out_of_bounds v i st :
  ~ in_bounds v i -> vec_get v i st = (Undefined OutOfBounds, st).
Proof.
  unfold in_bounds, vec_get. intros H.
  destruct (Z.leb_spec 0 i); destruct (Z.ltb_spec i (Z.of_nat (length v)));
    simpl; try reflexivity. lia.
Qed.

Lemma map_at_index_Zseq v :
  map (at_index v) (Zseq 0 (length v)) = v.
Proof.
  rewrite Zseq_map, map_map. unfold at_index.
  induction v as [|x v IH]; [reflexivity|].
  cbn [length seq map]. f_equal.
  rewrite <- seq_shift, map_map. rewrite <- IH at 2.
  apply map_ext. intros j.
  replace (Z.to_nat (0 + Z.of_nat (S j))) with (S (Z.to_nat (0 + Z.of_nat j))) by lia.
  reflexivity.
Qed.

Lemma foldM_accumulate as_ its :
  forall sum st,
    Forall (in_bounds as_) its ->
    foldM (accumulate as_) its sum st
    = (Ok (fold_left UInt.add (map (at_index as_) its) sum), st).
Proof.
  induction its as [|i its IH]; intros sum st Hb; [reflexivity|].
  inversion Hb as [|? ? Hi Hits]; subst.
  cbn [foldM map fold_left]. unfold accumulate at 1.
  rewrite bind_assoc, (bind_ok _ _ _ _ _ (vec_get_in_bounds _ _ _ Hi)).
  unfold bind at 1, ret at 1. now apply IH.
Qed.

Lemma Zseq_in_bounds (v : list Z) :
  Forall (in_bounds v) (Zseq 0 (length v)).
Proof.
  apply Forall_forall. intros i Hi. apply Zseq_In in Hi. unfold in_bounds. lia.
Qed.

(** The sequential loop returns the sequential sum. *)
Lemma cpu_sum_ok n as_ st :
  Z.of_nat (length as_) = n -> n <= INT_MAX ->
  cpu_sum n as_ st = (Ok (seq_sum as_), st).
Proof.
  intros Hlen Hmax. unfold cpu_sum.
  rewrite for_int_lt_uint by lia.
  replace (Z.to_nat n) with (length as_) by lia.
  rewrite foldM_accumulate by apply Zseq_in_bounds.
  now rewrite map_at_index_Zseq.
Qed.

(** With more elements than an [int] can count, the counter of the
    sequential loop overflows. *)
Lemma cpu_sum_overflow n as_ st :
  Z.of_nat (length as_) = n -> INT_MAX < n ->
  cpu_sum n as_ st = (Undefined SignedOverflow, st).
Proof.
  intros Hlen Hn. unfold cpu_sum. pose proof INT_MAX_val as HM.
  apply (for_loop_overflow _ _ st (Z.to_nat INT_MAX)).
  - unfold loop_fuel. lia.
  - intros j Hj. unfold int_lt_uint. rewrite wrap_small.
    + apply Z.ltb_lt. lia.
    + unfold in_range. rewrite UINT_MAX_val. lia.
  - intros j s Hj. exists (UInt.add s (at_index as_ j)).
    unfold accumulate.
    rewrite (bind_ok _ _ _ _ _ (vec_get_in_bounds as_ j st
               ltac:(unfold in_bounds; lia))).
    reflexivity.
  - lia.
Qed.

(** *** The OpenMP reduction *)

Lemma omp_reduce_ok as_ r :
  forall st,
    Forall (in_bounds as_) (iterations_of r) ->
    omp_reduce as_ r st
    = (Ok (wrap (true_sum (map (at_index as_) (iterations_of r)))), st).
Proof.
  induction r as [its | l IHl r IHr]; intros st Hb; cbn [omp_reduce iterations_of].
  - rewrite foldM_accumulate by assumption.
    now rewrite fold_add_eq by apply in_range_0.
  - cbn [iterations_of] in Hb. apply Forall_app in Hb as [Hl Hr].
    rewrite (bind_ok _ _ _ _ _ (IHl st Hl)).
    rewrite (bind_ok _ _ _ _ _ (IHr st Hr)).
    unfold ret. rewrite map_app, true_sum_app, add_wrap_both.
    reflexivity.
Qed.

Lemma omp_reduce_partition as_ r st :
  Permutation (iterations_of r) (Zseq 0 (length as_)) ->
  omp_reduce as_ r st = (Ok (seq_sum as_), st).
Proof.
  intros HP. rewrite omp_reduce_ok.
  - rewrite seq_sum_wrap. do 3 f_equal.
    rewrite <- (map_at_index_Zseq as_) at 2.
    apply true_sum_perm. now apply Permutation_map.
  - eapply Permutation_Forall; [apply Permutation_sym; eassumption|].
    apply Zseq_in_bounds.
Qed.

(** *** The generated input *)

Lemma list_set_length v i x : length (list_set v i x) = length v.
Proof.
  revert i. induction v as [|y v IH]; intros [|i]; simpl; auto.
Qed.

Lemma list_set_nth v i x : (i < length v)%nat -> nth i (list_set v i x) 0 = x.
Proof.
  revert i. induction v as [|y v IH]; intros [|i]; simpl; intros H; try lia; auto.
  apply IH. lia.
Qed.

Lemma list_set_firstn v i x :
  (i < length v)%nat -> firstn (S i) (list_set v i x) = firstn i v ++ [x].
Proof.
  revert i. induction v as [|y v IH]; intros [|i]; simpl; intros H; try lia; auto.
  f_equal. apply IH. lia.
Qed.

Lemma seq_sum_snoc l x : seq_sum (l ++ [x]) = UInt.add (seq_sum l) x.
Proof. unfold seq_sum. now rewrite fold_left_app. Qed.

Lemma Zseq_snoc i k : Zseq i (S k) = Zseq i k ++ [i + Z.of_nat k].
Proof. replace (S k) with (k + 1)%nat by lia. now rewrite Zseq_app. Qed.

(** An invariant carried through [k] iterations that leave the state
    [st] alone. *)
Lemma foldM_Zseq_invariant {St} (body : Z -> St -> M St) (Inv : nat -> St -> Prop) k :
  forall s st,
    Inv O s ->
    (forall j s, (j < k)%nat -> Inv j s ->
       exists s', body (Z.of_nat j) s st = (Ok s', st) /\ Inv (S j) s') ->
    exists s', foldM body (Zseq 0 k) s st = (Ok s', st) /\ Inv k s'.
Proof.
  induction k as [|k IH]; intros s st H0 Hstep.
  - exists s. split; [reflexivity | assumption].
  - destruct (IH s st H0) as [s1 [Hrun Hinv]].
    { intros j s' Hj. apply Hstep. lia. }
    destruct (Hstep k s1 (Nat.lt_succ_diag_r k) Hinv) as [s2 [Hbody Hinv2]].
    exists s2. split; [|assumption].
    rewrite Zseq_snoc, foldM_app, (bind_ok _ _ _ _ _ Hrun).
    simpl. rewrite (bind_ok _ _ _ _ _ Hbody). reflexivity.
Qed.


Section Generator.

Variable Rng : Type.
Variable FastRandom : Z -> Rng.
Variable rng_next : Rng -> Z -> Z -> Z * Rng.
Hypothesis Hgen : bounded_generator rng_next.

Lemma generate_body_step n st j (s : list Z * Rng * Z) :
  0 <= n -> (j < Z.to_nat n)%nat -> generated_ok n j s ->
  exists s',
    generate_body Rng rng_next n (Z.of_nat j) s st = (Ok s', st) /\
    generated_ok n (S j) s'.
Proof.
  intros Hn Hj. destruct s as [[as_ r] ref]. intros (Hlen & Href & Hall).
  unfold generate_body, udiv.
  destruct (Z.eqb_spec n 0) as [->|Hn0]; [lia|].
  change (bind (ret (UInt.div UINT_MAX n)) ?f st) with (f (UInt.div UINT_MAX n) st).
  cbv beta.
  pose proof (Hgen r 0 (UInt.div UINT_MAX n)) as Hx.
  destruct (rng_next r 0 (UInt.div UINT_MAX n)) as [x r'].
  unfold UInt.div in *. cbn [fst] in Hx.
  assert (Hq : 0 <= UINT_MAX / n <= UINT_MAX).
  { rewrite UINT_MAX_val. split.
    - apply Z.div_pos; lia.
    - apply Z.div_le_upper_bound; nia. }
  specialize (Hx (proj1 Hq)).
  assert (Hw : wrap x = x) by (apply wrap_small; unfold in_range; lia).
  rewrite Hw.
  assert (Hjl : (j < length as_)%nat) by lia.
  unfold vec_set.
  destruct (Z.leb_spec 0 (Z.of_nat j)); [|lia].
  destruct (Z.ltb_spec (Z.of_nat j) (Z.of_nat (length as_))); [|lia].
  cbn [andb].
  change (bind (ret ?a) ?f st) with (f a st). cbv beta.
  rewrite (bind_ok _ _ _ _ _
             (vec_get_in_bounds (list_set as_ (Z.to_nat (Z.of_nat j)) x)
                (Z.of_nat j) st
                ltac:(unfold in_bounds; rewrite list_set_length; lia))).
  unfold at_index. rewrite Nat2Z.id, list_set_nth by assumption.
  eexists. split; [reflexivity|].
  unfold generated_ok. rewrite list_set_length. split; [assumption|].
  rewrite (list_set_firstn as_ j x Hjl). split.
  - now rewrite seq_sum_snoc, Href.
  - apply Forall_app. split; [assumption|]. constructor; [lia | constructor].
Qed.

(** The loop of lines 28-31 fills the vector with values bounded by
    [UINT_MAX / n] and leaves their sequential sum in [reference_sum]. *)
Lemma generate_ok n st :
  0 <= n <= INT_MAX ->
  exists as_,
    generate Rng FastRandom rng_next n st = (Ok (as_, seq_sum as_), st) /\
    Z.of_nat (length as_) = n /\
    Forall (fun x => 0 <= x <= UINT_MAX / n) as_.
Proof.
  intros Hn. unfold generate.
  destruct (foldM_Zseq_invariant (generate_body Rng rng_next n) (generated_ok n)
              (Z.to_nat n) (repeat 0 (Z.to_nat n), FastRandom 42, 0) st)
    as [[[as_ r] ref] [Hrun (Hlen & Href & Hall)]].
  - unfold generated_ok. rewrite repeat_length.
    repeat split; [lia | constructor].
  - intros j s Hj Hinv. apply generate_body_step; [lia | assumption | assumption].
  - rewrite <- (for_int_lt_uint (generate_body Rng rng_next n) n) in Hrun by lia.
    rewrite (bind_ok _ _ _ _ _ Hrun). unfold ret.
    rewrite firstn_all2 in Href, Hall by lia.
    exists as_. subst ref. auto.
Qed.

End Generator.

(** ** Invariants of the trace *)

Lemma silent_run_inv {A} (m : M A) I E : silent m -> run_inv I E m.
Proof.
  intros Hs st HI. destruct (Hs st) as [Htr Hno].
  destruct (m st) as [[a|w|u|] st']; cbn [fst snd] in *;
    try (rewrite Htr; exact HI).
  exfalso. now apply (Hno w).
Qed.

Lemma run_inv_bind {A B} I E (m : M A) (f : A -> M B) :
  run_inv I E m -> (forall a, run_inv I E (f a)) -> run_inv I E (bind m f).
Proof.
  intros Hm Hf st HI. specialize (Hm st HI). unfold bind.
  destruct (m st) as [[a|w|u|] st']; try exact Hm.
  apply Hf. exact Hm.
Qed.

Lemma silent_bind {A B} (m : M A) (f : A -> M B) :
  silent m -> (forall a, silent (f a)) -> silent (bind m f).
Proof.
  intros Hm Hf st. destruct (Hm st) as [Htr Hno]. unfold bind.
  destruct (m st) as [[a|w|u|] st']; cbn [fst snd] in *.
  - destruct (Hf a st') as [Htr' Hno']. split; [congruence | assumption].
  - exfalso. now apply (Hno w).
  - split; [assumption | discriminate].
  - split; [assumption | discriminate].
Qed.

Lemma silent_ret {A} (a : A) : silent (ret a).
Proof. intros st. split; [reflexivity | discriminate]. Qed.

Lemma silent_undefined {A} u : silent (@undefined A u).
Proof. intros st. split; [reflexivity | discriminate]. Qed.

Lemma silent_out_of_fuel {A} : silent (@out_of_fuel A).
Proof. intros st. split; [reflexivity | discriminate]. Qed.

Lemma silent_int_incr i : silent (int_incr i).
Proof.
  unfold int_incr. destruct (i <? INT_MAX);
    [apply silent_ret | apply silent_undefined].
Qed.

Lemma silent_vec_get v i : silent (vec_get v i).
Proof.
  unfold vec_get. destruct ((0 <=? i) && (i <? Z.of_nat (length v)));
    [apply silent_ret | apply silent_undefined].
Qed.

Lemma silent_vec_set v i x : silent (vec_set v i x).
Proof.
  unfold vec_set. destruct ((0 <=? i) && (i <? Z.of_nat (length v)));
    [apply silent_ret | apply silent_undefined].
Qed.

Lemma silent_udiv a b : silent (udiv a b).
Proof.
  unfold udiv. destruct (b =? 0); [apply silent_undefined | apply silent_ret].
Qed.

Lemma silent_accumulate as_ i sum : silent (accumulate as_ i sum).
Proof.
  unfold accumulate. apply silent_bind; [apply silent_vec_get|].
  intros x. apply silent_ret.
Qed.

Lemma silent_for_loop {St} fuel cond (body : Z -> St -> M St) :
  (forall i s, silent (body i s)) ->
  forall i s, silent (for_loop fuel cond body i s).
Proof.
  intros Hb. induction fuel as [|fuel IH]; intros i s; cbn [for_loop].
  - apply silent_out_of_fuel.
  - destruct (cond i); [|apply silent_ret].
    apply silent_bind; [apply Hb|]. intros s'.
    apply silent_bind; [apply silent_int_incr|]. intros i'. apply IH.
Qed.

Lemma run_inv_for_loop {St} I E fuel cond (body : Z -> St -> M St) :
  (forall i s, run_inv I E (body i s)) ->
  forall i s, run_inv I E (for_loop fuel cond body i s).
Proof.
  intros Hb. induction fuel as [|fuel IH]; intros i s; cbn [for_loop].
  - apply silent_run_inv, silent_out_of_fuel.
  - destruct (cond i); [|apply silent_run_inv, silent_ret].
    apply run_inv_bind; [apply Hb|]. intros s'.
    apply run_inv_bind; [apply silent_run_inv, silent_int_incr|].
    intros i'. apply IH.
Qed.

Lemma silent_foldM {St J} (body : J -> St -> M St) l :
  (forall i s, silent (body i s)) -> forall s, silent (foldM body l s).
Proof.
  intros Hb. induction l as [|i l IH]; intros s; cbn [foldM].
  - apply silent_ret.
  - apply silent_bind; [apply Hb | apply IH].
Qed.

Lemma silent_cpu_sum n as_ : silent (cpu_sum n as_).
Proof.
  unfold cpu_sum. apply silent_for_loop. intros. apply silent_accumulate.
Qed.

Lemma silent_omp_reduce as_ r : silent (omp_reduce as_ r).
Proof.
  induction r as [its | l IHl r IHr]; cbn [omp_reduce].
  - apply silent_foldM. intros. apply silent_accumulate.
  - apply silent_bind; [assumption|]. intros a.
    apply silent_bind; [assumption|]. intros b. apply silent_ret.
Qed.

Lemma silent_omp_sum sched n as_ : silent (omp_sum sched n as_).
Proof.
  unfold omp_sum, omp_iterations. apply silent_bind.
  { apply silent_for_loop. intros. apply silent_ret. }
  intros _. apply silent_bind; [apply silent_omp_reduce|].
  intros p. apply silent_ret.
Qed.

Lemma silent_generate_body Rng rng_next n i s :
  silent (generate_body Rng rng_next n i s).
Proof.
  destruct s as [[as_ r] ref]. unfold generate_body.
  apply silent_bind; [apply silent_udiv|]. intros bound.
  destruct (rng_next r 0 bound) as [x r'].
  apply silent_bind; [apply silent_vec_set|]. intros as'.
  apply silent_bind; [apply silent_vec_get|]. intros y. apply silent_ret.
Qed.

Lemma silent_generate Rng FastRandom rng_next n :
  silent (generate Rng FastRandom rng_next n).
Proof.
  unfold generate. apply silent_bind.
  - apply silent_for_loop. intros. apply silent_generate_body.
  - intros [[as_ r] ref]. apply silent_ret.
Qed.

Lemma silent_gpu_setup uninit n as_ : silent (gpu_setup uninit n as_).
Proof. intros st. split; [reflexivity | discriminate]. Qed.

Lemma silent_work_partition n G : silent (work_partition n G).
Proof.
  unfold work_partition. destruct (global_work_size n G) as [gws|];
    [|apply silent_undefined].
  destruct (n_work_groups gws G); [apply silent_ret | apply silent_undefined].
Qed.

Lemma check_at_cpu : check_at cpu_message line_CPU.
Proof. exists None. simpl. auto. Qed.

Lemma check_at_omp : check_at omp_message line_OMP.
Proof. exists None. simpl. auto. Qed.

Lemma check_at_gpu k line :
  In (Some k, gpu_message, line) checks -> check_at gpu_message line.
Proof. intros H. now exists (Some k). Qed.

Lemma writeN_reset buf : hd_error (writeN [0] 1 buf) = Some 0.
Proof. reflexivity. Qed.

Lemma work_partition_cases n G st :
  (exists gws groups,
     global_work_size n G = Some gws /\
     work_partition n G st = (Ok (gws, groups), st)) \/
  (exists u, work_partition n G st = (Undefined u, st)).
Proof.
  unfold work_partition. destruct (global_work_size n G) as [gws|].
  - destruct (n_work_groups gws G) as [groups|].
    + left. exists gws, groups. auto.
    + right. now exists DivisionByZero.
  - right. now exists DivisionByZero.
Qed.

(** One iteration of the loop of a GPU block always returns. *)
Lemma gpu_iteration_run kernel_exec n k ws st :
  gpu_iteration kernel_exec n k ws 0 st
  = (Ok tt, gpu_trial_state kernel_exec n k ws st).
Proof.
  unfold gpu_iteration, gpu_trial_state, bind, write_sum, exec, nextLap, emit.
  cbn [trace as_buffer sum_buffer].
  destruct (kernel_exec k ws (as_buffer st) n (writeN [0] 1 (sum_buffer st)))
    as [a s].
  cbn [trace as_buffer sum_buffer fst snd]. rewrite <- !app_assoc. reflexivity.
Qed.

Section TraceInvariant.

Variable P : Event -> Prop.
Variable E : string -> list Event -> Prop.
Variable ref : Z.

Variable omp_schedule : Z -> Reduction.
Variable uninitialised : nat -> Z.
Variable kernel_exec :
  Kernel -> WorkSize -> list Z -> Z -> list Z -> list Z * list Z.
Variable benchmarkingIters : Z.
Variable n : Z.
Variable workGroupSize : Z.

Hypothesis P_lap : P EvNextLap.
Hypothesis P_cout : forall label, P (EvCout label).
Hypothesis P_reset : P (EvWriteSum 0).
Hypothesis P_read : forall v, P (EvReadSum v).
Hypothesis P_pass :
  forall message line, check_at message line -> P (EvCompare message ref ref line).
Hypothesis E_fail :
  forall tr message b line,
    Forall P tr -> b <> ref -> check_at message line ->
    E message (tr ++ [EvCompare message ref b line;
                      EvCerr message ref b file_name line]).
Hypothesis P_exec :
  forall gws, global_work_size n workGroupSize = Some gws ->
  forall k ws acc,
    hd_error acc = Some 0 ->
    launch_geometry workGroupSize gws (EvExec k ws n acc) ->
    P (EvExec k ws n acc).

Lemma run_inv_emit e : P e -> run_inv (Forall P) E (emit e).
Proof.
  intros He st HI. cbn. apply Forall_app. split; [assumption|].
  constructor; [assumption | constructor].
Qed.

Lemma run_inv_raiseFail b message line :
  check_at message line ->
  run_inv (Forall P) E (raiseFail ref b message file_name line).
Proof.
  intros Hc st HI. unfold raiseFail, bind, emit. cbn.
  destruct (Z.eqb_spec ref b) as [<-|Hne]; cbn.
  - apply Forall_app. split; [assumption|].
    constructor; [now apply P_pass | constructor].
  - rewrite <- app_assoc. apply E_fail; [assumption | congruence | assumption].
Qed.

Lemma run_inv_report label : run_inv (Forall P) E (report label).
Proof.
  unfold report. apply run_inv_bind; [apply run_inv_emit, P_cout|].
  intros _. apply run_inv_emit, P_cout.
Qed.

Lemma run_inv_cpu_block as_ :
  run_inv (Forall P) E (cpu_block benchmarkingIters n as_ ref).
Proof.
  unfold cpu_block. apply run_inv_bind; [|intros _; apply run_inv_report].
  apply run_inv_for_loop. intros _ _.
  apply run_inv_bind; [apply silent_run_inv, silent_cpu_sum|]. intros sum.
  apply run_inv_bind; [apply run_inv_raiseFail, check_at_cpu|].
  intros _. apply run_inv_emit, P_lap.
Qed.

Lemma run_inv_omp_block as_ :
  run_inv (Forall P) E (omp_block omp_schedule benchmarkingIters n as_ ref).
Proof.
  unfold omp_block. apply run_inv_bind; [|intros _; apply run_inv_report].
  apply run_inv_for_loop. intros _ _.
  apply run_inv_bind; [apply silent_run_inv, silent_omp_sum|]. intros sum.
  apply run_inv_bind; [apply run_inv_raiseFail, check_at_omp|].
  intros _. apply run_inv_emit, P_lap.
Qed.

Lemma run_inv_gpu_iteration k ws :
  (forall acc, hd_error acc = Some 0 -> P (EvExec k ws n acc)) ->
  run_inv (Forall P) E (gpu_iteration kernel_exec n k ws 0).
Proof.
  intros Hx st HI. rewrite gpu_iteration_run.
  unfold gpu_trial_state. cbn [trace].
  apply Forall_app. split; [assumption|].
  repeat constructor; auto.
Qed.

Lemma run_inv_read_sum : run_inv (Forall P) E read_sum.
Proof.
  intros st HI. unfold read_sum. destruct (sum_buffer st) as [|v rest]; cbn.
  - assumption.
  - apply Forall_app. split; [assumption|]. constructor; [apply P_read | constructor].
Qed.

Lemma run_inv_gpu_block k ws label line :
  In (Some k, gpu_message, line) checks ->
  (forall acc, hd_error acc = Some 0 -> P (EvExec k ws n acc)) ->
  run_inv (Forall P) E (gpu_block kernel_exec benchmarkingIters n k ws label line ref).
Proof.
  intros Hin Hx. unfold gpu_block.
  apply run_inv_bind.
  - apply run_inv_for_loop. intros _ _. now apply run_inv_gpu_iteration.
  - intros _. apply run_inv_bind; [apply run_inv_read_sum|]. intros sum.
    apply run_inv_bind; [|intros _; apply run_inv_report].
    apply run_inv_raiseFail. eapply check_at_gpu; eassumption.
Qed.

Lemma run_inv_gpu_part as_ :
  run_inv (Forall P) E
    (gpu_part uninitialised kernel_exec benchmarkingIters n workGroupSize as_ ref).
Proof.
  unfold gpu_part.
  apply run_inv_bind; [apply silent_run_inv, silent_gpu_setup|]. intros _.
  intros st HI. unfold bind at 1.
  destruct (work_partition_cases n workGroupSize st)
    as [(gws & groups & Hgws & ->) | (u & ->)]; [|exact HI].
  revert st HI.
  change (run_inv (Forall P) E
    (gpu_block kernel_exec benchmarkingIters n globalAtomSum
       (mkWorkSize workGroupSize gws) "GPU (Atomic): " 97 ref ;;
     gpu_block kernel_exec benchmarkingIters n BatchSum
       (mkWorkSize workGroupSize (UInt.div gws 32)) "GPU (BatchSum): " 117 ref ;;
     gpu_block kernel_exec benchmarkingIters n BatchSumCoalesed
       (mkWorkSize workGroupSize (UInt.div gws 32)) "GPU (BatchSumCoalesed): " 137 ref ;;
     gpu_block kernel_exec benchmarkingIters n LocalMemSUm
       (mkWorkSize workGroupSize gws) "GPU (LocalMemSum): " 156 ref ;;
     gpu_block kernel_exec benchmarkingIters n TreeSum
       (mkWorkSize workGroupSize gws) "GPU (TreeSum): " 175 ref)).
  assert (Hblock : forall k ws label line,
             In (Some k, gpu_message, line) checks ->
             launch_geometry workGroupSize gws (EvExec k ws n []) ->
             run_inv (Forall P) E
               (gpu_block kernel_exec benchmarkingIters n k ws label line ref)).
  { intros k ws label line Hin Hgeo. apply run_inv_gpu_block; [assumption|].
    intros acc Hacc. apply (P_exec gws Hgws); [assumption|].
    destruct k; exact Hgeo. }
  do 4 (apply run_inv_bind;
        [apply Hblock; [simpl; tauto | split; reflexivity] | intros _]).
  apply Hblock; [simpl; tauto | split; reflexivity].
Qed.

End TraceInvariant.

(** Every run of [main_with] keeps an invariant that its blocks keep. *)
Lemma main_with_inv (P : Z -> Event -> Prop) (E : Z -> string -> list Event -> Prop)
    Rng FastRandom rng_next omp_schedule uninitialised kernel_exec
    benchmarkingIters n workGroupSize :
  (forall ref, block_invariant (P ref) (E ref) n workGroupSize ref) ->
  forall st, trace st = [] ->
  exists ref,
    match main_with Rng FastRandom rng_next omp_schedule uninitialised kernel_exec
            benchmarkingIters n workGroupSize st with
    | (Throw what, st') => E ref what (trace st')
    | (_, st') => Forall (P ref) (trace st')
    end.
Proof.
  intros Hinv st Hst. unfold main_with. unfold bind at 1.
  destruct (silent_generate Rng FastRandom rng_next n st) as [Htr Hno].
  destruct (generate Rng FastRandom rng_next n st) as [[[as_ ref]|w|u|] st1];
    cbn [fst snd] in *.
  - exists ref. destruct (Hinv ref) as (H1 & H2 & H3 & H4 & H5 & H6 & H7).
    assert (HI : Forall (P ref) (trace st1)) by (rewrite Htr, Hst; constructor).
    revert st1 HI Htr.
    assert (Hrun : run_inv (Forall (P ref)) (E ref)
              (cpu_block benchmarkingIters n as_ ref ;;
               omp_block omp_schedule benchmarkingIters n as_ ref ;;
               gpu_part uninitialised kernel_exec benchmarkingIters n
                 workGroupSize as_ ref ;;
               ret 0)).
    { apply run_inv_bind; [now apply run_inv_cpu_block|]. intros _.
      apply run_inv_bind; [now apply run_inv_omp_block|]. intros _.
      apply run_inv_bind; [now apply run_inv_gpu_part|]. intros _.
      apply silent_run_inv, silent_ret. }
    intros st1 HI _. exact (Hrun st1 HI).
  - exfalso. now apply (Hno w).
  - exists 0. rewrite Htr, Hst. constructor.
  - exists 0. rewrite Htr, Hst. constructor.
Qed.

(** *** Runs of the blocks *)

Lemma iter_shift {A} (f : A -> A) k a : Nat.iter k f (f a) = f (Nat.iter k f a).
Proof. induction k as [|k IH]; simpl; [reflexivity | now rewrite IH]. Qed.

Lemma foldM_iter {J} (body : J -> unit -> M unit) (f : State -> State) l :
  (forall i st, body i tt st = (Ok tt, f st)) ->
  forall st, foldM body l tt st = (Ok tt, Nat.iter (length l) f st).
Proof.
  intros Hb. induction l as [|i l IH]; intros st; [reflexivity|].
  cbn [foldM length]. rewrite (bind_ok _ _ _ _ _ (Hb i st)), IH.
  now rewrite iter_shift.
Qed.

Lemma add_trace_app st e1 e2 :
  add_trace (add_trace st e1) e2 = add_trace st (e1 ++ e2).
Proof. unfold add_trace. cbn. now rewrite app_assoc. Qed.

Lemma raiseFail_pass a message filename line st :
  raiseFail a a message filename line st
  = (Ok tt, add_trace st [EvCompare message a a line]).
Proof.
  unfold raiseFail, bind, emit. cbn. now rewrite Z.eqb_refl.
Qed.

Lemma raiseFail_fail a b message filename line st :
  a <> b ->
  raiseFail a b message filename line st
  = (Throw message,
     add_trace st [EvCompare message a b line; EvCerr message a b filename line]).
Proof.
  intros Hne. unfold raiseFail, bind, emit, add_trace. cbn.
  destruct (Z.eqb_spec a b); [contradiction|]. cbn. now rewrite <- app_assoc.
Qed.

Lemma report_run label st :
  report label st = (Ok tt, add_trace st [EvCout label; EvCout label]).
Proof. unfold report, bind, emit, add_trace. cbn. now rewrite <- app_assoc. Qed.

(** The loop of a GPU block always returns, after one trial per
    iteration. *)
Lemma gpu_loop_run kernel_exec benchmarkingIters n k ws st :
  benchmarkingIters <= INT_MAX ->
  for_loop (loop_fuel benchmarkingIters) (fun i => int_lt_int i benchmarkingIters)
    (fun _ _ => gpu_iteration kernel_exec n k ws 0) 0 tt st
  = (Ok tt, Nat.iter (Z.to_nat benchmarkingIters)
              (gpu_trial_state kernel_exec n k ws) st).
Proof.
  intros Hm. rewrite for_int_lt_int by assumption.
  rewrite (foldM_iter _ (gpu_trial_state kernel_exec n k ws)).
  - now rewrite Zseq_length.
  - intros _ st'. apply gpu_iteration_run.
Qed.

(** A GPU block: the trials, then the read-back and the check. *)
Lemma gpu_block_run kernel_exec benchmarkingIters n k ws label line ref st :
  benchmarkingIters <= INT_MAX ->
  gpu_block kernel_exec benchmarkingIters n k ws label line ref st
  = gpu_outcome label line ref
      (Nat.iter (Z.to_nat benchmarkingIters) (gpu_trial_state kernel_exec n k ws) st).
Proof.
  intros Hm. unfold gpu_block.
  rewrite (bind_ok _ _ _ _ _ (gpu_loop_run kernel_exec _ n k ws st Hm)).
  set (st1 := Nat.iter _ _ st). unfold gpu_outcome, bind at 1, read_sum.
  destruct (sum_buffer st1) as [|v rest] eqn:Hbuf; [reflexivity|].
  unfold EXPECT_THE_SAME.
  destruct (Z.eqb_spec ref v) as [->|Hne].
  - rewrite (bind_ok _ _ _ _ _ (raiseFail_pass v _ _ _ _)).
    rewrite report_run. unfold add_trace. cbn. rewrite Hbuf, <- !app_assoc.
    reflexivity.
  - unfold bind. rewrite (raiseFail_fail ref v _ _ _ _ Hne).
    unfold add_trace. cbn. rewrite Hbuf, <- !app_assoc. reflexivity.
Qed.

Lemma foldM_ret {J} (l : list J) st :
  foldM (fun (_ : J) (u : unit) => ret u) l tt st = (Ok tt, st).
Proof. induction l as [|i l IH]; [reflexivity | exact IH]. Qed.

(** The counter of the loop of line 52 reaches a bound within INT_MAX, and
    overflows before a larger one. *)
Lemma omp_iterations_ok n st :
  0 <= n <= INT_MAX -> omp_iterations n st = (Ok tt, st).
Proof.
  intros Hn. unfold omp_iterations. rewrite for_int_lt_uint by assumption.
  apply foldM_ret.
Qed.

Lemma omp_iterations_overflow n st :
  INT_MAX < n -> omp_iterations n st = (Undefined SignedOverflow, st).
Proof.
  intros Hn. pose proof INT_MAX_val as HM. unfold omp_iterations.
  apply (for_loop_overflow _ _ st (Z.to_nat INT_MAX)).
  - unfold loop_fuel. lia.
  - intros j Hj. unfold int_lt_uint. rewrite wrap_small.
    + apply Z.ltb_lt. lia.
    + unfold in_range. rewrite UINT_MAX_val. lia.
  - intros j s Hj. now exists s.
  - lia.
Qed.

Lemma omp_sum_ok sched n as_ st :
  fair_reduction (sched n) (length as_) ->
  Z.of_nat (length as_) = n -> n <= INT_MAX ->
  omp_sum sched n as_ st = (Ok (seq_sum as_), st).
Proof.
  intros Hfair Hlen Hn. unfold omp_sum.
  rewrite (bind_ok _ _ _ _ _ (omp_iterations_ok n st ltac:(lia))).
  rewrite (bind_ok _ _ _ _ _ (omp_reduce_partition as_ (sched n) st Hfair)).
  unfold ret. f_equal. f_equal. rewrite add_0_l. apply wrap_small, seq_sum_range.
Qed.

(** A CPU block whose runs return [sum]: every iteration compares. *)
Lemma cpu_loop_pass (run : M Z) message line (sum : Z) benchmarkingIters st :
  (forall st', run st' = (Ok sum, st')) ->
  benchmarkingIters <= INT_MAX ->
  for_loop (loop_fuel benchmarkingIters) (fun iter => int_lt_int iter benchmarkingIters)
    (fun _ _ => s <- run ;; EXPECT_THE_SAME sum s message line ;; nextLap) 0 tt st
  = (Ok tt, Nat.iter (Z.to_nat benchmarkingIters) (cpu_pass_state message line sum) st).
Proof.
  intros Hrun Hm. rewrite for_int_lt_int by assumption.
  rewrite (foldM_iter _ (cpu_pass_state message line sum)).
  - now rewrite Zseq_length.
  - intros _ st'. rewrite (bind_ok _ _ _ _ _ (Hrun st')).
    unfold EXPECT_THE_SAME.
    rewrite (bind_ok _ _ _ _ _ (raiseFail_pass sum _ _ _ _)).
    unfold nextLap, emit, cpu_pass_state, add_trace. cbn.
    now rewrite <- app_assoc.
Qed.

(** A CPU block whose first run returns something else stops there. *)
Lemma cpu_loop_fail (run : M Z) message line (ref sum : Z) benchmarkingIters st :
  run st = (Ok sum, st) -> ref <> sum -> 0 < benchmarkingIters ->
  for_loop (loop_fuel benchmarkingIters) (fun iter => int_lt_int iter benchmarkingIters)
    (fun _ _ => s <- run ;; EXPECT_THE_SAME ref s message line ;; nextLap) 0 tt st
  = (Throw message,
     add_trace st [EvCompare message ref sum line;
                   EvCerr message ref sum file_name line]).
Proof.
  intros Hrun Hne Hpos. unfold loop_fuel. cbn [for_loop]. unfold int_lt_int.
  destruct (Z.ltb_spec 0 benchmarkingIters); [|lia].
  rewrite bind_assoc, (bind_ok _ _ _ _ _ Hrun).
  unfold EXPECT_THE_SAME. unfold bind.
  now rewrite (raiseFail_fail ref sum _ _ _ _ Hne).
Qed.

Lemma cpu_block_pass benchmarkingIters n as_ st :
  Z.of_nat (length as_) = n -> n <= INT_MAX -> benchmarkingIters <= INT_MAX ->
  cpu_block benchmarkingIters n as_ (seq_sum as_) st
  = (Ok tt,
     add_trace (Nat.iter (Z.to_nat benchmarkingIters)
                  (cpu_pass_state cpu_message line_CPU (seq_sum as_)) st)
       [EvCout "CPU:     "; EvCout "CPU:     "]).
Proof.
  intros Hlen Hn Hm. unfold cpu_block.
  rewrite (bind_ok _ _ _ _ _
             (cpu_loop_pass (cpu_sum n as_) cpu_message line_CPU (seq_sum as_)
                benchmarkingIters st
                (fun st' => cpu_sum_ok n as_ st' Hlen Hn) Hm)).
  apply report_run.
Qed.

Lemma omp_block_pass sched benchmarkingIters n as_ st :
  fair_reduction (sched n) (length as_) ->
  Z.of_nat (length as_) = n -> n <= INT_MAX -> benchmarkingIters <= INT_MAX ->
  omp_block sched benchmarkingIters n as_ (seq_sum as_) st
  = (Ok tt,
     add_trace (Nat.iter (Z.to_nat benchmarkingIters)
                  (cpu_pass_state omp_message line_OMP (seq_sum as_)) st)
       [EvCout "CPU OMP: "; EvCout "CPU OMP: "]).
Proof.
  intros Hfair Hlen Hn Hm. unfold omp_block.
  rewrite (bind_ok _ _ _ _ _
             (cpu_loop_pass (omp_sum sched n as_) omp_message line_OMP (seq_sum as_)
                benchmarkingIters st
                (fun st' => omp_sum_ok sched n as_ st' Hfair Hlen Hn) Hm)).
  apply report_run.
Qed.

(** *** Counting events *)

Lemma dispatches_app k tr1 tr2 :
  dispatches k (tr1 ++ tr2) = (dispatches k tr1 + dispatches k tr2)%nat.
Proof. unfold dispatches. now rewrite filter_app, length_app. Qed.

Lemma compares_app tr1 tr2 :
  compares (tr1 ++ tr2) = (compares tr1 + compares tr2)%nat.
Proof. unfold compares. now rewrite filter_app, length_app. Qed.

Lemma resets_app tr1 tr2 :
  resets (tr1 ++ tr2) = (resets tr1 + resets tr2)%nat.
Proof. unfold resets. now rewrite filter_app, length_app. Qed.

Lemma kernel_eqb_refl k : kernel_eqb k k = true.
Proof. now destruct k. Qed.

Lemma gpu_trials_length kernel_exec n k ws j st :
  (length (trace st)
   <= length (trace (Nat.iter j (gpu_trial_state kernel_exec n k ws) st)))%nat.
Proof.
  induction j as [|j IH]; [reflexivity|].
  rewrite Nat.iter_succ. unfold gpu_trial_state at 1. cbn [trace].
  rewrite length_app. lia.
Qed.

Lemma gpu_trials_counts kernel_exec n k ws j st :
  let st' := Nat.iter j (gpu_trial_state kernel_exec n k ws) st in
  dispatches k (trace st') = (dispatches k (trace st) + j)%nat /\
  resets (trace st') = (resets (trace st) + j)%nat /\
  compares (trace st') = compares (trace st) /\
  Forall zeroed_dispatch (skipn (length (trace st)) (trace st')).
Proof.
  cbn zeta. induction j as [|j (IHd & IHr & IHc & IHz)].
  - change (Nat.iter 0 (gpu_trial_state kernel_exec n k ws) st) with st.
    repeat split; try lia. rewrite skipn_all. constructor.
  - rewrite Nat.iter_succ.
    pose proof (gpu_trials_length kernel_exec n k ws j st) as Hlen.
    set (st1 := Nat.iter j (gpu_trial_state kernel_exec n k ws) st) in *.
    unfold gpu_trial_state. cbn [trace].
    rewrite dispatches_app, resets_app, compares_app, IHd, IHr, IHc.
    unfold dispatches, compares, resets. cbn [filter is_dispatch is_reset is_compare].
    rewrite kernel_eqb_refl. cbn [length Z.eqb].
    repeat split; try lia.
    rewrite skipn_app. apply Forall_app. split; [assumption|].
    replace (length (trace st) - length (trace st1))%nat with O by lia.
    cbn [skipn]. repeat constructor.
Qed.

Lemma gpu_outcome_counts label line ref k st :
  let st' := snd (gpu_outcome label line ref st) in
  dispatches k (trace st') = dispatches k (trace st) /\
  resets (trace st') = resets (trace st) /\
  (compares (trace st') <= compares (trace st) + 1)%nat /\
  sum_buffer st' = sum_buffer st /\
  (fst (gpu_outcome label line ref st) = Ok tt ->
   hd_error (sum_buffer st) = Some ref /\
   compares (trace st') = (compares (trace st) + 1)%nat /\
   In (EvReadSum ref) (trace st')).
Proof.
  unfold gpu_outcome. destruct (sum_buffer st) as [|v rest] eqn:Hbuf; cbn zeta.
  - cbn [fst snd]. rewrite Hbuf. repeat split; try lia; discriminate.
  - assert (Hcount : forall tail,
              filter (is_dispatch k) tail = [] -> filter is_reset tail = [] ->
              length (filter is_compare tail) = 1%nat ->
              dispatches k (trace st ++ tail) = dispatches k (trace st) /\
              resets (trace st ++ tail) = resets (trace st) /\
              compares (trace st ++ tail) = (compares (trace st) + 1)%nat).
    { intros tail Hd Hr Hc. rewrite dispatches_app, resets_app, compares_app.
      unfold dispatches, resets, compares. rewrite Hd, Hr, Hc. cbn. lia. }
    destruct (Z.eqb_spec ref v) as [<-|Hne]; cbn [fst snd add_trace trace sum_buffer].
    + destruct (Hcount [EvReadSum ref; EvCompare gpu_message ref ref line;
                        EvCout label; EvCout label])
        as (Hd & Hr & Hc); try reflexivity.
      rewrite Hd, Hr, Hc. repeat split; try lia; try assumption.
      apply in_or_app. right. now left.
    + destruct (Hcount [EvReadSum v; EvCompare gpu_message ref v line;
                        EvCerr gpu_message ref v file_name line])
        as (Hd & Hr & Hc); try reflexivity.
      rewrite Hd, Hr, Hc. repeat split; try lia; try assumption; discriminate.
Qed.

(** The computed global size is a multiple of the group size 128, hence
    of 32, whatever [n] is. *)
Lemma global_work_size_128 n :
  exists gws,
    global_work_size n workGroupSize_main = Some gws /\
    UInt.div gws 32 * 32 = gws /\ 0 <= gws.
Proof.
  unfold global_work_size, workGroupSize_main. cbn [Z.eqb].
  eexists. split; [reflexivity|].
  set (q := UInt.div (UInt.sub (UInt.add n 128) 1) 128).
  unfold UInt.mul, UInt.div, wrap. rewrite modulus_val.
  change 4294967296 with (33554432 * 128).
  rewrite Z.mul_mod_distr_r by lia.
  pose proof (Z.mod_pos_bound q 33554432 eq_refl) as Hq.
  split; [|lia].
  replace (q mod 33554432 * 128) with ((q mod 33554432 * 4) * 32) by lia.
  now rewrite Z.div_mul by lia.
Qed.

(** ** Sums over index ranges *)

Lemma sum_upto_S f k : sum_upto f (S k) = sum_upto f k + f k.
Proof.
  unfold sum_upto. rewrite seq_S, map_app, true_sum_app. simpl. lia.
Qed.

Lemma sum_upto_ext f g k :
  (forall j, (j < k)%nat -> f j = g j) -> sum_upto f k = sum_upto g k.
Proof.
  induction k as [|k IH]; intros H; [reflexivity|].
  rewrite !sum_upto_S, IH, H by auto with arith. reflexivity.
Qed.

Lemma sum_upto_zero f k :
  (forall j, (j < k)%nat -> f j = 0) -> sum_upto f k = 0.
Proof.
  induction k as [|k IH]; intros H; [reflexivity|].
  rewrite sum_upto_S, IH, H by auto with arith. reflexivity.
Qed.

Lemma sum_upto_add f g k :
  sum_upto (fun j => f j + g j) k = sum_upto f k + sum_upto g k.
Proof.
  induction k as [|k IH]; [reflexivity|]. rewrite !sum_upto_S, IH. lia.
Qed.

Lemma sum_upto_app f a b :
  sum_upto f (a + b) = sum_upto f a + sum_upto (fun j => f (a + j)%nat) b.
Proof.
  induction b as [|b IH].
  - rewrite Nat.add_0_r. unfold sum_upto at 3. simpl. lia.
  - rewrite Nat.add_succ_r, !sum_upto_S, IH. lia.
Qed.

(** Rows of [B] elements laid one after the other. *)
Lemma sum_upto_flatten f A B :
  sum_upto (fun a => sum_upto (fun b => f (a * B + b)%nat) B) A
  = sum_upto f (A * B).
Proof.
  induction A as [|A IH]; [reflexivity|].
  rewrite sum_upto_S, IH. cbn [Nat.mul]. rewrite (Nat.add_comm B), sum_upto_app.
  reflexivity.
Qed.

Lemma sum_upto_exchange (f : nat -> nat -> Z) A B :
  sum_upto (fun a => sum_upto (fun b => f a b) B) A
  = sum_upto (fun b => sum_upto (fun a => f a b) A) B.
Proof.
  induction A as [|A IH].
  - symmetry. apply sum_upto_zero. reflexivity.
  - rewrite sum_upto_S, IH, <- sum_upto_add.
    apply sum_upto_ext. intros b _. now rewrite sum_upto_S.
Qed.

(** Two neighbours at a time. *)
Lemma sum_upto_pairs f h :
  sum_upto (fun l => f (2 * l)%nat + f (2 * l + 1)%nat) h = sum_upto f (2 * h).
Proof.
  induction h as [|h IH]; [reflexivity|].
  replace (2 * S h)%nat with (S (S (2 * h))) by lia.
  rewrite !sum_upto_S, IH. replace (2 * h + 1)%nat with (S (2 * h)) by lia. lia.
Qed.

Lemma sum_upto_nth l : sum_upto (fun j => nth j l 0) (length l) = true_sum l.
Proof.
  unfold sum_upto. f_equal.
  induction l as [|x l IH]; [reflexivity|].
  cbn [length seq map nth]. f_equal.
  rewrite <- seq_shift, map_map. exact IH.
Qed.

Lemma wrap_add_congr a b c d :
  wrap a = wrap c -> wrap b = wrap d -> wrap (a + b) = wrap (c + d).
Proof.
  intros H1 H2. rewrite <- (add_wrap_both a b), <- (add_wrap_both c d).
  now rewrite H1, H2.
Qed.

Lemma wrap_sum_upto_congr f g k :
  (forall j, (j < k)%nat -> wrap (f j) = wrap (g j)) ->
  wrap (sum_upto f k) = wrap (sum_upto g k).
Proof.
  induction k as [|k IH]; intros H; [reflexivity|].
  rewrite !sum_upto_S. apply wrap_add_congr; auto with arith.
Qed.

Lemma true_sum_map_perm {A} (f : A -> Z) l1 l2 :
  Permutation l1 l2 -> true_sum (map f l1) = true_sum (map f l2).
Proof. intros H. apply true_sum_perm. now apply Permutation_map. Qed.

(** The elements a device reads when its work-items cover the input. *)
Lemma sum_upto_load as_ n W :
  n = Z.of_nat (length as_) -> (length as_ <= W)%nat ->
  sum_upto (load as_ n) W = true_sum as_.
Proof.
  intros -> Hle.
  replace W with (length as_ + (W - length as_))%nat by lia.
  rewrite sum_upto_app, <- (sum_upto_nth as_).
  rewrite (sum_upto_zero (fun j => load as_ _ (length as_ + j))).
  - rewrite Z.add_0_r. apply sum_upto_ext. intros j Hj. unfold load.
    destruct (Z.ltb_spec (Z.of_nat j) (Z.of_nat (length as_))); [reflexivity | lia].
  - intros j _. unfold load.
    destruct (Z.ltb_spec (Z.of_nat (length as_ + j)) (Z.of_nat (length as_)));
      [lia | reflexivity].
Qed.

Lemma load_range as_ n i : Forall in_range as_ -> in_range (load as_ n i).
Proof.
  intros H. unfold load. destruct (Z.of_nat i <? n); [|apply in_range_0].
  destruct (Nat.lt_ge_cases i (length as_)) as [Hlt|Hge].
  - eapply Forall_forall; [exact H|]. now apply nth_In.
  - rewrite nth_overflow by assumption. apply in_range_0.
Qed.

(** ** Atomic additions *)

Lemma atomic_dispatch_wrap order item acc :
  wrap (atomic_dispatch order item acc)
  = wrap (acc + true_sum (map (item_value item) order)).
Proof.
  unfold atomic_dispatch. revert acc.
  induction order as [|id order IH]; intros acc; cbn [fold_left map true_sum fold_right].
  - now rewrite Z.add_0_r.
  - rewrite IH. fold (true_sum (map (item_value item) order)).
    unfold item_value at 2. destruct (item id) as [x|].
    + unfold UInt.add. fold (UInt.add (wrap (acc + x)) (true_sum (map (item_value item) order))).
      rewrite add_wrap_l. f_equal; lia.
    + f_equal; lia.
Qed.

Lemma atomic_dispatch_range order item acc :
  in_range acc -> in_range (atomic_dispatch order item acc).
Proof.
  unfold atomic_dispatch. revert acc.
  induction order as [|id order IH]; intros acc Hacc; cbn [fold_left]; [assumption|].
  apply IH. destruct (item id); [apply wrap_range | assumption].
Qed.

(** The accumulator after a dispatch that starts from 0 is the sum of
    what the work-items add, whatever the order. *)
Lemma atomic_dispatch_fair sched item W :
  fair_schedule sched ->
  atomic_dispatch (sched W) item 0 = wrap (sum_upto (item_value item) W).
Proof.
  intros Hfair.
  rewrite <- (wrap_small (atomic_dispatch _ _ _))
    by (apply atomic_dispatch_range, in_range_0).
  rewrite atomic_dispatch_wrap, Z.add_0_l. f_equal.
  apply true_sum_map_perm, Hfair.
Qed.

(** ** Tree reductions *)

Lemma list_set_nth_other v i j x :
  i <> j -> nth j (list_set v i x) 0 = nth j v 0.
Proof.
  revert i j. induction v as [|y v IH]; intros [|i] [|j] H; simpl; auto;
    congruence.
Qed.

Lemma list_set_range v i x :
  in_range x -> Forall in_range v -> Forall in_range (list_set v i x).
Proof.
  intros Hx Hv. revert i. induction Hv as [|y v Hy Hv IH]; intros [|i]; simpl;
    constructor; auto.
Qed.

Lemma apply_lane_length b op : length (apply_lane b op) = length b.
Proof. apply list_set_length. Qed.

Lemma run_lanes_length ops b : length (run_lanes ops b) = length b.
Proof.
  unfold run_lanes. revert b. induction ops as [|op ops IH]; intros b; simpl.
  - reflexivity.
  - now rewrite IH, apply_lane_length.
Qed.

Lemma run_lanes_range ops b :
  Forall in_range b -> Forall in_range (run_lanes ops b).
Proof.
  unfold run_lanes. revert b. induction ops as [|op ops IH]; intros b Hb; simpl.
  - assumption.
  - apply IH. apply list_set_range; [apply wrap_range | assumption].
Qed.

(** An element no lane writes is left alone. *)
Lemma run_lanes_nth_other ops b j :
  (forall op, In op ops -> fst op <> j) ->
  nth j (run_lanes ops b) 0 = nth j b 0.
Proof.
  unfold run_lanes. revert b. induction ops as [|op ops IH]; intros b H; simpl.
  - reflexivity.
  - rewrite IH by (intros; apply H; now right).
    apply list_set_nth_other. apply H. now left.
Qed.

(** When the lanes write different elements and read none that is
    written, lane [(d, s)] leaves [b[d] + b[s]] in [d]. *)
Lemma run_lanes_nth_dst ops b d s :
  NoDup (map fst ops) ->
  (forall op op', In op ops -> In op' ops -> snd op <> fst op') ->
  In (d, s) ops -> (d < length b)%nat ->
  nth d (run_lanes ops b) 0 = UInt.add (nth d b 0) (nth s b 0).
Proof.
  revert b. induction ops as [|op ops IH]; intros b Hnd Hrw Hin Hd; [contradiction|].
  cbn [map] in Hnd. inversion Hnd as [|? ? Hnotin Hnd']; subst.
  change (run_lanes (op :: ops) b) with (run_lanes ops (apply_lane b op)).
  destruct Hin as [->|Hin].
  - rewrite run_lanes_nth_other.
    + unfold apply_lane. cbn [fst snd]. now apply list_set_nth.
    + intros op' Hop' Heq. apply Hnotin. cbn [fst] in *. rewrite <- Heq.
      now apply in_map.
  - rewrite IH; try assumption.
    + unfold apply_lane. rewrite !list_set_nth_other; [reflexivity| |].
      * intros Heq. apply (Hrw (d, s) op); [now right | now left | now symmetry].
      * intros Heq. apply Hnotin. rewrite Heq.
        change d with (fst (d, s)). now apply in_map.
    + intros o o' Ho Ho'. apply Hrw; now right.
    + now rewrite apply_lane_length.
Qed.

Lemma NoDup_map_injective {A B} (f : A -> B) l :
  (forall x y, In x l -> In y l -> f x = f y -> x = y) ->
  NoDup l -> NoDup (map f l).
Proof.
  intros Hinj Hnd. induction Hnd as [|x l Hx Hnd IH]; [constructor|].
  cbn [map]. constructor.
  - intros Hin. apply in_map_iff in Hin as (y & Heq & Hy).
    apply Hx. rewrite (Hinj x y); [assumption | now left | now right | now symmetry].
  - apply IH. intros a b Ha Hb. apply Hinj; now right.
Qed.

(** *** The tree in local memory (section 4.6) *)

Lemma tree_step_nth step q b l :
  (0 < step)%nat -> length b = (2 * step * q)%nat -> (l < q)%nat ->
  nth (2 * step * l) (tree_step step (2 * step * q) b) 0
  = UInt.add (nth (2 * step * l) b 0) (nth (2 * step * l + step) b 0).
Proof.
  intros Hs Hlen Hl. unfold tree_step.
  replace (2 * step * q / (2 * step))%nat with q
    by (rewrite Nat.mul_comm, Nat.div_mul; lia).
  apply run_lanes_nth_dst.
  - rewrite map_map. cbn [fst]. apply NoDup_map_injective; [|apply seq_NoDup].
    intros x y _ _ H. apply Nat.mul_cancel_l in H; lia.
  - intros op op' Hop Hop'.
    apply in_map_iff in Hop as (x & <- & _).
    apply in_map_iff in Hop' as (y & <- & _). cbn [fst snd]. intros Heq.
    assert (H : (step * (2 * x + 1) = step * (2 * y))%nat) by lia.
    apply Nat.mul_cancel_l in H; lia.
  - apply in_map_iff. exists l. split; [reflexivity|]. apply in_seq. lia.
  - rewrite Hlen. apply Nat.mul_lt_mono_pos_l; lia.
Qed.

Lemma tree_step_live step q b :
  (0 < step)%nat -> length b = (2 * step * q)%nat ->
  wrap (live_sum (2 * step) q (tree_step step (2 * step * q) b))
  = wrap (live_sum step (2 * q) b).
Proof.
  intros Hs Hlen. unfold live_sum.
  rewrite <- (sum_upto_pairs (fun m => nth (m * step) b 0) q).
  apply wrap_sum_upto_congr. intros l Hl.
  replace (l * (2 * step))%nat with (2 * step * l)%nat by lia.
  rewrite tree_step_nth by assumption.
  unfold UInt.add. rewrite wrap_wrap. f_equal. f_equal; f_equal; lia.
Qed.

Lemma tree_loop_live r :
  forall fuel step b,
    (0 < step)%nat -> (r <= fuel)%nat -> length b = (step * 2 ^ r)%nat ->
    wrap (nth 0 (tree_loop fuel step (step * 2 ^ r) b) 0)
    = wrap (live_sum step (2 ^ r) b).
Proof.
  induction r as [|r IH]; intros fuel step b Hs Hfuel Hlen.
  - cbn [Nat.pow]. rewrite Nat.mul_1_r.
    assert (Hb : tree_loop fuel step step b = b).
    { destruct fuel; [reflexivity|]. cbn [tree_loop]. now rewrite Nat.ltb_irrefl. }
    rewrite Hb. unfold live_sum, sum_upto. cbn. now rewrite Z.add_0_r.
  - destruct fuel as [|fuel]; [lia|]. cbn [tree_loop].
    assert (Hpow : (0 < 2 ^ r)%nat) by (apply Nat.neq_0_lt_0, Nat.pow_nonzero; lia).
    destruct (Nat.ltb_spec step (step * 2 ^ S r)) as [_|Hge];
      [|cbn [Nat.pow] in Hge; nia].
    replace (step * 2 ^ S r)%nat with (2 * step * 2 ^ r)%nat in *
      by (cbn [Nat.pow]; lia).
    rewrite IH.
    + replace (2 ^ S r)%nat with (2 * 2 ^ r)%nat by reflexivity.
      now apply tree_step_live.
    + lia.
    + lia.
    + unfold tree_step. now rewrite run_lanes_length.
Qed.

Lemma tree_loop_range fuel step G b :
  Forall in_range b -> Forall in_range (tree_loop fuel step G b).
Proof.
  revert step b. induction fuel as [|fuel IH]; intros step b Hb; cbn [tree_loop].
  - assumption.
  - destruct (step <? G)%nat; [|assumption].
    apply IH. unfold tree_step. now apply run_lanes_range.
Qed.

Lemma nth_range (b : list Z) i : Forall in_range b -> in_range (nth i b 0).
Proof.
  intros H. destruct (Nat.lt_ge_cases i (length b)).
  - eapply Forall_forall; [exact H|]. now apply nth_In.
  - rewrite nth_overflow by assumption. apply in_range_0.
Qed.

(** A group of [2^r] lanes leaves the sum of its elements in element 0. *)
Lemma tree_loop_sum r b :
  length b = (2 ^ r)%nat -> Forall in_range b ->
  nth 0 (tree_loop (2 ^ r) 1 (2 ^ r) b) 0 = wrap (true_sum b).
Proof.
  intros Hlen Hb.
  rewrite <- (wrap_small (nth 0 _ 0)) by (apply nth_range, tree_loop_range, Hb).
  pose proof (tree_loop_live r (2 ^ r) 1 b) as H.
  rewrite Nat.mul_1_l in H. rewrite H.
  - unfold live_sum. rewrite <- Hlen, <- sum_upto_nth. f_equal.
    apply sum_upto_ext. intros l _. now rewrite Nat.mul_1_r.
  - lia.
  - apply Nat.lt_le_incl, Nat.pow_gt_lin_r. lia.
  - assumption.
Qed.

(** ** The GPU strategies on the launch geometry of [main] *)

(** The global size for the group size of [main], in work-groups. *)
Lemma global_work_size_groups n :
  0 <= n -> n + 127 <= UINT_MAX ->
  exists q : nat,
    global_work_size n workGroupSize_main = Some (Z.of_nat q * 128) /\
    n <= Z.of_nat q * 128.
Proof.
  intros Hn Hfit. exists (Z.to_nat ((n + 127) / 128)).
  assert (Hq : 0 <= (n + 127) / 128) by (apply Z.div_pos; lia).
  rewrite Z2Nat.id by assumption.
  unfold workGroupSize_main. rewrite global_work_size_no_wrap by lia.
  replace (n + 128 - 1) with (n + 127) by lia. split; [reflexivity|].
  pose proof (Z.div_mod (n + 127) 128 ltac:(lia)).
  pose proof (Z.mod_pos_bound (n + 127) 128 ltac:(lia)). lia.
Qed.

(** The accumulating kernels leave the input alone and keep the
    accumulator a single cell. *)
Lemma spec_exec_accumulating sched k ws as_ n acc :
  k <> TreeSum ->
  fst (spec_exec sched k ws as_ n acc) = as_ /\
  length (snd (spec_exec sched k ws as_ n acc)) = length acc.
Proof.
  intros Hk. destruct k; try contradiction; cbn [spec_exec fst snd];
    (split; [reflexivity | now destruct acc]).
Qed.

(** Each trial starts from a zeroed accumulator: after any number of
    trials the accumulator holds what one dispatch leaves in it. *)
Lemma gpu_trials_spec sched n k ws as_ st j :
  k <> TreeSum -> as_buffer st = as_ -> length (sum_buffer st) = 1%nat ->
  let st' := Nat.iter (S j) (gpu_trial_state (spec_exec sched) n k ws) st in
  as_buffer st' = as_ /\
  sum_buffer st' = snd (spec_exec sched k ws as_ n [0]).
Proof.
  intros Hk. cbn zeta. revert st. induction j as [|j IH]; intros st Has Hsum.
  - change (Nat.iter 1 (gpu_trial_state (spec_exec sched) n k ws) st)
      with (gpu_trial_state (spec_exec sched) n k ws st).
    unfold gpu_trial_state. cbn [as_buffer sum_buffer]. rewrite Has.
    assert (Hz : writeN [0] 1 (sum_buffer st) = [0]).
    { destruct (sum_buffer st) as [|x [|y rest]]; try discriminate. reflexivity. }
    rewrite Hz. split; [|reflexivity].
    apply (spec_exec_accumulating sched k ws as_ n [0] Hk).
  - rewrite Nat.iter_succ_r. apply IH.
    + unfold gpu_trial_state. cbn [as_buffer]. rewrite Has.
      apply (spec_exec_accumulating sched k ws as_ n _ Hk).
    + unfold gpu_trial_state. cbn [sum_buffer].
      destruct (spec_exec_accumulating sched k ws (as_buffer st) n
                  (writeN [0] 1 (sum_buffer st)) Hk) as [_ ->].
      destruct (sum_buffer st) as [|x [|y rest]]; try discriminate. reflexivity.
Qed.

(** A GPU block reads back what one dispatch of its kernel leaves in the
    zeroed accumulator. *)
Lemma gpu_readback_eval uninitialised sched k ws as_ (q : nat) :
  k <> TreeSum ->
  global_work_size (Z.of_nat (length as_)) workGroupSize_main
    = Some (Z.of_nat q * 128) ->
  gpu_readback uninitialised sched k ws as_
  = match snd (spec_exec sched k (ws (Z.of_nat q * 128)) as_
                 (Z.of_nat (length as_)) [0]) with
    | v :: _ => Ok v
    | [] => Undefined OutOfBounds
    end.
Proof.
  intros Hk Hgws. unfold gpu_readback.
  set (n := Z.of_nat (length as_)) in *.
  unfold bind at 1. unfold gpu_setup at 1. cbn [trace initial_state].
  assert (Has : writeN as_ n (resizeN uninitialised n) = as_).
  { unfold writeN, resizeN. subst n. rewrite Nat2Z.id, firstn_all.
    rewrite skipn_all2 by (rewrite length_map, length_seq; lia).
    apply app_nil_r. }
  rewrite Has.
  change (resizeN uninitialised 1) with [uninitialised O].
  unfold bind at 1. unfold work_partition. rewrite Hgws.
  change (n_work_groups (Z.of_nat q * 128) workGroupSize_main)
    with (Some (UInt.div (Z.of_nat q * 128) workGroupSize_main)).
  unfold ret at 1. cbv beta iota.
  unfold bind at 1. rewrite gpu_loop_run by (vm_compute; discriminate).
  change (Z.to_nat benchmarkingIters_main) with 10%nat.
  destruct (gpu_trials_spec sched n k (ws (Z.of_nat q * 128)) as_
              (mkState [] as_ [uninitialised O]) 9 Hk eq_refl eq_refl)
    as [_ Hsum].
  cbn zeta in Hsum.
  unfold read_sum. rewrite Hsum.
  destruct (snd (spec_exec sched k (ws (Z.of_nat q * 128)) as_ n [0]));
    reflexivity.
Qed.

Section Kernels.

Variable sched : nat -> list nat.
Hypothesis Hfair : fair_schedule sched.
Variable as_ : list Z.
Hypothesis Hrange : Forall in_range as_.
Variable q : nat.
Hypothesis Hcover : (length as_ <= q * 128)%nat.

Let n : Z := Z.of_nat (length as_).

Lemma to_nat_gws : Z.to_nat (Z.of_nat q * 128) = (q * 128)%nat.
Proof. lia. Qed.

Lemma to_nat_batch : Z.to_nat (UInt.div (Z.of_nat q * 128) 32) = (q * 4)%nat.
Proof.
  unfold UInt.div. replace (Z.of_nat q * 128) with (Z.of_nat q * 4 * 32) by lia.
  rewrite Z.div_mul by lia. lia.
Qed.

Lemma global_atomic_ok :
  snd (spec_exec sched globalAtomSum
         (mkWorkSize workGroupSize_main (Z.of_nat q * 128)) as_ n [0])
  = [seq_sum as_].
Proof.
  cbn [spec_exec snd on_accumulator workSize]. rewrite to_nat_gws. f_equal.
  rewrite atomic_dispatch_fair by assumption.
  rewrite seq_sum_wrap. f_equal.
  rewrite <- (sum_upto_load as_ n (q * 128) eq_refl Hcover).
  apply sum_upto_ext. intros gid _.
  unfold item_value, global_atomic_item, load. now destruct (Z.of_nat gid <? n).
Qed.

Lemma private_sum_wrap f k :
  private_sum (map f (seq 0 k)) = wrap (sum_upto f k).
Proof. unfold private_sum. fold (seq_sum (map f (seq 0 k))). apply seq_sum_wrap. Qed.

Lemma strided_ok :
  snd (spec_exec sched BatchSum
         (mkWorkSize workGroupSize_main (UInt.div (Z.of_nat q * 128) 32)) as_ n [0])
  = [seq_sum as_].
Proof.
  cbn [spec_exec snd on_accumulator workSize]. rewrite to_nat_batch. f_equal.
  rewrite atomic_dispatch_fair by assumption.
  rewrite seq_sum_wrap.
  rewrite <- (sum_upto_load as_ n (batch * (q * 4)) eq_refl)
    by (unfold batch; lia).
  rewrite <- (sum_upto_flatten (load as_ n) batch (q * 4)).
  rewrite (sum_upto_exchange (fun a b => load as_ n (a * (q * 4) + b)%nat)).
  apply wrap_sum_upto_congr. intros gid _.
  unfold item_value, strided_item. rewrite private_sum_wrap, wrap_wrap.
  f_equal. apply sum_upto_ext. intros k _. f_equal. lia.
Qed.

Lemma coalesced_ok :
  snd (spec_exec sched BatchSumCoalesed
         (mkWorkSize workGroupSize_main (UInt.div (Z.of_nat q * 128) 32)) as_ n [0])
  = [seq_sum as_].
Proof.
  cbn [spec_exec snd on_accumulator workSize]. rewrite to_nat_batch. f_equal.
  rewrite atomic_dispatch_fair by assumption.
  rewrite seq_sum_wrap.
  rewrite <- (sum_upto_load as_ n (q * 4 * batch) eq_refl)
    by (unfold batch; lia).
  rewrite <- (sum_upto_flatten (load as_ n) (q * 4) batch).
  apply wrap_sum_upto_congr. intros gid _.
  unfold item_value, coalesced_item. now rewrite private_sum_wrap, wrap_wrap.
Qed.

Lemma local_tree_ok :
  snd (spec_exec sched LocalMemSUm
         (mkWorkSize workGroupSize_main (Z.of_nat q * 128)) as_ n [0])
  = [seq_sum as_].
Proof.
  cbn [spec_exec snd on_accumulator workSize groupSize]. rewrite to_nat_gws.
  change (Z.to_nat workGroupSize_main) with (2 ^ 7)%nat.
  change 128%nat with (2 ^ 7)%nat.
  rewrite Nat.div_mul by (apply Nat.pow_nonzero; lia). f_equal.
  rewrite atomic_dispatch_fair by assumption.
  rewrite seq_sum_wrap.
  rewrite <- (sum_upto_load as_ n (q * 2 ^ 7) eq_refl Hcover).
  rewrite <- (sum_upto_flatten (load as_ n) q (2 ^ 7)).
  apply wrap_sum_upto_congr. intros g _.
  unfold item_value, local_tree_group.
  rewrite tree_loop_sum.
  - now rewrite wrap_wrap.
  - now rewrite length_map, length_seq.
  - apply Forall_forall. intros x Hx. apply in_map_iff in Hx as (lid & <- & _).
    now apply load_range.
Qed.

End Kernels.

(** ** Inputs beyond the reach of the counters *)

(** With UINT_MAX elements the global work size wraps around to 0: no
    work-item is launched and the accumulator stays 0. *)
Lemma global_atomic_wrapped omp uninitialised sched as_ :
  fair_schedule sched -> Z.of_nat (length as_) = 4294967295 ->
  strategy_output omp uninitialised sched GlobalAtomic as_ = Ok 0.
Proof.
  intros Hfair Hlen. unfold strategy_output.
  rewrite (gpu_readback_eval _ _ globalAtomSum _ _ O ltac:(discriminate))
    by (rewrite Hlen; reflexivity).
  cbn [spec_exec snd on_accumulator workSize].
  change (Z.to_nat (Z.of_nat 0 * 128)) with O.
  assert (Hnil : sched O = []) by (apply Permutation_nil, Permutation_sym, Hfair).
  now rewrite Hnil.
Qed.

Lemma fold_add_zeros k a :
  in_range a -> fold_left UInt.add (repeat 0 k) a = a.
Proof.
  intros Ha. induction k as [|k IH]; [reflexivity|].
  cbn [repeat fold_left]. unfold UInt.add at 2. rewrite Z.add_0_r.
  now rewrite wrap_small.
Qed.

Lemma true_sum_zeros k : true_sum (repeat 0 k) = 0.
Proof. induction k as [|k IH]; [reflexivity|]. cbn [repeat true_sum fold_right]. exact IH. Qed.

Section LongInput.

Variable k : nat.
Hypothesis Hk : Z.of_nat k = 4294967294.

Lemma one_then_zeros_length : Z.of_nat (length (one_then_zeros k)) = 4294967295.
Proof. unfold one_then_zeros. rewrite length_cons, repeat_length. lia. Qed.

Lemma one_then_zeros_breaks_strategies :
  Forall in_range (one_then_zeros k) /\
  true_sum (one_then_zeros k) = 1 /\ seq_sum (one_then_zeros k) = 1 /\
  fair_reduction (one_chunk (one_then_zeros k)) (length (one_then_zeros k)) /\
  strategy_output (one_chunk (one_then_zeros k)) example_garbage example_schedule
    SequentialCPU (one_then_zeros k) = Undefined SignedOverflow /\
  strategy_output (one_chunk (one_then_zeros k)) example_garbage example_schedule
    GlobalAtomic (one_then_zeros k) = Ok 0 /\
  ~ (forall s,
       strategy_output (one_chunk (one_then_zeros k)) example_garbage
         example_schedule s (one_then_zeros k)
       = Ok (seq_sum (one_then_zeros k))).
Proof.
  assert (H1 : in_range 1) by (unfold in_range; rewrite UINT_MAX_val; lia).
  assert (Hsum : seq_sum (one_then_zeros k) = 1).
  { unfold seq_sum, one_then_zeros. cbn [fold_left].
    change (UInt.add 0 1) with 1. now apply fold_add_zeros. }
  assert (Hgpu : strategy_output (one_chunk (one_then_zeros k)) example_garbage
                   example_schedule GlobalAtomic (one_then_zeros k) = Ok 0).
  { apply global_atomic_wrapped; [|apply one_then_zeros_length].
    intros W. unfold example_schedule. apply Permutation_sym, Permutation_rev. }
  split; [|split; [|split; [exact Hsum|split; [|split; [|split; [exact Hgpu|]]]]]].
  - unfold one_then_zeros. constructor; [exact H1|].
    apply Forall_forall. intros x Hx. apply repeat_spec in Hx. subst x.
    apply in_range_0.
  - unfold one_then_zeros. cbn [true_sum fold_right].
    fold (true_sum (repeat 0 k)). now rewrite true_sum_zeros.
  - apply Permutation_refl.
  - unfold strategy_output. rewrite cpu_sum_overflow; [reflexivity | reflexivity |].
    rewrite one_then_zeros_length, INT_MAX_val. lia.
  - intros H. specialize (H GlobalAtomic). rewrite Hgpu, Hsum in H. discriminate.
Qed.

End LongInput.

Lemma bind_undefined {A B} (m : M A) (f : A -> M B) st u st' :
  m st = (Undefined u, st') -> bind m f st = (Undefined u, st').
Proof. unfold bind. now intros ->. Qed.

Section ZerosInput.

Variable k : nat.
Hypothesis Hk : Z.of_nat k = 2147483648.

Lemma zeros_overflow_omp :
  Z.of_nat (length (repeat 0 k)) = 2147483648 /\
  fair_reduction (one_chunk (repeat 0 k)) (length (repeat 0 k)) /\
  omp_reduce (repeat 0 k) (one_chunk (repeat 0 k)) initial_state
  = (Ok (seq_sum (repeat 0 k)), initial_state) /\
  omp_sum (fun _ => one_chunk (repeat 0 k)) 2147483648 (repeat 0 k) initial_state
  = (Undefined SignedOverflow, initial_state) /\
  ~ (omp_sum (fun _ => one_chunk (repeat 0 k)) 2147483648 (repeat 0 k) initial_state
     = (Ok (seq_sum (repeat 0 k)), initial_state)).
Proof.
  assert (Hov : omp_sum (fun _ => one_chunk (repeat 0 k)) 2147483648 (repeat 0 k)
                  initial_state
                = (Undefined SignedOverflow, initial_state)).
  { unfold omp_sum. apply bind_undefined. apply omp_iterations_overflow.
    rewrite INT_MAX_val. lia. }
  split; [rewrite repeat_length; exact Hk|].
  split; [apply Permutation_refl|].
  split; [apply omp_reduce_partition, Permutation_refl|].
  split; [exact Hov|]. rewrite Hov. discriminate.
Qed.

End ZerosInput.

(** * The harness as a whole *)

(** ** The generated input *)

Lemma draws_length {Rng} (rng_next : Rng -> Z -> Z -> Z * Rng) lo hi k :
  forall r, length (draws rng_next r lo hi k) = k.
Proof.
  induction k as [|k IH]; intros r; cbn [draws length];
    [reflexivity | now rewrite IH].
Qed.

Lemma draws_snoc {Rng} (rng_next : Rng -> Z -> Z -> Z * Rng) lo hi k :
  forall r,
    draws rng_next r lo hi (S k)
    = draws rng_next r lo hi k
      ++ [fst (rng_next (rng_after rng_next r lo hi k) lo hi)].
Proof.
  induction k as [|k IH]; intros r; [reflexivity|].
  change (draws rng_next r lo hi (S (S k)))
    with (fst (rng_next r lo hi)
          :: draws rng_next (snd (rng_next r lo hi)) lo hi (S k)).
  rewrite IH. reflexivity.
Qed.

Lemma rng_after_S {Rng} (rng_next : Rng -> Z -> Z -> Z * Rng) lo hi k :
  forall r,
    rng_after rng_next r lo hi (S k)
    = snd (rng_next (rng_after rng_next r lo hi k) lo hi).
Proof.
  induction k as [|k IH]; intros r; [reflexivity|].
  change (rng_after rng_next r lo hi (S (S k)))
    with (rng_after rng_next (snd (rng_next r lo hi)) lo hi (S k)).
  now rewrite IH.
Qed.

Lemma list_set_app_at l y t x : list_set (l ++ y :: t) (length l) x = l ++ x :: t.
Proof. induction l as [|z l IH]; simpl; [reflexivity | now rewrite IH]. Qed.

(** One iteration of the loop of lines 28-31 on a vector of [n]
    elements. *)
Lemma generate_body_run Rng (rng_next : Rng -> Z -> Z -> Z * Rng) n st j l t r ref :
  n <> 0 -> length l = j ->
  generate_body Rng rng_next n (Z.of_nat j) (l ++ 0 :: t, r, ref) st
  = (Ok (l ++ wrap (fst (rng_next r 0 (UInt.div UINT_MAX n))) :: t,
         snd (rng_next r 0 (UInt.div UINT_MAX n)),
         UInt.add ref (wrap (fst (rng_next r 0 (UInt.div UINT_MAX n))))), st).
Proof.
  intros Hn Hl. unfold generate_body, udiv.
  destruct (Z.eqb_spec n 0) as [|_]; [contradiction|].
  change (bind (ret (UInt.div UINT_MAX n)) ?f st) with (f (UInt.div UINT_MAX n) st).
  cbv beta.
  destruct (rng_next r 0 (UInt.div UINT_MAX n)) as [x r']. cbn [fst snd].
  unfold vec_set. rewrite length_app. cbn [length].
  destruct (Z.leb_spec 0 (Z.of_nat j)); [|lia].
  destruct (Z.ltb_spec (Z.of_nat j) (Z.of_nat (length l + S (length t)))); [|lia].
  cbn [andb]. change (bind (ret ?a) ?f st) with (f a st). cbv beta.
  rewrite Nat2Z.id. subst j. rewrite list_set_app_at.
  rewrite (bind_ok _ _ _ _ _
             (vec_get_in_bounds (l ++ wrap x :: t) (Z.of_nat (length l)) st
                ltac:(unfold in_bounds; rewrite length_app; cbn [length]; lia))).
  unfold at_index. rewrite Nat2Z.id, nth_middle. reflexivity.
Qed.

(** The loop of lines 28-31, for every generator: it stores the values
    the generator returns, converted to [unsigned int], and sums them
    modulo 2^32. *)
Lemma generate_run Rng FastRandom (rng_next : Rng -> Z -> Z -> Z * Rng) n st :
  0 <= n <= INT_MAX ->
  generate Rng FastRandom rng_next n st
  = (Ok (generated_input FastRandom rng_next n,
         seq_sum (generated_input FastRandom rng_next n)), st).
Proof.
  intros Hn. unfold generate, generated_input.
  set (hi := UInt.div UINT_MAX n). set (r0 := FastRandom 42).
  set (N := Z.to_nat n).
  destruct (foldM_Zseq_invariant (generate_body Rng rng_next n)
     (fun k (s : list Z * Rng * Z) =>
        s = (map wrap (draws rng_next r0 0 hi k) ++ repeat 0 (N - k),
             rng_after rng_next r0 0 hi k,
             seq_sum (map wrap (draws rng_next r0 0 hi k))))
     N (repeat 0 N, r0, 0) st) as [s [Hrun Hs]].
  - cbn [draws map app rng_after]. now rewrite Nat.sub_0_r.
  - intros j s Hj ->.
    replace (N - j)%nat with (S (N - S j)) by lia. cbn [repeat].
    rewrite generate_body_run
      by (try (rewrite length_map; apply draws_length); subst N; lia).
    fold hi. eexists. split; [reflexivity|].
    rewrite draws_snoc, rng_after_S, map_app. cbn [map].
    rewrite seq_sum_snoc, <- app_assoc. reflexivity.
  - rewrite <- (for_int_lt_uint (generate_body Rng rng_next n) n) in Hrun by lia.
    fold N. rewrite (bind_ok _ _ _ _ _ Hrun). subst s.
    rewrite Nat.sub_diag. cbn [repeat]. rewrite app_nil_r. reflexivity.
Qed.

Lemma generated_input_length Rng FastRandom (rng_next : Rng -> Z -> Z -> Z * Rng) n :
  0 <= n -> Z.of_nat (length (generated_input FastRandom rng_next n)) = n.
Proof.
  intros Hn. unfold generated_input. rewrite length_map, draws_length. lia.
Qed.

(** ** Counters that cannot reach the bound *)

Lemma for_loop_overflow_inv {St} (Inv : St -> Prop) (cond : Z -> bool)
    (body : Z -> St -> M St) st k :
  forall fuel i s,
    (k < fuel)%nat -> Inv s ->
    (forall j, i <= j <= INT_MAX -> cond j = true) ->
    (forall j s, i <= j <= INT_MAX -> Inv s ->
       exists s', body j s st = (Ok s', st) /\ Inv s') ->
    i + Z.of_nat k = INT_MAX ->
    for_loop fuel cond body i s st = (Undefined SignedOverflow, st).
Proof.
  induction k as [|k IH]; intros fuel i s Hfuel Hinv Htrue Hbody Hmax.
  - destruct fuel as [|fuel]; [lia|]. simpl.
    rewrite Htrue by lia.
    destruct (Hbody i s ltac:(lia) Hinv) as [s' [Hs' _]].
    rewrite (bind_ok _ _ _ _ _ Hs').
    unfold int_incr. destruct (Z.ltb_spec i INT_MAX); [lia|]. reflexivity.
  - destruct fuel as [|fuel]; [lia|]. cbn [for_loop].
    rewrite Htrue by lia.
    destruct (Hbody i s ltac:(lia) Hinv) as [s' [Hs' Hinv']].
    rewrite (bind_ok _ _ _ _ _ Hs').
    unfold int_incr. destruct (Z.ltb_spec i INT_MAX); [|lia].
    change (bind (ret (i + 1)) (fun i' => for_loop fuel cond body i' s') st)
      with (for_loop fuel cond body (i + 1) s' st).
    apply IH; try lia; try assumption.
    + intros j Hj. apply Htrue. lia.
    + intros j s0 Hj. apply Hbody. lia.
Qed.

Lemma generate_overflow Rng FastRandom (rng_next : Rng -> Z -> Z -> Z * Rng) n st :
  INT_MAX < n ->
  generate Rng FastRandom rng_next n st = (Undefined SignedOverflow, st).
Proof.
  intros Hn. pose proof INT_MAX_val as HM. unfold generate.
  unfold bind at 1.
  rewrite (for_loop_overflow_inv
             (fun s : list Z * Rng * Z => Z.of_nat (length (fst (fst s))) = n)
             _ _ st (Z.to_nat INT_MAX)).
  - reflexivity.
  - unfold loop_fuel. lia.
  - cbn [fst]. rewrite repeat_length. lia.
  - intros j Hj. unfold int_lt_uint. rewrite wrap_small.
    + apply Z.ltb_lt. lia.
    + unfold in_range. rewrite UINT_MAX_val. lia.
  - intros j [[v r] ref] Hj Hv. cbn [fst] in Hv.
    unfold generate_body, udiv.
    destruct (Z.eqb_spec n 0) as [->|Hn0]; [lia|].
    change (bind (ret (UInt.div UINT_MAX n)) ?f st) with (f (UInt.div UINT_MAX n) st).
    cbv beta.
    destruct (rng_next r 0 (UInt.div UINT_MAX n)) as [x r'].
    unfold vec_set.
    destruct (Z.leb_spec 0 j); [|lia].
    destruct (Z.ltb_spec j (Z.of_nat (length v))); [|lia].
    cbn [andb]. change (bind (ret ?a) ?f st) with (f a st). cbv beta.
    rewrite (bind_ok _ _ _ _ _
               (vec_get_in_bounds (list_set v (Z.to_nat j) (wrap x)) j st
                  ltac:(unfold in_bounds; rewrite list_set_length; lia))).
    eexists. split; [reflexivity|]. cbn [fst]. now rewrite list_set_length.
  - lia.
Qed.

(** ** Runs of the GPU part *)

Lemma bind_ret_tt (m : M unit) st : bind m (fun _ => ret tt) st = m st.
Proof. unfold bind, ret. destruct (m st) as [[[]| | |] st']; reflexivity. Qed.

(** The GPU part of [main] is the set-up, the work partition and the
    five blocks in the order of the source. *)
Lemma gpu_part_blocks uninitialised kernel_exec benchmarkingIters n G as_ ref st :
  gpu_part uninitialised kernel_exec benchmarkingIters n G as_ ref st
  = (gpu_setup uninitialised n as_ ;;
     '(gws, _) <- work_partition n G ;;
     run_blocks kernel_exec benchmarkingIters n ref (gpu_blocks G gws)) st.
Proof.
  unfold gpu_part. apply bind_ext. intros _ st1.
  apply bind_ext. intros [gws groups] st2.
  cbn [run_blocks gpu_blocks].
  do 4 (apply bind_ext; intros _ ?). now rewrite bind_ret_tt.
Qed.

Lemma writeN_one v buf : writeN [v] 1 buf = v :: skipn 1 buf.
Proof. reflexivity. Qed.

Lemma writeN_all as_ n buf :
  Z.of_nat (length as_) = n -> Z.of_nat (length buf) = n -> writeN as_ n buf = as_.
Proof.
  intros Ha Hb. unfold writeN.
  rewrite firstn_all2, skipn_all2 by lia. apply app_nil_r.
Qed.

Lemma resizeN_length uninitialised k :
  length (resizeN uninitialised k) = Z.to_nat k.
Proof. unfold resizeN. now rewrite length_map, length_seq. Qed.

(** Lines 71-77: after the set-up the input buffer holds the input and
    the accumulator buffer has one cell, which has not been written. *)
Lemma gpu_setup_run uninitialised n as_ st :
  Z.of_nat (length as_) = n ->
  gpu_setup uninitialised n as_ st
  = (Ok tt, mkState (trace st) as_ [uninitialised 0%nat]).
Proof.
  intros Hlen. unfold gpu_setup. cbv zeta.
  rewrite writeN_all; [reflexivity | assumption |].
  rewrite resizeN_length. lia.
Qed.

Lemma work_partition_run n G st :
  G <> 0 ->
  exists gws,
    global_work_size n G = Some gws /\
    work_partition n G st = (Ok (gws, UInt.div gws G), st).
Proof.
  intros HG. unfold work_partition, global_work_size, n_work_groups.
  destruct (Z.eqb_spec G 0) as [|_]; [contradiction|].
  eexists. split; reflexivity.
Qed.

Lemma concat_repeat_S {A} (l : list A) j :
  concat (repeat l (S j)) = l ++ concat (repeat l j).
Proof. reflexivity. Qed.

Lemma add_trace_nil st : add_trace st [] = st.
Proof. destruct st. unfold add_trace. cbn. now rewrite app_nil_r. Qed.

(** The iterations of a CPU block whose checks pass. *)
Lemma cpu_pass_iter message line ref j :
  forall st,
    Nat.iter j (cpu_pass_state message line ref) st
    = add_trace st (concat (repeat [EvCompare message ref ref line; EvNextLap] j)).
Proof.
  induction j as [|j IH]; intros st.
  - cbn [repeat concat]. now rewrite add_trace_nil.
  - rewrite Nat.iter_succ_r, IH. unfold cpu_pass_state.
    now rewrite add_trace_app.
Qed.

(** A trial of a kernel that leaves [ref] in a zeroed accumulator of one
    cell and leaves the input alone. *)
Lemma gpu_trial_pass kernel_exec n k ws a ref st :
  kernel_exec k ws a n [0] = (a, [ref]) ->
  as_buffer st = a -> length (sum_buffer st) = 1%nat ->
  gpu_trial_state kernel_exec n k ws st
  = mkState (trace st ++ [EvWriteSum 0; EvExec k ws n [0]; EvNextLap]) a [ref].
Proof.
  intros Hk Ha Hs. unfold gpu_trial_state.
  destruct (sum_buffer st) as [|x [|y rest]]; try discriminate.
  rewrite writeN_one. cbn [skipn]. rewrite Ha, Hk. reflexivity.
Qed.

Lemma gpu_trials_pass kernel_exec n k ws a ref j :
  kernel_exec k ws a n [0] = (a, [ref]) ->
  forall st,
    as_buffer st = a -> length (sum_buffer st) = 1%nat ->
    Nat.iter (S j) (gpu_trial_state kernel_exec n k ws) st
    = mkState
        (trace st
         ++ concat (repeat [EvWriteSum 0; EvExec k ws n [0]; EvNextLap] (S j)))
        a [ref].
Proof.
  intros Hk. induction j as [|j IH]; intros st Ha Hs.
  - cbn [Nat.iter nat_rect repeat concat]. rewrite app_nil_r.
    now apply gpu_trial_pass.
  - rewrite Nat.iter_succ_r, (gpu_trial_pass _ _ _ _ a ref st Hk Ha Hs).
    rewrite IH by reflexivity. cbn [trace].
    rewrite (concat_repeat_S _ (S j)), <- app_assoc. reflexivity.
Qed.

(** A GPU block whose kernel is right passes, and its trace is that of
    [gpu_pass_trace]. *)
Lemma gpu_block_pass kernel_exec benchmarkingIters n k ws label line a ref st :
  1 <= benchmarkingIters <= INT_MAX ->
  kernel_exec k ws a n [0] = (a, [ref]) ->
  as_buffer st = a -> length (sum_buffer st) = 1%nat ->
  gpu_block kernel_exec benchmarkingIters n k ws label line ref st
  = (Ok tt,
     mkState
       (trace st
        ++ gpu_pass_trace n ref (Z.to_nat benchmarkingIters) (k, ws, label, line))
       a [ref]).
Proof.
  intros Hm Hk Ha Hs. rewrite gpu_block_run by lia.
  destruct (Z.to_nat benchmarkingIters) as [|j] eqn:Hj; [lia|].
  rewrite (gpu_trials_pass _ _ _ _ a ref j Hk st Ha Hs).
  unfold gpu_outcome, gpu_pass_trace, add_trace. cbn [sum_buffer trace as_buffer].
  rewrite Z.eqb_refl, <- app_assoc. reflexivity.
Qed.

Lemma run_blocks_pass kernel_exec benchmarkingIters n a ref bs :
  1 <= benchmarkingIters <= INT_MAX ->
  (forall k ws label line,
     In (k, ws, label, line) bs -> kernel_exec k ws a n [0] = (a, [ref])) ->
  forall st,
    as_buffer st = a -> length (sum_buffer st) = 1%nat ->
    exists buf,
      run_blocks kernel_exec benchmarkingIters n ref bs st
      = (Ok tt,
         mkState
           (trace st
            ++ flat_map (gpu_pass_trace n ref (Z.to_nat benchmarkingIters)) bs)
           a buf) /\
      length buf = 1%nat /\ (bs <> [] -> buf = [ref]).
Proof.
  intros Hm. induction bs as [|[[[k ws] label] line] bs IH]; intros Hk st Ha Hs.
  - exists (sum_buffer st). cbn [run_blocks flat_map]. rewrite app_nil_r.
    destruct st as [tr a' s]. cbn [as_buffer sum_buffer trace] in *. subst a'.
    unfold ret. split; [reflexivity | split; [assumption|]].
    intros H. now contradiction H.
  - cbn [run_blocks flat_map].
    rewrite (bind_ok _ _ _ _ _
               (gpu_block_pass kernel_exec benchmarkingIters n k ws label line a ref
                  st Hm (Hk k ws label line (or_introl eq_refl)) Ha Hs)).
    destruct (IH (fun k' ws' label' line' Hin =>
                    Hk k' ws' label' line' (or_intror Hin))
                 (mkState
                    (trace st
                     ++ gpu_pass_trace n ref (Z.to_nat benchmarkingIters)
                          (k, ws, label, line)) a [ref])
                 eq_refl eq_refl) as (buf & Hrun & Hlen & Hbuf).
    destruct bs as [|b bs'].
    + exists [ref]. cbn [run_blocks flat_map trace] in *. unfold ret.
      rewrite app_nil_r. auto.
    + exists buf. rewrite Hrun. cbn [trace]. rewrite <- app_assoc.
      split; [reflexivity|]. split; [assumption|]. intros _.
      apply Hbuf. discriminate.
Qed.

(** A run of [main_with] in which the kernels are right for the
    generated input. *)
Lemma main_with_pass Rng FastRandom (rng_next : Rng -> Z -> Z -> Z * Rng)
    omp_schedule uninitialised kernel_exec benchmarkingIters n G gws st :
  0 <= n <= INT_MAX -> 1 <= benchmarkingIters <= INT_MAX ->
  global_work_size n G = Some gws ->
  fair_reduction (omp_schedule n) (Z.to_nat n) ->
  (forall k ws label line,
     In (k, ws, label, line) (gpu_blocks G gws) ->
     kernel_exec k ws (generated_input FastRandom rng_next n) n [0]
     = (generated_input FastRandom rng_next n,
        [seq_sum (generated_input FastRandom rng_next n)])) ->
  main_with Rng FastRandom rng_next omp_schedule uninitialised kernel_exec
    benchmarkingIters n G st
  = (Ok 0,
     mkState
       (trace st
        ++ passing_trace n G gws (seq_sum (generated_input FastRandom rng_next n))
             (Z.to_nat benchmarkingIters))
       (generated_input FastRandom rng_next n)
       [seq_sum (generated_input FastRandom rng_next n)]).
Proof.
  intros Hn Hm Hgws Hfair Hk.
  set (as_ := generated_input FastRandom rng_next n) in *.
  assert (Hlen : Z.of_nat (length as_) = n)
    by (apply generated_input_length; lia).
  assert (HG : G <> 0).
  { intros ->. unfold global_work_size in Hgws. discriminate. }
  unfold main_with.
  rewrite (bind_ok _ _ _ _ _ (generate_run Rng FastRandom rng_next n st Hn)).
  fold as_.
  rewrite (bind_ok _ _ _ _ _
             (cpu_block_pass benchmarkingIters n as_ st Hlen (proj2 Hn) (proj2 Hm))).
  rewrite (bind_ok _ _ _ _ _
             (omp_block_pass omp_schedule benchmarkingIters n as_ _
                ltac:(replace (length as_) with (Z.to_nat n) by lia; exact Hfair)
                Hlen (proj2 Hn) (proj2 Hm))).
  rewrite !cpu_pass_iter, !add_trace_app.
  set (st2 := add_trace st _).
  unfold bind at 1. rewrite gpu_part_blocks.
  rewrite (bind_ok _ _ _ _ _ (gpu_setup_run uninitialised n as_ st2 Hlen)).
  destruct (work_partition_run n G (mkState (trace st2) as_ [uninitialised 0%nat]) HG)
    as (gws' & Hgws' & Hwp).
  rewrite Hgws in Hgws'. injection Hgws' as <-.
  rewrite (bind_ok _ _ _ _ _ Hwp).
  destruct (run_blocks_pass kernel_exec benchmarkingIters n as_ (seq_sum as_)
              (gpu_blocks G gws) Hm Hk
              (mkState (trace st2) as_ [uninitialised 0%nat]) eq_refl eq_refl)
    as (buf & Hrun & _ & Hbuf).
  rewrite Hrun, (Hbuf ltac:(discriminate)). unfold ret. f_equal.
  subst st2. unfold passing_trace, cpu_pass_trace, add_trace. cbn [trace].
  rewrite <- !app_assoc. reflexivity.
Qed.

(** *** Counting in a passing run *)

Lemma filter_concat_repeat {A} (p : A -> bool) l j :
  length (filter p (concat (repeat l j))) = (j * length (filter p l))%nat.
Proof.
  induction j as [|j IH]; [reflexivity|].
  rewrite concat_repeat_S, filter_app, length_app, IH. lia.
Qed.

Lemma compares_cpu_pass message line label ref j :
  compares (cpu_pass_trace message line label ref j) = j.
Proof.
  unfold cpu_pass_trace, compares.
  rewrite filter_app, length_app, filter_concat_repeat. cbn. lia.
Qed.

Lemma passing_trace_counts n G gws ref j :
  compares (passing_trace n G gws ref j) = (2 * j + 5)%nat /\
  laps (passing_trace n G gws ref j) = (7 * j)%nat /\
  couts (passing_trace n G gws ref j) = 14%nat /\
  resets (passing_trace n G gws ref j) = (5 * j)%nat /\
  forall k, dispatches k (passing_trace n G gws ref j) = j.
Proof.
  unfold passing_trace, cpu_pass_trace, gpu_blocks.
  cbn [flat_map gpu_pass_trace]. rewrite app_nil_r.
  unfold compares, laps, couts, resets, dispatches.
  repeat split; try intros k;
    rewrite !filter_app, !length_app, !filter_concat_repeat;
    try destruct k; cbn; lia.
Qed.

(** *** Runs with whatever the kernels do *)

Lemma dispatched_kernels_app tr1 tr2 :
  dispatched_kernels (tr1 ++ tr2) = dispatched_kernels tr1 ++ dispatched_kernels tr2.
Proof. unfold dispatched_kernels. apply flat_map_app. Qed.

Lemma gpu_outcome_buffers label line ref st :
  as_buffer (snd (gpu_outcome label line ref st)) = as_buffer st /\
  sum_buffer (snd (gpu_outcome label line ref st)) = sum_buffer st.
Proof.
  unfold gpu_outcome. destruct (sum_buffer st) as [|v rest] eqn:Hs.
  - cbn [snd]. now rewrite Hs.
  - destruct (ref =? v); cbn [snd add_trace as_buffer sum_buffer]; now rewrite Hs.
Qed.

Lemma gpu_trials_nonempty kernel_exec n k ws j st :
  keeps_accumulator_size kernel_exec -> sum_buffer st <> [] ->
  sum_buffer (Nat.iter j (gpu_trial_state kernel_exec n k ws) st) <> [].
Proof.
  intros Hkeep Hs. destruct j as [|j]; [exact Hs|].
  rewrite Nat.iter_succ. unfold gpu_trial_state at 1. cbn [sum_buffer].
  intros Hnil. apply (f_equal (@length Z)) in Hnil.
  rewrite Hkeep, writeN_one in Hnil. discriminate.
Qed.

Lemma gpu_trials_extend kernel_exec n k ws j st :
  exists tl,
    trace (Nat.iter j (gpu_trial_state kernel_exec n k ws) st) = trace st ++ tl.
Proof.
  induction j as [|j [tl IH]].
  - exists []. cbn [Nat.iter nat_rect]. now rewrite app_nil_r.
  - rewrite Nat.iter_succ. unfold gpu_trial_state at 1. cbn [trace].
    rewrite IH, <- app_assoc. eexists. reflexivity.
Qed.

Lemma gpu_outcome_extend label line ref st :
  exists tl, trace (snd (gpu_outcome label line ref st)) = trace st ++ tl.
Proof.
  unfold gpu_outcome. destruct (sum_buffer st) as [|v rest].
  - exists []. cbn [snd]. now rewrite app_nil_r.
  - destruct (ref =? v); cbn [snd add_trace trace]; eexists; reflexivity.
Qed.

(** Whatever the kernels compute, the blocks end normally or by the
    exception of a GPU check. *)
Lemma run_blocks_outcome kernel_exec benchmarkingIters n ref :
  benchmarkingIters <= INT_MAX -> keeps_accumulator_size kernel_exec ->
  forall bs st,
    sum_buffer st <> [] ->
    (fst (run_blocks kernel_exec benchmarkingIters n ref bs st) = Ok tt \/
     fst (run_blocks kernel_exec benchmarkingIters n ref bs st) = Throw gpu_message) /\
    exists tl,
      trace (snd (run_blocks kernel_exec benchmarkingIters n ref bs st))
      = trace st ++ tl.
Proof.
  intros Hm Hkeep. induction bs as [|[[[k ws] label] line] bs IH]; intros st Hs.
  - cbn. split; [now left|]. exists []. now rewrite app_nil_r.
  - cbn [run_blocks]. unfold bind. rewrite gpu_block_run by assumption.
    pose proof (gpu_trials_nonempty kernel_exec n k ws
                  (Z.to_nat benchmarkingIters) st Hkeep Hs) as Hne.
    destruct (gpu_trials_extend kernel_exec n k ws (Z.to_nat benchmarkingIters) st)
      as [tl1 Htl1].
    set (st1 := Nat.iter _ _ st) in *.
    destruct (gpu_outcome_extend label line ref st1) as [tl2 Htl2].
    pose proof (proj2 (gpu_outcome_buffers label line ref st1)) as Hbuf.
    assert (Hres : fst (gpu_outcome label line ref st1) = Ok tt \/
                   fst (gpu_outcome label line ref st1) = Throw gpu_message).
    { unfold gpu_outcome. destruct (sum_buffer st1) as [|v rest]; [contradiction|].
      destruct (ref =? v); [now left | now right]. }
    destruct (gpu_outcome label line ref st1) as [[[]|w|u|] st2];
      cbn [fst snd] in *.
    + destruct (IH st2 ltac:(now rewrite Hbuf)) as [Hr [tl3 Htl3]].
      split; [exact Hr|]. exists (tl1 ++ tl2 ++ tl3).
      now rewrite Htl3, Htl2, Htl1, <- !app_assoc.
    + split; [exact Hres|]. exists (tl1 ++ tl2).
      now rewrite Htl2, Htl1, <- !app_assoc.
    + destruct Hres; discriminate.
    + destruct Hres; discriminate.
Qed.

(** ** The input and the counters *)

(** X1: for every generator, also one that does not keep to the bounds
    it is called with, and every [n] up to INT_MAX, the loop of lines 28-31
    returns; the vector it leaves holds, in order, the values of [n]
    successive calls [r.next(0, UINT_MAX / n)] on the generator seeded with
    42, each converted to [unsigned int]; the reference sum is the sum of
    the stored elements modulo 2^32, and it is what the sequential loop of
    lines 36-39 computes on that vector. *)
Theorem generate_stores_generator_values
    (Rng : Type) (FastRandom : Z -> Rng) (rng_next : Rng -> Z -> Z -> Z * Rng)
    (n : Z) (st : State) :
  0 <= n <= INT_MAX ->
  let as_ := map wrap (draws rng_next (FastRandom 42) 0 (UINT_MAX / n) (Z.to_nat n)) in
  generate Rng FastRandom rng_next n st = (Ok (as_, seq_sum as_), st) /\
  Z.of_nat (length as_) = n /\
  Forall in_range as_ /\
  seq_sum as_ = wrap (true_sum as_) /\
  cpu_sum n as_ st = (Ok (seq_sum as_), st).
Proof.
  intros Hn. cbv zeta.
  change (map wrap (draws rng_next (FastRandom 42) 0 (UINT_MAX / n) (Z.to_nat n)))
    with (generated_input FastRandom rng_next n).
  pose proof (generated_input_length Rng FastRandom rng_next n (proj1 Hn)) as Hlen.
  split; [now apply generate_run|]. split; [exact Hlen|]. split; [|split].
  - unfold generated_input. apply Forall_forall. intros x Hx.
    apply in_map_iff in Hx as (y & <- & _). apply wrap_range.
  - apply seq_sum_wrap.
  - apply cpu_sum_ok; [exact Hlen | lia].
Qed.

Lemma generate_stores_generator_values_witness :
  generate Z (fun seed => seed) example_next 3 initial_state
  = (Ok ([42; 1250496027; 1116302264], 2366798333), initial_state).
Proof.
  exact (proj1 (generate_stores_generator_values Z (fun seed => seed) example_next 3
                  initial_state ltac:(vm_compute; split; discriminate))).
Defined.

(** X2: when [n] exceeds INT_MAX, the counter [int i] of the loop of
    lines 28-31 is incremented at INT_MAX before [i < n] can fail: the
    generation loop, and with it every run of [main_with], ends in signed
    overflow before anything is compared, printed or dispatched; the
    summation loop of lines 36-39 overflows in the same way. *)
Theorem oversized_input_overflows_counter
    (Rng : Type) (FastRandom : Z -> Rng) (rng_next : Rng -> Z -> Z -> Z * Rng)
    (omp_schedule : Z -> Reduction) (uninitialised : nat -> Z)
    (kernel_exec : Kernel -> WorkSize -> list Z -> Z -> list Z -> list Z * list Z)
    (benchmarkingIters n workGroupSize : Z) (st : State) :
  INT_MAX < n ->
  generate Rng FastRandom rng_next n st = (Undefined SignedOverflow, st) /\
  main_with Rng FastRandom rng_next omp_schedule uninitialised kernel_exec
    benchmarkingIters n workGroupSize st
  = (Undefined SignedOverflow, st) /\
  forall as_, Z.of_nat (length as_) = n ->
    cpu_sum n as_ st = (Undefined SignedOverflow, st).
Proof.
  intros Hn.
  pose proof (generate_overflow Rng FastRandom rng_next n st Hn) as Hg.
  split; [exact Hg|]. split.
  - unfold main_with, bind at 1. now rewrite Hg.
  - intros as_ Hlen. now apply cpu_sum_overflow.
Qed.

Lemma oversized_input_overflows_counter_witness :
  main_with Z (fun seed => seed) example_next (fun _ => example_reduction)
    example_garbage ideal_exec 10 2147483648 128 initial_state
  = (Undefined SignedOverflow, initial_state).
Proof.
  exact (proj1 (proj2 (oversized_input_overflows_counter Z (fun seed => seed)
                         example_next (fun _ => example_reduction) example_garbage
                         ideal_exec 10 2147483648 128 initial_state
                         ltac:(rewrite INT_MAX_val; lia)))).
Defined.

(** ** Whole runs *)

Lemma ideal_exec_keeps_size : keeps_accumulator_size ideal_exec.
Proof. intros k ws a m [|x acc]; reflexivity. Qed.

Lemma ideal_exec_sums n G gws : 0 <= n -> kernels_sum ideal_exec n G gws.
Proof.
  intros Hn k ws label line a _ Hlen. unfold ideal_exec, on_accumulator.
  rewrite firstn_all2 by lia. rewrite add_0_l, wrap_small by apply seq_sum_range.
  reflexivity.
Qed.

Lemma example_reduction_fair : fair_reduction example_reduction 8.
Proof.
  unfold fair_reduction. cbn.
  change [6; 7; 0; 1; 2; 3; 4; 5] with ([6; 7] ++ [0; 1; 2; 3; 4; 5]).
  change [0; 1; 2; 3; 4; 5; 6; 7] with ([0; 1; 2; 3; 4; 5] ++ [6; 7]).
  apply Permutation_app_comm.
Qed.

(** The run of [main_with] up to the first GPU block: the two CPU
    blocks pass. *)
Lemma main_with_reaches_gpu Rng FastRandom (rng_next : Rng -> Z -> Z -> Z * Rng)
    omp_schedule uninitialised kernel_exec benchmarkingIters n G st :
  0 <= n <= INT_MAX -> benchmarkingIters <= INT_MAX -> G <> 0 ->
  fair_reduction (omp_schedule n) (Z.to_nat n) ->
  exists gws,
    global_work_size n G = Some gws /\
    main_with Rng FastRandom rng_next omp_schedule uninitialised kernel_exec
      benchmarkingIters n G st
    = (run_blocks kernel_exec benchmarkingIters n
         (seq_sum (generated_input FastRandom rng_next n)) (gpu_blocks G gws) ;;
       ret 0)
        (mkState
           (trace st
            ++ cpu_pass_trace cpu_message line_CPU "CPU:     "
                 (seq_sum (generated_input FastRandom rng_next n))
                 (Z.to_nat benchmarkingIters)
            ++ cpu_pass_trace omp_message line_OMP "CPU OMP: "
                 (seq_sum (generated_input FastRandom rng_next n))
                 (Z.to_nat benchmarkingIters))
           (generated_input FastRandom rng_next n) [uninitialised 0%nat]).
Proof.
  intros Hn Hm HG Hfair.
  set (as_ := generated_input FastRandom rng_next n) in *.
  assert (Hlen : Z.of_nat (length as_) = n)
    by (apply generated_input_length; lia).
  destruct (work_partition_run n G
              (mkState
                 (trace st
                  ++ cpu_pass_trace cpu_message line_CPU "CPU:     " (seq_sum as_)
                       (Z.to_nat benchmarkingIters)
                  ++ cpu_pass_trace omp_message line_OMP "CPU OMP: " (seq_sum as_)
                       (Z.to_nat benchmarkingIters))
                 as_ [uninitialised 0%nat]) HG)
    as (gws & Hgws & Hwp).
  exists gws. split; [exact Hgws|].
  unfold main_with.
  rewrite (bind_ok _ _ _ _ _ (generate_run Rng FastRandom rng_next n st Hn)).
  fold as_.
  rewrite (bind_ok _ _ _ _ _
             (cpu_block_pass benchmarkingIters n as_ st Hlen (proj2 Hn) Hm)).
  rewrite (bind_ok _ _ _ _ _
             (omp_block_pass omp_schedule benchmarkingIters n as_ _
                ltac:(replace (length as_) with (Z.to_nat n) by lia; exact Hfair)
                Hlen (proj2 Hn) Hm)).
  rewrite !cpu_pass_iter, !add_trace_app.
  unfold bind at 1. rewrite gpu_part_blocks.
  rewrite (bind_ok _ _ _ _ _ (gpu_setup_run uninitialised n as_ _ Hlen)).
  unfold add_trace at 1. cbn [trace]. unfold cpu_pass_trace in *.
  rewrite <- !app_assoc in *. rewrite (bind_ok _ _ _ _ _ Hwp).
  reflexivity.
Qed.

(** X3: whatever the generator returns and whatever the kernels
    compute, a run of [main_with] on [n <= INT_MAX] elements ends in one of
    two ways: [main] returns 0, or a GPU check throws its message.  The
    two CPU checks cannot fail: the reference sum and the sums of the
    sequential and the OpenMP loop are the same sum modulo 2^32 of the same
    vector, so every run starts with the [benchmarkingIters] passed
    comparisons and the report of the sequential block followed by those
    of the OpenMP block.  No counter overflows and no index is out of
    range. *)
Theorem main_returns_zero_or_gpu_failure
    (Rng : Type) (FastRandom : Z -> Rng) (rng_next : Rng -> Z -> Z -> Z * Rng)
    (omp_schedule : Z -> Reduction) (uninitialised : nat -> Z)
    (kernel_exec : Kernel -> WorkSize -> list Z -> Z -> list Z -> list Z * list Z)
    (benchmarkingIters n workGroupSize : Z) :
  0 <= n <= INT_MAX -> benchmarkingIters <= INT_MAX -> workGroupSize <> 0 ->
  fair_reduction (omp_schedule n) (Z.to_nat n) ->
  keeps_accumulator_size kernel_exec ->
  let r := main_with Rng FastRandom rng_next omp_schedule uninitialised kernel_exec
             benchmarkingIters n workGroupSize initial_state in
  let ref := seq_sum (generated_input FastRandom rng_next n) in
  (fst r = Ok 0 \/ fst r = Throw gpu_message) /\
  exists rest,
    trace (snd r)
    = cpu_pass_trace cpu_message line_CPU "CPU:     " ref (Z.to_nat benchmarkingIters)
      ++ cpu_pass_trace omp_message line_OMP "CPU OMP: " ref
           (Z.to_nat benchmarkingIters)
      ++ rest.
Proof.
  intros Hn Hm HG Hfair Hkeep. cbv zeta.
  destruct (main_with_reaches_gpu Rng FastRandom rng_next omp_schedule uninitialised
              kernel_exec benchmarkingIters n workGroupSize initial_state
              Hn Hm HG Hfair) as (gws & _ & ->).
  set (ref := seq_sum (generated_input FastRandom rng_next n)).
  cbn [initial_state trace app].
  set (st2 := mkState _ _ _).
  destruct (run_blocks_outcome kernel_exec benchmarkingIters n ref
              Hm Hkeep (gpu_blocks workGroupSize gws) st2
              ltac:(discriminate)) as [Hres [tl Htl]].
  unfold bind.
  destruct (run_blocks kernel_exec benchmarkingIters n ref _ st2)
    as [[[]|w|u|] st3]; cbn [fst snd trace ret] in *.
  - split; [now left|]. exists tl. rewrite Htl. subst st2. cbn [trace].
    now rewrite <- app_assoc.
  - split.
    + destruct Hres as [H|H]; [discriminate|]. injection H as ->. now right.
    + exists tl. rewrite Htl. subst st2. cbn [trace]. now rewrite <- app_assoc.
  - destruct Hres; discriminate.
  - destruct Hres; discriminate.
Qed.

Lemma main_returns_zero_or_gpu_failure_witness :
  fst (example_run (faulty_exec LocalMemSUm)) = Ok 0 \/
  fst (example_run (faulty_exec LocalMemSUm)) = Throw gpu_message.
Proof.
  refine (proj1 (main_returns_zero_or_gpu_failure Z (fun seed => seed) example_next
                   (fun _ => example_reduction) example_garbage
                   (faulty_exec LocalMemSUm) benchmarkingIters_main 8
                   workGroupSize_main _ _ _ _ _)).
  - vm_compute. split; discriminate.
  - vm_compute. discriminate.
  - discriminate.
  - exact example_reduction_fair.
  - intros k ws a m acc. unfold faulty_exec.
    destruct (kernel_eqb LocalMemSUm k); destruct acc; reflexivity.
Defined.

(** X4: when the kernels are right (each, launched as [main] launches
    it on a zeroed accumulator, leaves the input alone and its sum modulo
    2^32 in the accumulator), a run with at least one trial returns 0 and
    does exactly this, in this order: [benchmarkingIters] comparisons of
    the sequential loop and the report, the same for the OpenMP loop, and
    for each of the five kernels in the order of the source
    [benchmarkingIters] trials (reset, dispatch, lap), one read-back, one
    comparison and the report; [2 benchmarkingIters + 5] comparisons,
    [7 benchmarkingIters] laps and 14 lines on [std::cout] in all.  The
    input buffer is the generated input and the accumulator holds the
    reference sum at the end. *)
Theorem passing_run_trace
    (Rng : Type) (FastRandom : Z -> Rng) (rng_next : Rng -> Z -> Z -> Z * Rng)
    (omp_schedule : Z -> Reduction) (uninitialised : nat -> Z)
    (kernel_exec : Kernel -> WorkSize -> list Z -> Z -> list Z -> list Z * list Z)
    (benchmarkingIters n workGroupSize gws : Z) :
  0 <= n <= INT_MAX -> 1 <= benchmarkingIters <= INT_MAX ->
  global_work_size n workGroupSize = Some gws ->
  fair_reduction (omp_schedule n) (Z.to_nat n) ->
  kernels_sum kernel_exec n workGroupSize gws ->
  let as_ := generated_input FastRandom rng_next n in
  let tr := passing_trace n workGroupSize gws (seq_sum as_)
              (Z.to_nat benchmarkingIters) in
  main_with Rng FastRandom rng_next omp_schedule uninitialised kernel_exec
    benchmarkingIters n workGroupSize initial_state
  = (Ok 0, mkState tr as_ [seq_sum as_]) /\
  compares tr = (2 * Z.to_nat benchmarkingIters + 5)%nat /\
  laps tr = (7 * Z.to_nat benchmarkingIters)%nat /\
  couts tr = 14%nat /\
  resets tr = (5 * Z.to_nat benchmarkingIters)%nat /\
  forall k, dispatches k tr = Z.to_nat benchmarkingIters.
Proof.
  intros Hn Hm Hgws Hfair Hk. cbv zeta. split.
  - rewrite (main_with_pass Rng FastRandom rng_next omp_schedule uninitialised
               kernel_exec benchmarkingIters n workGroupSize gws initial_state
               Hn Hm Hgws Hfair).
    + reflexivity.
    + intros k ws label line Hin. apply (Hk k ws label line); [exact Hin|].
      apply generated_input_length; lia.
  - apply passing_trace_counts.
Qed.

Lemma passing_run_trace_witness :
  fst (example_run ideal_exec) = Ok 0 /\
  compares (trace (snd (example_run ideal_exec))) = 25%nat /\
  sum_buffer (snd (example_run ideal_exec))
  = [seq_sum (as_buffer (snd (example_run ideal_exec)))].
Proof.
  pose proof (passing_run_trace Z (fun seed => seed) example_next
                (fun _ => example_reduction) example_garbage ideal_exec
                benchmarkingIters_main 8 workGroupSize_main 128
                ltac:(vm_compute; split; discriminate)
                ltac:(vm_compute; split; discriminate)
                eq_refl example_reduction_fair
                (ideal_exec_sums 8 workGroupSize_main 128 ltac:(lia)))
    as (Hrun & Hc & _).
  cbv zeta in Hrun, Hc. unfold example_run. rewrite Hrun. cbn [fst snd trace].
  split; [reflexivity|]. split; [exact Hc | reflexivity].
Defined.

Lemma Forall_concat_repeat {A} (P : A -> Prop) l j :
  Forall P l -> Forall P (concat (repeat l j)).
Proof.
  intros Hl. induction j as [|j IH]; [constructor|].
  rewrite concat_repeat_S. apply Forall_app. now split.
Qed.

(** X5: on an empty input ([n = 0]) no element is generated or read and
    the reference sum is 0; the global work size is 0, so every kernel is
    launched with no work-item; and when such a launch leaves the zeroed
    accumulator alone, every check compares 0 with 0 and [main_with]
    returns 0. *)
Theorem empty_input_run
    (Rng : Type) (FastRandom : Z -> Rng) (rng_next : Rng -> Z -> Z -> Z * Rng)
    (omp_schedule : Z -> Reduction) (uninitialised : nat -> Z)
    (kernel_exec : Kernel -> WorkSize -> list Z -> Z -> list Z -> list Z * list Z)
    (benchmarkingIters workGroupSize : Z) (st : State) :
  1 <= benchmarkingIters <= INT_MAX -> 1 <= workGroupSize <= UINT_MAX ->
  fair_reduction (omp_schedule 0) 0 ->
  (forall k, kernel_exec k (mkWorkSize workGroupSize 0) [] 0 [0] = ([], [0])) ->
  generate Rng FastRandom rng_next 0 st = (Ok ([], 0), st) /\
  work_partition 0 workGroupSize st = (Ok (0, 0), st) /\
  main_with Rng FastRandom rng_next omp_schedule uninitialised kernel_exec
    benchmarkingIters 0 workGroupSize initial_state
  = (Ok 0,
     mkState (passing_trace 0 workGroupSize 0 0 (Z.to_nat benchmarkingIters))
       [] [0]) /\
  Forall
    (fun e =>
       match e with
       | EvExec _ ws m _ => groupSize ws = workGroupSize /\ workSize ws = 0 /\ m = 0
       | EvCompare _ a b _ => a = 0 /\ b = 0
       | _ => True
       end)
    (passing_trace 0 workGroupSize 0 0 (Z.to_nat benchmarkingIters)).
Proof.
  intros Hm HG Hfair Hk.
  assert (Hgws : global_work_size 0 workGroupSize = Some 0).
  { rewrite global_work_size_no_wrap by lia.
    rewrite Z.div_small by lia. reflexivity. }
  split; [reflexivity|]. split; [|split].
  - unfold work_partition. rewrite Hgws. unfold n_work_groups.
    destruct (Z.eqb_spec workGroupSize 0); [lia|]. reflexivity.
  - apply (main_with_pass Rng FastRandom rng_next omp_schedule uninitialised
             kernel_exec benchmarkingIters 0 workGroupSize 0 initial_state);
      try assumption.
    + rewrite INT_MAX_val. lia.
    + intros k ws label line Hin.
      change (generated_input FastRandom rng_next 0) with (@nil Z).
      change (seq_sum []) with 0.
      cbn in Hin.
      repeat (destruct Hin as [Hin|Hin];
              [injection Hin as <- <- _ _; apply Hk|]).
      contradiction.
  - unfold passing_trace, cpu_pass_trace, gpu_blocks.
    cbn [flat_map gpu_pass_trace]. rewrite app_nil_r.
    repeat (apply Forall_app; split);
      try (apply Forall_concat_repeat); repeat constructor.
Qed.

Lemma empty_input_run_witness :
  main_with Z (fun seed => seed) example_next (fun _ => Chunk []) example_garbage
    ideal_exec 10 0 128 initial_state
  = (Ok 0, mkState (passing_trace 0 128 0 0 10) [] [0]).
Proof.
  refine (proj1 (proj2 (proj2
            (empty_input_run Z (fun seed => seed) example_next (fun _ => Chunk [])
               example_garbage ideal_exec 10 128 initial_state _ _ _ _)))).
  - vm_compute. split; discriminate.
  - vm_compute. split; discriminate.
  - apply Permutation_refl.
  - reflexivity.
Defined.

(** ** Runs without a trial *)

Lemma loop_no_trials (body : Z -> unit -> M unit) benchmarkingIters st :
  benchmarkingIters <= 0 ->
  for_loop (loop_fuel benchmarkingIters) (fun i => int_lt_int i benchmarkingIters)
    body 0 tt st
  = (Ok tt, st).
Proof.
  intros Hm. rewrite for_int_lt_int by (rewrite INT_MAX_val; lia).
  replace (Z.to_nat benchmarkingIters) with O by lia. reflexivity.
Qed.

Lemma cpu_block_no_trials benchmarkingIters n as_ ref st :
  benchmarkingIters <= 0 ->
  cpu_block benchmarkingIters n as_ ref st
  = (Ok tt, add_trace st [EvCout "CPU:     "; EvCout "CPU:     "]).
Proof.
  intros Hm. unfold cpu_block.
  rewrite (bind_ok _ _ _ _ _ (loop_no_trials _ benchmarkingIters st Hm)).
  apply report_run.
Qed.

Lemma omp_block_no_trials omp_schedule benchmarkingIters n as_ ref st :
  benchmarkingIters <= 0 ->
  omp_block omp_schedule benchmarkingIters n as_ ref st
  = (Ok tt, add_trace st [EvCout "CPU OMP: "; EvCout "CPU OMP: "]).
Proof.
  intros Hm. unfold omp_block.
  rewrite (bind_ok _ _ _ _ _ (loop_no_trials _ benchmarkingIters st Hm)).
  apply report_run.
Qed.

(** Without a trial a GPU block checks what the accumulator happens to
    hold. *)
Lemma run_blocks_no_trials kernel_exec benchmarkingIters n ref v :
  benchmarkingIters <= 0 ->
  forall bs st,
    sum_buffer st = [v] ->
    run_blocks kernel_exec benchmarkingIters n ref bs st
    = if ref =? v
      then (Ok tt,
            add_trace st
              (flat_map (fun b : Kernel * WorkSize * string * Z =>
                           [EvReadSum v; EvCompare gpu_message ref v (snd b);
                            EvCout (snd (fst b)); EvCout (snd (fst b))]) bs))
      else match bs with
           | [] => (Ok tt, st)
           | b :: _ =>
               (Throw gpu_message,
                add_trace st [EvReadSum v; EvCompare gpu_message ref v (snd b);
                              EvCerr gpu_message ref v file_name (snd b)])
           end.
Proof.
  intros Hm. induction bs as [|[[[k ws] label] line] bs IH]; intros st Hs.
  - cbn [run_blocks flat_map]. rewrite add_trace_nil.
    destruct (ref =? v); reflexivity.
  - cbn [run_blocks flat_map fst snd]. unfold bind.
    rewrite gpu_block_run by (rewrite INT_MAX_val; lia).
    replace (Z.to_nat benchmarkingIters) with O by lia.
    cbn [Nat.iter nat_rect]. unfold gpu_outcome. rewrite Hs.
    destruct (ref =? v) eqn:Hv.
    + rewrite IH by exact Hs. rewrite add_trace_app. reflexivity.
    + reflexivity.
Qed.

(** X6: with [benchmarkingIters <= 0] no sum is recomputed and no kernel
    is dispatched: the two CPU blocks make no comparison at all, the
    accumulator is never written, and each GPU check compares the
    reference sum with what the freshly allocated accumulator cell happens
    to contain.  [main_with] then returns 0 exactly when that uninitialised
    value equals the reference sum, and throws at the first GPU check
    (line 97) otherwise. *)
Theorem no_trials_validate_nothing
    (Rng : Type) (FastRandom : Z -> Rng) (rng_next : Rng -> Z -> Z -> Z * Rng)
    (omp_schedule : Z -> Reduction) (uninitialised : nat -> Z)
    (kernel_exec : Kernel -> WorkSize -> list Z -> Z -> list Z -> list Z * list Z)
    (benchmarkingIters n workGroupSize : Z) :
  benchmarkingIters <= 0 -> 0 <= n <= INT_MAX -> workGroupSize <> 0 ->
  let ref := seq_sum (generated_input FastRandom rng_next n) in
  let r := main_with Rng FastRandom rng_next omp_schedule uninitialised kernel_exec
             benchmarkingIters n workGroupSize initial_state in
  fst r = (if ref =? uninitialised 0%nat then Ok 0 else Throw gpu_message) /\
  dispatched_kernels (trace (snd r)) = [] /\
  resets (trace (snd r)) = 0%nat /\
  compares_at line_CPU (trace (snd r)) = 0%nat /\
  compares_at line_OMP (trace (snd r)) = 0%nat /\
  compares (trace (snd r))
  = (if ref =? uninitialised 0%nat then 5%nat else 1%nat) /\
  report_line (trace (snd r))
  = (if ref =? uninitialised 0%nat then None else Some 97).
Proof.
  intros Hm Hn HG. cbv zeta.
  set (as_ := generated_input FastRandom rng_next n).
  assert (Hlen : Z.of_nat (length as_) = n)
    by (apply generated_input_length; lia).
  destruct (work_partition_run n workGroupSize
              (mkState [EvCout "CPU:     "; EvCout "CPU:     ";
                        EvCout "CPU OMP: "; EvCout "CPU OMP: "]
                 as_ [uninitialised 0%nat]) HG) as (gws & _ & Hwp).
  assert (Hrun :
    main_with Rng FastRandom rng_next omp_schedule uninitialised kernel_exec
      benchmarkingIters n workGroupSize initial_state
    = (run_blocks kernel_exec benchmarkingIters n (seq_sum as_)
         (gpu_blocks workGroupSize gws) ;; ret 0)
        (mkState [EvCout "CPU:     "; EvCout "CPU:     ";
                  EvCout "CPU OMP: "; EvCout "CPU OMP: "]
           as_ [uninitialised 0%nat])).
  { unfold main_with.
    rewrite (bind_ok _ _ _ _ _
               (generate_run Rng FastRandom rng_next n initial_state Hn)).
    fold as_.
    rewrite (bind_ok _ _ _ _ _
               (cpu_block_no_trials benchmarkingIters n as_ (seq_sum as_)
                  initial_state Hm)).
    rewrite (bind_ok _ _ _ _ _
               (omp_block_no_trials omp_schedule benchmarkingIters n as_
                  (seq_sum as_) _ Hm)).
    unfold bind at 1. rewrite gpu_part_blocks.
    rewrite (bind_ok _ _ _ _ _ (gpu_setup_run uninitialised n as_ _ Hlen)).
    cbn [add_trace initial_state trace app].
    rewrite (bind_ok _ _ _ _ _ Hwp). reflexivity. }
  rewrite Hrun. unfold bind.
  rewrite (run_blocks_no_trials kernel_exec benchmarkingIters n (seq_sum as_)
             (uninitialised 0%nat) Hm) by reflexivity.
  destruct (seq_sum as_ =? uninitialised 0%nat);
    cbn [gpu_blocks flat_map fst snd add_trace trace app ret];
    repeat split.
Qed.

Lemma no_trials_validate_nothing_witness :
  main_with Z (fun seed => seed) example_next (fun _ => example_reduction)
    (fun _ => 2366798333) (faulty_exec TreeSum) 0 3 128 initial_state
  = (Ok 0,
     mkState
       (passing_trace 3 128 128 2366798333 0)
       [42; 1250496027; 1116302264] [2366798333]) /\
  fst (main_with Z (fun seed => seed) example_next (fun _ => example_reduction)
         example_garbage ideal_exec 0 3 128 initial_state)
  = Throw gpu_message.
Proof.
  split; [reflexivity|].
  exact (proj1 (no_trials_validate_nothing Z (fun seed => seed) example_next
                  (fun _ => example_reduction) example_garbage ideal_exec 0 3 128
                  ltac:(lia) ltac:(vm_compute; split; discriminate)
                  ltac:(discriminate))).
Defined.

(** ** Trials of a GPU block *)

Lemma gpu_outcome_fst label line ref st st' :
  sum_buffer st = sum_buffer st' ->
  fst (gpu_outcome label line ref st) = fst (gpu_outcome label line ref st').
Proof.
  intros H. unfold gpu_outcome. rewrite H.
  destruct (sum_buffer st') as [|v rest]; [reflexivity|].
  destruct (ref =? v); reflexivity.
Qed.

(** When the kernel leaves the input buffer and the rest of the
    accumulator buffer alone, every trial after the first repeats the
    first. *)
Lemma gpu_trials_repeat kernel_exec n k ws st j :
  (forall acc, fst (kernel_exec k ws (as_buffer st) n acc) = as_buffer st) ->
  (forall acc, skipn 1 (snd (kernel_exec k ws (as_buffer st) n acc)) = skipn 1 acc) ->
  as_buffer (Nat.iter (S j) (gpu_trial_state kernel_exec n k ws) st) = as_buffer st /\
  sum_buffer (Nat.iter (S j) (gpu_trial_state kernel_exec n k ws) st)
  = snd (kernel_exec k ws (as_buffer st) n (0 :: skipn 1 (sum_buffer st))).
Proof.
  intros Hin Hacc. induction j as [|j [IHa IHs]].
  - cbn [Nat.iter nat_rect]. unfold gpu_trial_state. cbn [as_buffer sum_buffer].
    rewrite writeN_one. split; [apply Hin | reflexivity].
  - rewrite Nat.iter_succ. set (s := Nat.iter (S j) _ st) in *.
    unfold gpu_trial_state. cbn [as_buffer sum_buffer].
    rewrite writeN_one, IHa, IHs, Hacc. cbn [skipn].
    split; [apply Hin | reflexivity].
Qed.

(** X7: when a kernel leaves the input buffer and the cells of the
    accumulator buffer after the first alone, the outcome of its GPU block
    does not depend on the number of trials: with any
    [benchmarkingIters >= 1] the block returns or throws as it does with
    one trial, and leaves the same buffers.  The value it checks is the one
    a single dispatch leaves from an accumulator cell holding 0, whatever
    the cell held when the block started: nothing leaks from one trial, or
    from the block before, into the result. *)
Theorem gpu_verdict_independent_of_trials
    (kernel_exec : Kernel -> WorkSize -> list Z -> Z -> list Z -> list Z * list Z)
    (benchmarkingIters n : Z) (k : Kernel) (ws : WorkSize) (label : string)
    (line ref : Z) (st : State) :
  1 <= benchmarkingIters <= INT_MAX ->
  (forall acc, fst (kernel_exec k ws (as_buffer st) n acc) = as_buffer st) ->
  (forall acc, skipn 1 (snd (kernel_exec k ws (as_buffer st) n acc)) = skipn 1 acc) ->
  let many := gpu_block kernel_exec benchmarkingIters n k ws label line ref st in
  let once := gpu_block kernel_exec 1 n k ws label line ref st in
  fst many = fst once /\
  as_buffer (snd many) = as_buffer (snd once) /\
  sum_buffer (snd many) = sum_buffer (snd once) /\
  as_buffer (snd many) = as_buffer st /\
  sum_buffer (snd many)
  = snd (kernel_exec k ws (as_buffer st) n (0 :: skipn 1 (sum_buffer st))).
Proof.
  intros Hm Hin Hacc. cbv zeta. pose proof INT_MAX_val as HM.
  rewrite !gpu_block_run by lia.
  destruct (Z.to_nat benchmarkingIters) as [|j] eqn:Hj; [lia|].
  change (Z.to_nat 1) with 1%nat.
  destruct (gpu_trials_repeat kernel_exec n k ws st j Hin Hacc) as [Ha Hs].
  destruct (gpu_trials_repeat kernel_exec n k ws st 0 Hin Hacc) as [Ha1 Hs1].
  set (sj := Nat.iter (S j) _ st) in *. set (s1 := Nat.iter 1 _ st) in *.
  destruct (gpu_outcome_buffers label line ref sj) as [Hba Hbs].
  destruct (gpu_outcome_buffers label line ref s1) as [Hba1 Hbs1].
  rewrite Hba, Hbs, Hba1, Hbs1, Ha, Hs, Ha1, Hs1.
  split; [|repeat split].
  apply gpu_outcome_fst. now rewrite Hs, Hs1.
Qed.

Lemma gpu_verdict_independent_of_trials_witness :
  fst (gpu_block ideal_exec 10 3 globalAtomSum (mkWorkSize 128 128)
         "GPU (Atomic): " 97 6 (mkState [] [1; 2; 3] [77]))
  = Ok tt.
Proof.
  refine (eq_trans
            (proj1 (gpu_verdict_independent_of_trials ideal_exec 10 3 globalAtomSum
                      (mkWorkSize 128 128) "GPU (Atomic): " 97 6
                      (mkState [] [1; 2; 3] [77]) _ _ _))
            eq_refl).
  - vm_compute. split; discriminate.
  - reflexivity.
  - intros [|x acc]; reflexivity.
Defined.

(** ** The work partition *)

(** X8: when [n + workGroupSize - 1] does not wrap, lines 80-81 return:
    the number of work groups is [n / workGroupSize] rounded up, the
    global work size is exactly that many groups (the division of line 81
    loses nothing), it covers the [n] elements, and fewer than
    [workGroupSize] work-items lie beyond the input, so that no work group
    is entirely out of range. *)
Theorem work_groups_cover_input (n workGroupSize : Z) (st : State) :
  0 < workGroupSize -> 0 <= n -> n + workGroupSize - 1 <= UINT_MAX ->
  exists gws groups,
    work_partition n workGroupSize st = (Ok (gws, groups), st) /\
    groups = (n + workGroupSize - 1) / workGroupSize /\
    gws = groups * workGroupSize /\
    n <= gws < n + workGroupSize /\
    (n = 0 <-> groups = 0).
Proof.
  intros HG Hn Hfit.
  pose proof (Z.div_mod (n + workGroupSize - 1) workGroupSize ltac:(lia)) as Hdm.
  pose proof (Z.mod_pos_bound (n + workGroupSize - 1) workGroupSize HG) as Hmod.
  set (q := (n + workGroupSize - 1) / workGroupSize) in *.
  exists (q * workGroupSize), q.
  assert (Hq : 0 <= q) by (apply Z.div_pos; lia).
  assert (Hdiv : q * workGroupSize / workGroupSize = q)
    by (apply Z.div_mul; lia).
  split; [|split; [reflexivity | split; [reflexivity|]]].
  - unfold work_partition. rewrite global_work_size_no_wrap by assumption.
    fold q. unfold n_work_groups, UInt.div.
    destruct (Z.eqb_spec workGroupSize 0); [lia|]. now rewrite Hdiv.
  - split; [lia|]. split.
    + intros ->. subst q. apply Z.div_small. lia.
    + intros Hq0. rewrite Hq0 in Hdm. lia.
Qed.

Lemma work_groups_cover_input_witness :
  exists gws groups,
    work_partition n_main workGroupSize_main initial_state
    = (Ok (gws, groups), initial_state) /\
    groups = (n_main + workGroupSize_main - 1) / workGroupSize_main /\
    gws = groups * workGroupSize_main /\
    n_main <= gws < n_main + workGroupSize_main /\
    (n_main = 0 <-> groups = 0).
Proof.
  apply (work_groups_cover_input n_main workGroupSize_main initial_state);
    vm_compute; congruence.
Defined.

(** X9: for every group size that is a multiple of 32 (as the 128 of
    [main] is), the work size [global_work_size / 32] of the two batch
    kernels (lines 112 and 132) loses nothing: 32 elements for each of its
    work-items are exactly [global_work_size] elements, which cover the
    input.  It is [workGroupSize / 32] work-items for each work group, so
    it is a multiple of the group size only when the number of groups is a
    multiple of 32; with the constants of [main] it is not (3125000 leaves
    the remainder 8 modulo 128). *)
Theorem batch_launch_covers_input (n workGroupSize : Z) :
  0 < workGroupSize -> workGroupSize mod 32 = 0 ->
  0 <= n -> n + workGroupSize - 1 <= UINT_MAX ->
  (exists gws,
     global_work_size n workGroupSize = Some gws /\
     32 * UInt.div gws 32 = gws /\
     n <= 32 * UInt.div gws 32 /\
     UInt.div gws 32 = UInt.div gws workGroupSize * (workGroupSize / 32) /\
     (UInt.div gws 32 mod workGroupSize = 0
      <-> UInt.div gws workGroupSize mod 32 = 0)) /\
  (exists gws,
     global_work_size n_main workGroupSize_main = Some gws /\
     UInt.div gws 32 = 3125000 /\
     UInt.div gws 32 mod workGroupSize_main = 8).
Proof.
  intros HG H32 Hn Hfit. split; [|exists 100000000; repeat split].
  pose proof (Z.div_mod (n + workGroupSize - 1) workGroupSize ltac:(lia)) as Hdm.
  pose proof (Z.mod_pos_bound (n + workGroupSize - 1) workGroupSize HG) as Hmod.
  set (q := (n + workGroupSize - 1) / workGroupSize) in *.
  pose proof (Z.div_mod workGroupSize 32 ltac:(lia)) as Hg.
  rewrite H32, Z.add_0_r in Hg.
  set (g := workGroupSize / 32) in *.
  assert (Hgpos : 0 < g) by lia.
  exists (q * workGroupSize).
  split; [now apply global_work_size_no_wrap|].
  unfold UInt.div.
  assert (Hb : q * workGroupSize / 32 = q * g).
  { rewrite Hg. replace (q * (32 * g)) with (q * g * 32) by lia.
    apply Z.div_mul. lia. }
  assert (Hq : q * workGroupSize / workGroupSize = q) by (apply Z.div_mul; lia).
  rewrite Hb, Hq. repeat split; try lia.
  - intros H. rewrite Hg in H.
    rewrite Z.mul_mod_distr_r in H by lia. nia.
  - intros H. rewrite Hg.
    rewrite Z.mul_mod_distr_r by lia. rewrite H. reflexivity.
Qed.

Lemma batch_launch_covers_input_witness :
  exists gws,
    global_work_size 1000 128 = Some gws /\
    32 * UInt.div gws 32 = gws /\
    1000 <= 32 * UInt.div gws 32 /\
    UInt.div gws 32 = UInt.div gws 128 * (128 / 32) /\
    (UInt.div gws 32 mod 128 = 0 <-> UInt.div gws 128 mod 32 = 0).
Proof.
  apply (batch_launch_covers_input 1000 128); vm_compute; congruence.
Defined.

(** ** A failing CPU check *)

Lemma bind_throw {A B} (m : M A) (f : A -> M B) st w st' :
  m st = (Throw w, st') -> bind m f st = (Throw w, st').
Proof. unfold bind. now intros ->. Qed.

(** X10: a CPU block whose reference differs from the sum of the input
    stops in its first trial: the sum is computed once and compared once,
    the mismatch is reported with both values, the file name and the line
    (40 for the sequential loop, 55 for the OpenMP loop), and the block
    throws before any lap is taken and before its report is printed. *)
Theorem cpu_mismatch_fails_first_trial
    (omp_schedule : Z -> Reduction) (benchmarkingIters n : Z) (as_ : list Z)
    (ref : Z) (st : State) :
  Z.of_nat (length as_) = n -> n <= INT_MAX -> 1 <= benchmarkingIters ->
  ref <> seq_sum as_ ->
  fair_reduction (omp_schedule n) (length as_) ->
  cpu_block benchmarkingIters n as_ ref st
  = (Throw cpu_message,
     add_trace st [EvCompare cpu_message ref (seq_sum as_) line_CPU;
                   EvCerr cpu_message ref (seq_sum as_) file_name line_CPU]) /\
  omp_block omp_schedule benchmarkingIters n as_ ref st
  = (Throw omp_message,
     add_trace st [EvCompare omp_message ref (seq_sum as_) line_OMP;
                   EvCerr omp_message ref (seq_sum as_) file_name line_OMP]).
Proof.
  intros Hlen Hn Hm Hne Hfair. split.
  - unfold cpu_block. apply bind_throw.
    apply (cpu_loop_fail (cpu_sum n as_) cpu_message line_CPU ref (seq_sum as_)
             benchmarkingIters st (cpu_sum_ok n as_ st Hlen Hn) Hne ltac:(lia)).
  - unfold omp_block. apply bind_throw.
    apply (cpu_loop_fail (omp_sum omp_schedule n as_) omp_message line_OMP ref
             (seq_sum as_) benchmarkingIters st
             (omp_sum_ok omp_schedule n as_ st Hfair Hlen Hn) Hne ltac:(lia)).
Qed.

Lemma cpu_mismatch_fails_first_trial_witness :
  cpu_block 10 3 [1; 2; 3] 7 initial_state
  = (Throw cpu_message,
     mkState [EvCompare cpu_message 7 6 40; EvCerr cpu_message 7 6 file_name 40]
       [] []).
Proof.
  exact (proj1 (cpu_mismatch_fails_first_trial (fun _ => Chunk [0; 1; 2]) 10 3
                  [1; 2; 3] 7 initial_state eq_refl
                  ltac:(vm_compute; discriminate) ltac:(lia)
                  ltac:(vm_compute; discriminate) (Permutation_refl _))).
Defined.

(** ** The order of the events *)

Lemma launches_app tr1 tr2 : launches (tr1 ++ tr2) = launches tr1 ++ launches tr2.
Proof. unfold launches. apply flat_map_app. Qed.

Lemma dispatched_of_launches tr :
  dispatched_kernels tr = map (fun l => fst (fst l)) (launches tr).
Proof.
  induction tr as [|e tr IH]; [reflexivity|].
  change (e :: tr) with ([e] ++ tr).
  rewrite dispatched_kernels_app, launches_app, map_app, IH.
  f_equal. now destruct e.
Qed.

Lemma no_launch_events tr :
  Forall (fun e => launches [e] = []) tr -> launches tr = [].
Proof.
  induction 1 as [|e tr He Htr IH]; [reflexivity|].
  change (e :: tr) with ([e] ++ tr). now rewrite launches_app, He, IH.
Qed.

Lemma launches_cpu_pass message line label ref j :
  launches (cpu_pass_trace message line label ref j) = [].
Proof.
  apply no_launch_events. unfold cpu_pass_trace. apply Forall_app. split.
  - apply Forall_concat_repeat. repeat constructor.
  - repeat constructor.
Qed.

(** The events of the trials of a GPU block, and of its read-back and
    check. *)
Lemma gpu_trials_events kernel_exec n k ws j st :
  exists tl,
    trace (Nat.iter j (gpu_trial_state kernel_exec n k ws) st) = trace st ++ tl /\
    launches tl = repeat (k, ws, n) j.
Proof.
  induction j as [|j (tl & Htl & Hl)].
  - exists []. cbn [Nat.iter nat_rect repeat]. now rewrite app_nil_r.
  - rewrite Nat.iter_succ. unfold gpu_trial_state at 1. cbn [trace].
    rewrite Htl, <- app_assoc. eexists. split; [reflexivity|].
    rewrite launches_app, Hl. cbn. symmetry. apply repeat_cons.
Qed.

Lemma gpu_outcome_events label line ref st :
  exists tl,
    trace (snd (gpu_outcome label line ref st)) = trace st ++ tl /\ launches tl = [].
Proof.
  unfold gpu_outcome. destruct (sum_buffer st) as [|v rest].
  - exists []. cbn [snd]. now rewrite app_nil_r.
  - destruct (ref =? v); cbn [snd add_trace trace]; eexists; split; reflexivity.
Qed.

(** The blocks launch their kernels in the order of the list, each with
    its work size, all the trials of a block before its check; a block is
    started only when the one before it has passed its check. *)
Lemma run_blocks_events kernel_exec benchmarkingIters n ref :
  benchmarkingIters <= INT_MAX ->
  forall bs st,
    exists j tl,
      (j <= length bs)%nat /\
      trace (snd (run_blocks kernel_exec benchmarkingIters n ref bs st))
      = trace st ++ tl /\
      launches tl
      = flat_map (fun l => repeat l (Z.to_nat benchmarkingIters))
          (map (block_launch n) (firstn j bs)) /\
      (fst (run_blocks kernel_exec benchmarkingIters n ref bs st) = Ok tt ->
       j = length bs).
Proof.
  intros Hm. induction bs as [|[[[k ws] label] line] bs IH]; intros st.
  - exists O, []. cbn. rewrite app_nil_r. auto.
  - cbn [run_blocks]. unfold bind. rewrite gpu_block_run by assumption.
    destruct (gpu_trials_events kernel_exec n k ws (Z.to_nat benchmarkingIters) st)
      as (tl1 & Htl1 & Hl1).
    set (st1 := Nat.iter _ _ st) in *.
    destruct (gpu_outcome_events label line ref st1) as (tl2 & Htl2 & Hl2).
    assert (Hone : launches (tl1 ++ tl2)
                   = flat_map (fun l => repeat l (Z.to_nat benchmarkingIters))
                       (map (block_launch n) (firstn 1 ((k, ws, label, line) :: bs)))).
    { rewrite launches_app, Hl1, Hl2. cbn. now rewrite !app_nil_r. }
    destruct (gpu_outcome label line ref st1) as [[[]|w|u|] st2]; cbn [snd] in Htl2.
    + destruct (IH st2) as (j & tl3 & Hj & Htl3 & Hl3 & Hok).
      exists (S j), (tl1 ++ tl2 ++ tl3). split; [cbn [length]; lia|]. split; [|split].
      * now rewrite Htl3, Htl2, Htl1, <- !app_assoc.
      * rewrite app_assoc, launches_app, Hone, Hl3.
        cbn [firstn map flat_map]. now rewrite app_nil_r.
      * intros H. cbn [length]. now rewrite (Hok H).
    + exists 1%nat, (tl1 ++ tl2). cbn [fst snd]. split; [cbn [length]; lia|].
      split; [now rewrite Htl2, Htl1, <- app_assoc|]. split; [exact Hone | discriminate].
    + exists 1%nat, (tl1 ++ tl2). cbn [fst snd]. split; [cbn [length]; lia|].
      split; [now rewrite Htl2, Htl1, <- app_assoc|]. split; [exact Hone | discriminate].
    + exists 1%nat, (tl1 ++ tl2). cbn [fst snd]. split; [cbn [length]; lia|].
      split; [now rewrite Htl2, Htl1, <- app_assoc|]. split; [exact Hone | discriminate].
Qed.

(** An iteration of a CPU block that returns has compared the reference
    with an equal sum and taken a lap. *)
Lemma checked_body_trace (run : M Z) message line ref st :
  silent run ->
  fst ((s <- run ;; EXPECT_THE_SAME ref s message line ;; nextLap) st) = Ok tt ->
  trace (snd ((s <- run ;; EXPECT_THE_SAME ref s message line ;; nextLap) st))
  = trace st ++ [EvCompare message ref ref line; EvNextLap].
Proof.
  intros Hs. destruct (Hs st) as [Htr _]. unfold bind at 1 3.
  destruct (run st) as [[sum|w|u|] st1]; cbn [fst snd] in *; try discriminate.
  unfold EXPECT_THE_SAME. destruct (Z.eq_dec ref sum) as [<-|Hne].
  - rewrite (bind_ok _ _ _ _ _ (raiseFail_pass ref _ _ _ _)).
    intros _. unfold nextLap, emit, add_trace. cbn [fst snd trace].
    now rewrite Htr, <- app_assoc.
  - unfold bind. rewrite (raiseFail_fail ref sum _ _ _ _ Hne). discriminate.
Qed.

Lemma checked_foldM_trace {J} (run : M Z) message line ref (l : list J) :
  silent run ->
  forall st,
    fst (foldM (fun (_ : J) (_ : unit) =>
                  s <- run ;; EXPECT_THE_SAME ref s message line ;; nextLap) l tt st)
    = Ok tt ->
    trace (snd (foldM (fun (_ : J) (_ : unit) =>
                         s <- run ;; EXPECT_THE_SAME ref s message line ;; nextLap)
                  l tt st))
    = trace st
      ++ concat (repeat [EvCompare message ref ref line; EvNextLap] (length l)).
Proof.
  intros Hs.
  set (body := fun (_ : J) (_ : unit) =>
                 s <- run ;; EXPECT_THE_SAME ref s message line ;; nextLap).
  induction l as [|i l IH]; intros st.
  - intros _. cbn. now rewrite app_nil_r.
  - cbn [foldM length]. unfold bind.
    pose proof (checked_body_trace run message line ref st Hs) as Hb.
    change ((s <- run ;; EXPECT_THE_SAME ref s message line ;; nextLap) st)
      with (body i tt st) in Hb.
    destruct (body i tt st) as [[[]|w|u|] st1]; cbn [fst snd] in *;
      try discriminate.
    intros Hok. rewrite (IH st1 Hok), (Hb eq_refl), concat_repeat_S, <- app_assoc.
    reflexivity.
Qed.

(** A CPU block that returns has made all its comparisons, each of the
    reference with an equal sum, and printed its report. *)
Lemma checked_block_trace (run : M Z) message line label ref benchmarkingIters st :
  silent run -> benchmarkingIters <= INT_MAX ->
  fst ((for_loop (loop_fuel benchmarkingIters)
          (fun iter => int_lt_int iter benchmarkingIters)
          (fun _ _ => s <- run ;; EXPECT_THE_SAME ref s message line ;; nextLap)
          0 tt ;;
        report label) st) = Ok tt ->
  trace (snd ((for_loop (loop_fuel benchmarkingIters)
                 (fun iter => int_lt_int iter benchmarkingIters)
                 (fun _ _ => s <- run ;; EXPECT_THE_SAME ref s message line ;; nextLap)
                 0 tt ;;
               report label) st))
  = trace st ++ cpu_pass_trace message line label ref (Z.to_nat benchmarkingIters).
Proof.
  intros Hs Hm.
  pose proof (checked_foldM_trace run message line ref
                (Zseq 0 (Z.to_nat benchmarkingIters)) Hs st) as Hl.
  rewrite Zseq_length in Hl.
  set (body := fun (_ : Z) (_ : unit) =>
                 s <- run ;; EXPECT_THE_SAME ref s message line ;; nextLap) in *.
  unfold bind. rewrite for_int_lt_int by assumption.
  destruct (foldM body (Zseq 0 (Z.to_nat benchmarkingIters)) tt st)
    as [[[]|w|u|] st1]; cbn [fst snd] in *; try discriminate.
  intros _. rewrite report_run. unfold add_trace, cpu_pass_trace. cbn [snd trace].
  now rewrite (Hl eq_refl), <- app_assoc.
Qed.

Lemma cpu_block_ok_trace benchmarkingIters n as_ ref st :
  benchmarkingIters <= INT_MAX ->
  fst (cpu_block benchmarkingIters n as_ ref st) = Ok tt ->
  trace (snd (cpu_block benchmarkingIters n as_ ref st))
  = trace st
    ++ cpu_pass_trace cpu_message line_CPU "CPU:     " ref (Z.to_nat benchmarkingIters).
Proof.
  intros Hm.
  exact (checked_block_trace (cpu_sum n as_) cpu_message line_CPU "CPU:     " ref
           benchmarkingIters st (silent_cpu_sum n as_) Hm).
Qed.

Lemma omp_block_ok_trace omp_schedule benchmarkingIters n as_ ref st :
  benchmarkingIters <= INT_MAX ->
  fst (omp_block omp_schedule benchmarkingIters n as_ ref st) = Ok tt ->
  trace (snd (omp_block omp_schedule benchmarkingIters n as_ ref st))
  = trace st
    ++ cpu_pass_trace omp_message line_OMP "CPU OMP: " ref (Z.to_nat benchmarkingIters).
Proof.
  intros Hm.
  exact (checked_block_trace (omp_sum omp_schedule n as_) omp_message line_OMP
           "CPU OMP: " ref benchmarkingIters st
           (silent_omp_sum omp_schedule n as_) Hm).
Qed.

(** A run of [main_with] either reaches the GPU part, and then both CPU
    blocks have passed and nothing else has happened, or ends before it,
    not by returning, with nothing launched. *)
Lemma main_with_stages Rng FastRandom (rng_next : Rng -> Z -> Z -> Z * Rng)
    omp_schedule uninitialised kernel_exec benchmarkingIters n G st :
  benchmarkingIters <= INT_MAX -> trace st = [] ->
  (exists as_ ref st2,
     trace st2
     = cpu_pass_trace cpu_message line_CPU "CPU:     " ref (Z.to_nat benchmarkingIters)
       ++ cpu_pass_trace omp_message line_OMP "CPU OMP: " ref
            (Z.to_nat benchmarkingIters) /\
     main_with Rng FastRandom rng_next omp_schedule uninitialised kernel_exec
       benchmarkingIters n G st
     = (gpu_part uninitialised kernel_exec benchmarkingIters n G as_ ref ;; ret 0)
         st2) \/
  (launches
     (trace (snd (main_with Rng FastRandom rng_next omp_schedule uninitialised
                    kernel_exec benchmarkingIters n G st))) = [] /\
   forall z,
     fst (main_with Rng FastRandom rng_next omp_schedule uninitialised kernel_exec
            benchmarkingIters n G st) <> Ok z).
Proof.
  intros Hm Hst.
  remember (main_with Rng FastRandom rng_next omp_schedule uninitialised kernel_exec
              benchmarkingIters n G st) as r eqn:Hr.
  unfold main_with, bind at 1 in Hr.
  destruct (silent_generate Rng FastRandom rng_next n st) as [Htr Hno].
  destruct (generate Rng FastRandom rng_next n st) as [[[as_ ref]|w|u|] st1];
    cbn [fst snd] in *.
  - set (P := fun e : Event => launches [e] = []).
    set (E := fun (_ : string) (tr : list Event) => Forall P tr).
    assert (HE : forall tr message b line,
               Forall P tr -> b <> ref -> check_at message line ->
               E message (tr ++ [EvCompare message ref b line;
                                 EvCerr message ref b file_name line])).
    { intros tr message b line Htr' _ _. apply Forall_app. split; [assumption|].
      repeat constructor. }
    assert (Hcpu : run_inv (Forall P) E (cpu_block benchmarkingIters n as_ ref))
      by (apply run_inv_cpu_block; try assumption; intros; reflexivity).
    assert (Homp : run_inv (Forall P) E
                     (omp_block omp_schedule benchmarkingIters n as_ ref))
      by (apply run_inv_omp_block; try assumption; intros; reflexivity).
    assert (HI1 : Forall P (trace st1)) by (rewrite Htr, Hst; constructor).
    specialize (Hcpu st1 HI1). unfold bind at 1 in Hr.
    pose proof (cpu_block_ok_trace benchmarkingIters n as_ ref st1 Hm) as Hct.
    destruct (cpu_block benchmarkingIters n as_ ref st1) as [[[]|w|u|] st2];
      try (right; subst r; split; [now apply no_launch_events | discriminate]).
    specialize (Homp st2 Hcpu). unfold bind at 1 in Hr.
    pose proof (omp_block_ok_trace omp_schedule benchmarkingIters n as_ ref st2 Hm)
      as Hot.
    destruct (omp_block omp_schedule benchmarkingIters n as_ ref st2)
      as [[[]|w|u|] st3];
      try (right; subst r; split; [now apply no_launch_events | discriminate]).
    left. exists as_, ref, st3. split; [|exact Hr].
    cbn [fst snd] in *. rewrite (Hot eq_refl), (Hct eq_refl), Htr, Hst. reflexivity.
  - exfalso. now apply (Hno w).
  - right. subst r. cbn [fst snd]. rewrite Htr, Hst.
    split; [reflexivity | discriminate].
  - right. subst r. cbn [fst snd]. rewrite Htr, Hst.
    split; [reflexivity | discriminate].
Qed.

(** What a run of [main_with] launches, in order. *)
Lemma main_with_launches Rng FastRandom (rng_next : Rng -> Z -> Z -> Z * Rng)
    omp_schedule uninitialised kernel_exec benchmarkingIters n G :
  benchmarkingIters <= INT_MAX ->
  (launches
     (trace (snd (main_with Rng FastRandom rng_next omp_schedule uninitialised
                    kernel_exec benchmarkingIters n G initial_state))) = [] /\
   forall z,
     fst (main_with Rng FastRandom rng_next omp_schedule uninitialised kernel_exec
            benchmarkingIters n G initial_state) <> Ok z) \/
  exists gws ref gpu_events j,
    global_work_size n G = Some gws /\
    trace (snd (main_with Rng FastRandom rng_next omp_schedule uninitialised
                  kernel_exec benchmarkingIters n G initial_state))
    = cpu_pass_trace cpu_message line_CPU "CPU:     " ref (Z.to_nat benchmarkingIters)
      ++ cpu_pass_trace omp_message line_OMP "CPU OMP: " ref
           (Z.to_nat benchmarkingIters)
      ++ gpu_events /\
    (j <= 5)%nat /\
    launches gpu_events
    = flat_map (fun l => repeat l (Z.to_nat benchmarkingIters))
        (map (block_launch n) (firstn j (gpu_blocks G gws))) /\
    (forall z,
       fst (main_with Rng FastRandom rng_next omp_schedule uninitialised kernel_exec
              benchmarkingIters n G initial_state) = Ok z -> j = 5%nat).
Proof.
  intros Hm.
  destruct (main_with_stages Rng FastRandom rng_next omp_schedule uninitialised
              kernel_exec benchmarkingIters n G initial_state Hm eq_refl)
    as [(as_ & ref & st2 & Htr2 & ->) | Hend]; [|now left].
  remember ((gpu_part uninitialised kernel_exec benchmarkingIters n G as_ ref ;;
             ret 0) st2) as r eqn:Hr.
  unfold bind at 1 in Hr. rewrite gpu_part_blocks in Hr.
  unfold bind, gpu_setup in Hr. cbv beta iota zeta in Hr.
  set (st3 := mkState _ _ _) in Hr.
  destruct (work_partition_cases n G st3)
    as [(gws & groups & Hgws & Hwp) | (u & Hwp)];
    rewrite Hwp in Hr; cbv beta iota in Hr.
  - right.
    destruct (run_blocks_events kernel_exec benchmarkingIters n ref Hm
                (gpu_blocks G gws) st3) as (j & tl & Hj & Htl & Hl & Hok).
    exists gws, ref, tl, j. split; [exact Hgws|].
    assert (Htr3 : trace st3 = trace st2) by reflexivity.
    rewrite Htr3, Htr2, <- app_assoc in Htl. clear Htr3.
    destruct (run_blocks kernel_exec benchmarkingIters n ref (gpu_blocks G gws) st3)
      as [[[]|w|u|] st4]; subst r; cbn [fst snd ret] in *;
      (split; [exact Htl|]); (split; [exact Hj|]); (split; [exact Hl|]);
      try discriminate.
    intros _ _. now apply Hok.
  - left. subst r. cbn [fst snd]. subst st3. cbn [trace]. rewrite Htr2.
    split; [|discriminate].
    now rewrite launches_app, !launches_cpu_pass.
Qed.

(** A report of a mismatch is the last event of a run. *)
Lemma report_is_last (l : list Event) x before e after :
  Forall (fun e => is_report e = false) l ->
  l ++ [x] = before ++ e :: after -> is_report e = true -> after = [].
Proof.
  intros Hl Heq He.
  destruct (exists_last (l := e :: after) ltac:(discriminate)) as (a' & y & Ha).
  destruct a' as [|e' a'].
  - cbn in Ha. injection Ha as _ Ha. exact Ha.
  - exfalso. cbn [app] in Ha. injection Ha as <- Ha.
    rewrite Ha, app_comm_cons, app_assoc in Heq.
    apply app_inj_tail in Heq as [Heq _].
    assert (Hin : In e l) by (rewrite Heq; apply in_or_app; right; now left).
    rewrite Forall_forall in Hl. specialize (Hl e Hin). congruence.
Qed.

Lemma main_with_report_last Rng FastRandom (rng_next : Rng -> Z -> Z -> Z * Rng)
    omp_schedule uninitialised kernel_exec benchmarkingIters n G before e after :
  trace (snd (main_with Rng FastRandom rng_next omp_schedule uninitialised
                kernel_exec benchmarkingIters n G initial_state))
  = before ++ e :: after ->
  is_report e = true -> after = [].
Proof.
  intros Heq He.
  destruct (main_with_inv
              (fun _ e => is_report e = false)
              (fun _ _ tr => exists l x, tr = l ++ [x] /\
                                         Forall (fun e => is_report e = false) l)
              Rng FastRandom rng_next omp_schedule uninitialised kernel_exec
              benchmarkingIters n G) with (st := initial_state) as [ref Hrun].
  - intros ref. unfold block_invariant.
    refine (conj eq_refl (conj (fun _ => eq_refl) (conj eq_refl (conj (fun _ => eq_refl)
             (conj (fun _ _ _ => eq_refl) (conj _ (fun _ _ _ _ _ _ _ => eq_refl))))))).
    intros tr message b line Htr _ _.
    exists (tr ++ [EvCompare message ref b line]),
           (EvCerr message ref b file_name line).
    split; [now rewrite <- app_assoc|].
    apply Forall_app. split; [assumption | repeat constructor].
  - reflexivity.
  - destruct (main_with _ _ _ _ _ _ _ _ _ initial_state) as [[a|w|u|] st'];
      cbn [snd] in Heq.
    + rewrite Heq in Hrun. apply Forall_app in Hrun as [_ Hrun].
      inversion Hrun; congruence.
    + destruct Hrun as (l & x & Htr & Hl). rewrite Htr in Heq.
      eapply report_is_last; eassumption.
    + rewrite Heq in Hrun. apply Forall_app in Hrun as [_ Hrun].
      inversion Hrun; congruence.
    + rewrite Heq in Hrun. apply Forall_app in Hrun as [_ Hrun].
      inversion Hrun; congruence.
Qed.

Lemma map_flat_map_repeat {A B} (f : A -> B) (l : list A) j :
  map f (flat_map (fun a => repeat a j) l) = flat_map (fun b => repeat b j) (map f l).
Proof.
  induction l as [|a l IH]; [reflexivity|].
  cbn [flat_map map]. rewrite map_app, IH. f_equal. apply map_repeat.
Qed.

(** X11: every run of [main_with] goes through its stages in the order
    of the source.  Either it ends before the GPU part, not by returning,
    and then no kernel has been dispatched at all; or its trace begins with
    the complete sequential block and the complete OpenMP block, both
    passed ([benchmarkingIters] passed comparisons and the report, each),
    which contain no dispatch, and only then come the events of the GPU
    part, in which the kernels are dispatched in source order,
    [benchmarkingIters] times each, up to and including the block that
    fails; a run that returns has dispatched all five.  A report of a
    mismatch is the last event of its run: nothing is dispatched after a
    failed check. *)
Theorem kernels_dispatched_in_source_order
    (Rng : Type) (FastRandom : Z -> Rng) (rng_next : Rng -> Z -> Z -> Z * Rng)
    (omp_schedule : Z -> Reduction) (uninitialised : nat -> Z)
    (kernel_exec : Kernel -> WorkSize -> list Z -> Z -> list Z -> list Z * list Z)
    (benchmarkingIters n workGroupSize : Z) :
  benchmarkingIters <= INT_MAX ->
  let r := main_with Rng FastRandom rng_next omp_schedule uninitialised kernel_exec
             benchmarkingIters n workGroupSize initial_state in
  ((dispatched_kernels (trace (snd r)) = [] /\ forall z, fst r <> Ok z) \/
   exists ref gpu_events j,
     trace (snd r)
     = cpu_pass_trace cpu_message line_CPU "CPU:     " ref (Z.to_nat benchmarkingIters)
       ++ cpu_pass_trace omp_message line_OMP "CPU OMP: " ref
            (Z.to_nat benchmarkingIters)
       ++ gpu_events /\
     (j <= 5)%nat /\
     dispatched_kernels gpu_events
     = flat_map (fun k => repeat k (Z.to_nat benchmarkingIters))
         (firstn j kernel_order) /\
     (forall z, fst r = Ok z -> j = 5%nat)) /\
  (forall before e after,
     trace (snd r) = before ++ e :: after -> is_report e = true -> after = []).
Proof.
  intros Hm. cbv zeta. split.
  - destruct (main_with_launches Rng FastRandom rng_next omp_schedule uninitialised
                kernel_exec benchmarkingIters n workGroupSize Hm)
      as [[Hl Hno] | (gws & ref & tl & j & _ & Htr & Hj & Hl & Hok)].
    + left. split; [|exact Hno]. now rewrite dispatched_of_launches, Hl.
    + right. exists ref, tl, j. split; [exact Htr|]. split; [exact Hj|].
      split; [|exact Hok].
      rewrite dispatched_of_launches, Hl, map_flat_map_repeat, map_map.
      rewrite <- firstn_map. reflexivity.
  - intros before e after. apply main_with_report_last.
Qed.

Lemma kernels_dispatched_in_source_order_witness :
  exists ref gpu_events j,
    trace (snd (example_run (faulty_exec BatchSumCoalesed)))
    = cpu_pass_trace cpu_message line_CPU "CPU:     " ref 10
      ++ cpu_pass_trace omp_message line_OMP "CPU OMP: " ref 10
      ++ gpu_events /\
    (j <= 5)%nat /\
    dispatched_kernels gpu_events
    = flat_map (fun k => repeat k 10) (firstn j kernel_order).
Proof.
  destruct (kernels_dispatched_in_source_order Z (fun seed => seed) example_next
              (fun _ => example_reduction) example_garbage
              (faulty_exec BatchSumCoalesed) benchmarkingIters_main 8
              workGroupSize_main ltac:(vm_compute; discriminate))
    as [[[Hd _] | (ref & tl & j & Htr & Hj & Hd & _)] _].
  - vm_compute in Hd. discriminate.
  - exists ref, tl, j. split; [exact Htr | split; [exact Hj | exact Hd]].
Defined.

(** ** The first wrong kernel *)

Lemma run_blocks_app kernel_exec benchmarkingIters n ref l1 l2 st :
  run_blocks kernel_exec benchmarkingIters n ref (l1 ++ l2) st
  = (run_blocks kernel_exec benchmarkingIters n ref l1 ;;
     run_blocks kernel_exec benchmarkingIters n ref l2) st.
Proof.
  revert st. induction l1 as [|[[[k ws] label] line] l1 IH]; intros st.
  - reflexivity.
  - cbn [app run_blocks]. rewrite bind_assoc. apply bind_ext.
    intros _ st'. apply IH.
Qed.

(** A GPU block whose kernel leaves [v], not the reference sum, in the
    accumulator: all its trials are run, then the check fails. *)
Lemma gpu_block_fail kernel_exec benchmarkingIters n k ws label line a ref v st :
  1 <= benchmarkingIters <= INT_MAX ->
  kernel_exec k ws a n [0] = (a, [v]) -> v <> ref ->
  as_buffer st = a -> length (sum_buffer st) = 1%nat ->
  gpu_block kernel_exec benchmarkingIters n k ws label line ref st
  = (Throw gpu_message,
     mkState
       (trace st
        ++ concat (repeat [EvWriteSum 0; EvExec k ws n [0]; EvNextLap]
                     (Z.to_nat benchmarkingIters))
        ++ [EvReadSum v; EvCompare gpu_message ref v line;
            EvCerr gpu_message ref v file_name line])
       a [v]).
Proof.
  intros Hm Hk Hne Ha Hs. rewrite gpu_block_run by lia.
  destruct (Z.to_nat benchmarkingIters) as [|j] eqn:Hj; [lia|].
  rewrite (gpu_trials_pass _ _ _ _ a v j Hk st Ha Hs).
  unfold gpu_outcome, add_trace. cbn [sum_buffer trace as_buffer].
  destruct (Z.eqb_spec ref v) as [->|_]; [contradiction|].
  rewrite <- app_assoc. reflexivity.
Qed.

Lemma report_line_failed tr e1 e2 message a b filename line :
  report_line (tr ++ [e1; e2; EvCerr message a b filename line]) = Some line.
Proof. unfold report_line. rewrite rev_app_distr. reflexivity. Qed.

Lemma last_dispatched_app l1 l2 :
  forall o, last_dispatched (l1 ++ l2) o = last_dispatched l2 (last_dispatched l1 o).
Proof.
  induction l1 as [|e l1 IH]; intros o; [reflexivity|].
  destruct e; cbn [app last_dispatched]; apply IH.
Qed.

Lemma last_dispatched_trials k ws n acc j :
  forall o,
    last_dispatched
      (concat (repeat [EvWriteSum 0; EvExec k ws n acc; EvNextLap] (S j))) o
    = Some k.
Proof.
  induction j as [|j IH]; intros o; [reflexivity|].
  rewrite (concat_repeat_S _ (S j)), last_dispatched_app. apply IH.
Qed.

Lemma dispatched_trials k ws n acc j :
  dispatched_kernels (concat (repeat [EvWriteSum 0; EvExec k ws n acc; EvNextLap] j))
  = repeat k j.
Proof.
  induction j as [|j IH]; [reflexivity|].
  rewrite concat_repeat_S, dispatched_kernels_app, IH. reflexivity.
Qed.

Lemma dispatched_cpu_pass message line label ref j :
  dispatched_kernels (cpu_pass_trace message line label ref j) = [].
Proof.
  unfold cpu_pass_trace. rewrite dispatched_kernels_app.
  replace (dispatched_kernels
             (concat (repeat [EvCompare message ref ref line; EvNextLap] j)))
    with (@nil Kernel); [reflexivity|].
  induction j as [|j IH]; [reflexivity|].
  now rewrite concat_repeat_S, dispatched_kernels_app, <- IH.
Qed.

Lemma dispatched_gpu_pass n ref j bs :
  dispatched_kernels (flat_map (gpu_pass_trace n ref j) bs)
  = flat_map (fun k => repeat k j) (map block_kernel bs).
Proof.
  induction bs as [|[[[k ws] label] line] bs IH]; [reflexivity|].
  cbn [flat_map map block_kernel fst gpu_pass_trace].
  rewrite !dispatched_kernels_app, dispatched_trials, IH.
  change (dispatched_kernels
            [EvReadSum ref; EvCompare gpu_message ref ref line;
             EvCout label; EvCout label]) with (@nil Kernel).
  now rewrite app_nil_r.
Qed.

(** X13: in a run with at least one trial in which the kernels of the
    blocks before some block are right and the kernel of that block leaves
    a value other than the reference sum in the accumulator, [main_with]
    throws the message of the GPU checks; the line of the report is the
    line of the check of that block, the kernel dispatched last is its
    kernel, and the dispatches are all the trials of the blocks before and
    all the trials of that block: the failure is noticed only after the
    last trial, and no later kernel is dispatched. *)
Theorem first_wrong_kernel_is_reported
    (Rng : Type) (FastRandom : Z -> Rng) (rng_next : Rng -> Z -> Z -> Z * Rng)
    (omp_schedule : Z -> Reduction) (uninitialised : nat -> Z)
    (kernel_exec : Kernel -> WorkSize -> list Z -> Z -> list Z -> list Z * list Z)
    (benchmarkingIters n workGroupSize gws : Z)
    (pre post : list (Kernel * WorkSize * string * Z))
    (k : Kernel) (ws : WorkSize) (label : string) (line v : Z) :
  0 <= n <= INT_MAX -> 1 <= benchmarkingIters <= INT_MAX ->
  global_work_size n workGroupSize = Some gws ->
  fair_reduction (omp_schedule n) (Z.to_nat n) ->
  gpu_blocks workGroupSize gws = pre ++ (k, ws, label, line) :: post ->
  (forall k' ws' label' line',
     In (k', ws', label', line') pre ->
     kernel_exec k' ws' (generated_input FastRandom rng_next n) n [0]
     = (generated_input FastRandom rng_next n,
        [seq_sum (generated_input FastRandom rng_next n)])) ->
  kernel_exec k ws (generated_input FastRandom rng_next n) n [0]
  = (generated_input FastRandom rng_next n, [v]) ->
  v <> seq_sum (generated_input FastRandom rng_next n) ->
  let r := main_with Rng FastRandom rng_next omp_schedule uninitialised kernel_exec
             benchmarkingIters n workGroupSize initial_state in
  fst r = Throw gpu_message /\
  report_line (trace (snd r)) = Some line /\
  last_dispatched (trace (snd r)) None = Some k /\
  dispatched_kernels (trace (snd r))
  = flat_map (fun k' => repeat k' (Z.to_nat benchmarkingIters))
      (map block_kernel pre ++ [k]) /\
  sum_buffer (snd r) = [v].
Proof.
  intros Hn Hm Hgws Hfair Hsplit Hpre Hk Hne. cbv zeta.
  set (as_ := generated_input FastRandom rng_next n) in *.
  set (ref := seq_sum as_) in *.
  assert (HG : workGroupSize <> 0).
  { intros ->. unfold global_work_size in Hgws. discriminate. }
  destruct (main_with_reaches_gpu Rng FastRandom rng_next omp_schedule uninitialised
              kernel_exec benchmarkingIters n workGroupSize initial_state
              Hn (proj2 Hm) HG Hfair) as (gws' & Hgws' & Hrun).
  rewrite Hgws in Hgws'. injection Hgws' as <-.
  fold as_ in Hrun. fold ref in Hrun. cbn [initial_state trace app] in Hrun.
  set (st0 := mkState _ as_ [uninitialised 0%nat]) in Hrun.
  destruct (run_blocks_pass kernel_exec benchmarkingIters n as_ ref pre Hm Hpre
              st0 eq_refl eq_refl) as (buf & Hrun1 & Hbuf & _).
  assert (Hfinal :
    main_with Rng FastRandom rng_next omp_schedule uninitialised kernel_exec
      benchmarkingIters n workGroupSize initial_state
    = (Throw gpu_message,
       mkState
         ((trace st0
           ++ flat_map (gpu_pass_trace n ref (Z.to_nat benchmarkingIters)) pre)
          ++ concat (repeat [EvWriteSum 0; EvExec k ws n [0]; EvNextLap]
                       (Z.to_nat benchmarkingIters))
          ++ [EvReadSum v; EvCompare gpu_message ref v line;
              EvCerr gpu_message ref v file_name line])
         as_ [v])).
  { rewrite Hrun, Hsplit. unfold bind at 1.
    rewrite run_blocks_app, (bind_ok _ _ _ _ _ Hrun1).
    cbn [run_blocks]. unfold bind at 1.
    now rewrite (gpu_block_fail kernel_exec benchmarkingIters n k ws label line
                   as_ ref v
                   (mkState
                      (trace st0
                       ++ flat_map
                            (gpu_pass_trace n ref (Z.to_nat benchmarkingIters)) pre)
                      as_ buf)
                   Hm Hk Hne eq_refl Hbuf). }
  rewrite Hfinal. cbn [fst snd trace sum_buffer].
  destruct (Z.to_nat benchmarkingIters) as [|j] eqn:Hj; [lia|].
  split; [reflexivity|]. split; [|split; [|split; [|reflexivity]]].
  - rewrite app_assoc. apply report_line_failed.
  - rewrite !last_dispatched_app, last_dispatched_trials. reflexivity.
  - subst st0. cbn [trace].
    rewrite !dispatched_kernels_app, !dispatched_cpu_pass, dispatched_gpu_pass,
      dispatched_trials.
    cbn [app]. rewrite flat_map_app. cbn [flat_map]. now rewrite !app_nil_r.
Qed.

Lemma first_wrong_kernel_is_reported_witness :
  fst (example_run (faulty_exec BatchSum)) = Throw gpu_message /\
  report_line (trace (snd (example_run (faulty_exec BatchSum)))) = Some 117 /\
  last_dispatched (trace (snd (example_run (faulty_exec BatchSum)))) None
  = Some BatchSum.
Proof.
  pose proof (first_wrong_kernel_is_reported Z (fun seed => seed) example_next
                (fun _ => example_reduction) example_garbage (faulty_exec BatchSum)
                benchmarkingIters_main 8 workGroupSize_main 128
                [(globalAtomSum, mkWorkSize 128 128, "GPU (Atomic): "%string, 97)]
                [(BatchSumCoalesed, mkWorkSize 128 4,
                  "GPU (BatchSumCoalesed): "%string, 137);
                 (LocalMemSUm, mkWorkSize 128 128, "GPU (LocalMemSum): "%string, 156);
                 (TreeSum, mkWorkSize 128 128, "GPU (TreeSum): "%string, 175)]
                BatchSum (mkWorkSize 128 4) "GPU (BatchSum): " 117
                (UInt.add
                   (seq_sum (generated_input (fun seed => seed) example_next 8)) 1)
                ltac:(vm_compute; split; discriminate)
                ltac:(vm_compute; split; discriminate)
                eq_refl example_reduction_fair eq_refl) as H.
  destruct H as (Hr & Hl & Hd & _).
  - intros k' ws' label' line' [Hin|[]]. injection Hin as <- <- <- <-.
    vm_compute. reflexivity.
  - vm_compute. reflexivity.
  - vm_compute. discriminate.
  - split; [exact Hr | split; [exact Hl | exact Hd]].
Defined.

(** ** Kernels that work in place *)

Lemma gpu_trials_inplace kernel_exec n k ws (f : list Z -> list Z) (g : list Z -> Z) j :
  (forall a, kernel_exec k ws a n [0] = (f a, [g a])) ->
  forall st,
    length (sum_buffer st) = 1%nat ->
    as_buffer (Nat.iter (S j) (gpu_trial_state kernel_exec n k ws) st)
    = Nat.iter (S j) f (as_buffer st) /\
    sum_buffer (Nat.iter (S j) (gpu_trial_state kernel_exec n k ws) st)
    = [g (Nat.iter j f (as_buffer st))].
Proof.
  intros Hk. induction j as [|j IH]; intros st Hs.
  - cbn [Nat.iter nat_rect]. unfold gpu_trial_state. cbn [as_buffer sum_buffer].
    destruct (sum_buffer st) as [|x [|y rest]]; try discriminate.
    rewrite writeN_one. cbn [skipn]. rewrite Hk. split; reflexivity.
  - destruct (IH st Hs) as [Ha Hb]. rewrite Nat.iter_succ.
    set (s := Nat.iter (S j) _ st) in *.
    unfold gpu_trial_state. cbn [as_buffer sum_buffer].
    rewrite Hb, writeN_one. cbn [skipn]. rewrite Hk, Ha. cbn [fst snd].
    split; reflexivity.
Qed.

(** X14: the input is uploaded once (line 75) and never again, so each
    trial of a GPU block runs on the input buffer as the trial before left
    it.  For a kernel that turns the input buffer [a] into [f a] and leaves
    [g a] in the zeroed accumulator, the block ends with the input buffer
    [f] applied [benchmarkingIters] times, and the value it checks is [g]
    of the buffer the last trial found: it passes exactly when that value,
    not the sum of the uploaded input, equals the reference sum. *)
Theorem trials_run_on_what_earlier_trials_left
    (kernel_exec : Kernel -> WorkSize -> list Z -> Z -> list Z -> list Z * list Z)
    (benchmarkingIters n : Z) (k : Kernel) (ws : WorkSize) (label : string)
    (line ref : Z) (f : list Z -> list Z) (g : list Z -> Z) (st : State) :
  1 <= benchmarkingIters <= INT_MAX ->
  length (sum_buffer st) = 1%nat ->
  (forall a, kernel_exec k ws a n [0] = (f a, [g a])) ->
  let r := gpu_block kernel_exec benchmarkingIters n k ws label line ref st in
  let last := Nat.iter (Z.to_nat benchmarkingIters - 1) f (as_buffer st) in
  as_buffer (snd r) = f last /\
  sum_buffer (snd r) = [g last] /\
  (fst r = Ok tt <-> g last = ref) /\
  (fst r = Throw gpu_message <-> g last <> ref).
Proof.
  intros Hm Hs Hk. cbv zeta. pose proof INT_MAX_val as HM.
  rewrite gpu_block_run by lia.
  destruct (Z.to_nat benchmarkingIters) as [|j] eqn:Hj; [lia|].
  replace (S j - 1)%nat with j by lia.
  destruct (gpu_trials_inplace kernel_exec n k ws f g j Hk st Hs) as [Ha Hb].
  set (sj := Nat.iter (S j) _ st) in *.
  destruct (gpu_outcome_buffers label line ref sj) as [Hba Hbs].
  rewrite Hba, Hbs, Ha, Hb. split; [reflexivity|]. split; [reflexivity|].
  unfold gpu_outcome. rewrite Hb.
  destruct (Z.eqb_spec ref (g (Nat.iter j f (as_buffer st)))) as [Heq|Hne];
    cbn [fst]; split; split; intros H;
    try reflexivity; try discriminate; try congruence.
Qed.

Lemma trials_run_on_what_earlier_trials_left_witness :
  fst (gpu_block clearing_exec 1 3 globalAtomSum (mkWorkSize 128 128)
         "GPU (Atomic): " 97 6 (mkState [] [1; 2; 3] [77])) = Ok tt /\
  (fst (gpu_block clearing_exec 10 3 globalAtomSum (mkWorkSize 128 128)
          "GPU (Atomic): " 97 6 (mkState [] [1; 2; 3] [77])) = Throw gpu_message
   <-> seq_sum [0; 0; 0] <> 6).
Proof.
  split; [reflexivity|].
  refine (proj2 (proj2 (proj2
            (trials_run_on_what_earlier_trials_left clearing_exec 10 3 globalAtomSum
               (mkWorkSize 128 128) "GPU (Atomic): " 97 6
               (map (fun _ => 0))
               (fun a => UInt.add 0 (seq_sum (firstn (Z.to_nat 3) a)))
               (mkState [] [1; 2; 3] [77]) _ _ _)))).
  - vm_compute. split; discriminate.
  - reflexivity.
  - intros a. reflexivity.
Defined.

(** * The claims *)

(** A dispatch of [TreeSum] leaves the accumulator alone, so the block of
    lines 161-175 reads back the 0 it has written. *)
Lemma gpu_readback_tree uninitialised sched ws as_ :
  gpu_readback uninitialised sched TreeSum ws as_ = Ok 0.
Proof.
  unfold gpu_readback. set (n := Z.of_nat (length as_)).
  rewrite (bind_ok _ _ _ _ _ (gpu_setup_run uninitialised n as_ initial_state eq_refl)).
  destruct (work_partition_run n workGroupSize_main
              (mkState (trace initial_state) as_ [uninitialised 0%nat])
              ltac:(discriminate)) as (gws & _ & Hwp).
  rewrite (bind_ok _ _ _ _ _ Hwp).
  rewrite (bind_ok _ _ _ _ _
             (gpu_loop_run (spec_exec sched) benchmarkingIters_main n TreeSum (ws gws)
                _ ltac:(vm_compute; discriminate))).
  change (Z.to_nat benchmarkingIters_main) with 10%nat.
  destruct (gpu_trials_inplace (spec_exec sched) n TreeSum (ws gws)
              (tree_pass (Z.to_nat n)) (fun _ => 0) 9 (fun a => eq_refl)
              (mkState (trace initial_state) as_ [uninitialised 0%nat]) eq_refl)
    as [_ Hs].
  unfold read_sum. rewrite Hs. reflexivity.
Qed.



Lemma example_schedule_fair : fair_schedule example_schedule.
Proof. intros W. unfold example_schedule. apply Permutation_sym, Permutation_rev. Defined.


(** C2, as stated, fails: with [n = UINT_MAX] and a group size of 128 the
    sum [n + workGroupSize - 1] wraps around and the computed global size
    is 0, which is not at least [n]. *)
Lemma global_work_size_wraps :
  ~ (exists m,
       global_work_size 4294967295 128 = Some m /\
       smallest_multiple_geq 128 4294967295 m).
Proof.
  intros (m & Hm & _ & Hge & _).
  vm_compute in Hm. injection Hm as <-. lia.
Qed.

(** C2, amended: for every group size [G >= 1] and element count [N >= 0]
    with [N + G - 1 <= UINT_MAX], the global work size computed by the
    harness is the smallest multiple of [G] that is at least [N]. *)
Theorem global_work_size_rounds_up (N G : Z) :
  0 < G -> 0 <= N -> N + G - 1 <= UINT_MAX ->
  exists m, global_work_size N G = Some m /\ smallest_multiple_geq G N m.
Proof.
  intros HG HN Hfit. exists ((N + G - 1) / G * G).
  split; [now apply global_work_size_no_wrap|].
  pose proof (Z.div_mod (N + G - 1) G ltac:(lia)) as Hdm.
  pose proof (Z.mod_pos_bound (N + G - 1) G HG) as Hmod.
  repeat split.
  - exists ((N + G - 1) / G). split; [apply Z.div_pos; lia | reflexivity].
  - nia.
  - intros m' (k & Hk & ->) Hle.
    apply Z.mul_le_mono_nonneg_r; [lia|].
    assert (Hq : (N + G - 1) / G < k + 1)
      by (apply Z.div_lt_upper_bound; [assumption | lia]).
    lia.
Qed.

Lemma global_work_size_rounds_up_witness :
  exists m,
    global_work_size n_main workGroupSize_main = Some m /\
    smallest_multiple_geq workGroupSize_main n_main m.
Proof.
  apply (global_work_size_rounds_up n_main workGroupSize_main);
    vm_compute; congruence.
Defined.

(** C3, as stated, fails: on 8 elements, which successive halving reduces
    to one in 3 passes, the harness dispatches [TreeSum] once per trial
    (10 dispatches for the 10 trials, not 30), each time on the
    accumulator buffer it has just zeroed. *)
Lemma tree_sum_not_dispatched_per_halving_step :
  let tr := trace (snd (example_run ideal_exec)) in
  halving_steps 8 8 = 3%nat /\
  dispatches TreeSum tr = 10%nat /\
  dispatches TreeSum tr <> (10 * halving_steps 8 8)%nat /\
  filter (is_dispatch TreeSum) tr
    = repeat (EvExec TreeSum (mkWorkSize 128 128) 8 [0]) 10.
Proof.
  vm_compute. repeat split; discriminate.
Qed.

(** C3, amended: the harness executes the Full Tree Sum strategy as
    exactly one dispatch of the kernel [TreeSum] per trial iteration
    ([benchmarkingIters] dispatches, whatever the number of elements),
    each preceded by a write of 0 into the accumulator buffer; when the
    block returns, the value it has validated is the one read back from
    the accumulator buffer. *)
Theorem tree_sum_dispatched_once_per_trial
    (kernel_exec : Kernel -> WorkSize -> list Z -> Z -> list Z -> list Z * list Z)
    (benchmarkingIters n : Z) (ws : WorkSize) (label : string) (line ref : Z)
    (st : State) :
  benchmarkingIters <= INT_MAX ->
  let run := gpu_block kernel_exec benchmarkingIters n TreeSum ws label line ref st in
  let st' := snd run in
  dispatches TreeSum (trace st')
    = (dispatches TreeSum (trace st) + Z.to_nat benchmarkingIters)%nat /\
  resets (trace st') = (resets (trace st) + Z.to_nat benchmarkingIters)%nat /\
  Forall zeroed_dispatch (skipn (length (trace st)) (trace st')) /\
  (fst run = Ok tt ->
   hd_error (sum_buffer st') = Some ref /\ In (EvReadSum ref) (trace st')).
Proof.
  intros Hm. cbn zeta. rewrite gpu_block_run by assumption.
  set (st1 := Nat.iter _ _ st).
  destruct (gpu_trials_counts kernel_exec n TreeSum ws (Z.to_nat benchmarkingIters) st)
    as (Hd & Hr & _ & Hz). fold st1 in Hd, Hr, Hz.
  destruct (gpu_outcome_counts label line ref TreeSum st1)
    as (Hd' & Hr' & _ & Hb & Hok). cbn zeta in *.
  rewrite Hd', Hr', Hd, Hr. repeat split.
  - pose proof (gpu_trials_length kernel_exec n TreeSum ws
                  (Z.to_nat benchmarkingIters) st) as Hlen. fold st1 in Hlen.
    unfold gpu_outcome.
    destruct (sum_buffer st1) as [|v rest]; [exact Hz|].
    destruct (ref =? v); cbn [snd add_trace trace];
      rewrite skipn_app; (apply Forall_app; split; [exact Hz|]);
      replace (length (trace st) - length (trace st1))%nat with O by lia;
      repeat constructor.
  - rewrite Hb. now apply Hok.
  - now apply Hok.
Qed.

Lemma tree_sum_dispatched_once_per_trial_witness :
  let run := gpu_block ideal_exec 10 8 TreeSum (mkWorkSize 128 128)
               "GPU (TreeSum): " 175 36 (mkState [] [1; 2; 3; 4; 5; 6; 7; 8] [0]) in
  dispatches TreeSum (trace (snd run)) = 10%nat /\
  resets (trace (snd run)) = 10%nat /\
  fst run = Ok tt.
Proof.
  pose proof (tree_sum_dispatched_once_per_trial ideal_exec 10 8
                (mkWorkSize 128 128) "GPU (TreeSum): " 175 36
                (mkState [] [1; 2; 3; 4; 5; 6; 7; 8] [0])
                ltac:(vm_compute; discriminate)) as (Hd & Hr & _).
  cbn zeta. split; [exact Hd | split; [exact Hr | reflexivity]].
Defined.

(** C4: whatever the kernels leave in the accumulator buffer, the
    harness writes 0 into it before every dispatch of every GPU block, so
    the accumulator cell is 0 at every dispatch of a run of [main_with];
    and each GPU block of [main] resets it once per trial, 10 times. *)
Theorem accumulator_zeroed_before_every_trial
    (Rng : Type) (FastRandom : Z -> Rng) (rng_next : Rng -> Z -> Z -> Z * Rng)
    (omp_schedule : Z -> Reduction) (uninitialised : nat -> Z)
    (kernel_exec : Kernel -> WorkSize -> list Z -> Z -> list Z -> list Z * list Z)
    (benchmarkingIters n workGroupSize : Z) :
  Forall zeroed_dispatch
    (trace (snd (main_with Rng FastRandom rng_next omp_schedule uninitialised
                   kernel_exec benchmarkingIters n workGroupSize initial_state))) /\
  forall k ws label line ref st,
    let st' := snd (gpu_block kernel_exec benchmarkingIters_main n k ws label line
                      ref st) in
    resets (trace st') = (resets (trace st) + 10)%nat /\
    dispatches k (trace st') = (dispatches k (trace st) + 10)%nat.
Proof.
  split.
  - destruct (main_with_inv (fun _ => zeroed_dispatch)
                (fun _ _ tr => Forall zeroed_dispatch tr)
                Rng FastRandom rng_next omp_schedule uninitialised kernel_exec
                benchmarkingIters n workGroupSize) with (st := initial_state)
      as [ref Hrun].
    + intros ref. unfold block_invariant. cbn. repeat split; auto.
      intros tr message b line Htr _ _. apply Forall_app. split; [assumption|].
      repeat constructor.
    + reflexivity.
    + destruct (main_with _ _ _ _ _ _ _ _ _ initial_state) as [[a|w|u|] st'];
        exact Hrun.
  - intros k ws label line ref st. cbn zeta.
    rewrite gpu_block_run by (vm_compute; discriminate).
    destruct (gpu_trials_counts kernel_exec n k ws (Z.to_nat benchmarkingIters_main) st)
      as (Hd & Hr & _). cbn zeta in Hd, Hr.
    destruct (gpu_outcome_counts label line ref k
                (Nat.iter (Z.to_nat benchmarkingIters_main)
                   (gpu_trial_state kernel_exec n k ws) st))
      as (Hd' & Hr' & _). cbn zeta in Hd', Hr'.
    rewrite Hd', Hr', Hd, Hr. split; reflexivity.
Qed.

(** C5, as stated, fails: the label of the report does not identify the
    failing strategy.  A run in which the strided batch kernel is wrong and
    a run in which the tree kernel is wrong end with the same label; the
    reports differ in the line only. *)
Lemma report_label_not_identifying :
  let tr1 := trace (snd (example_run (faulty_exec BatchSum))) in
  let tr2 := trace (snd (example_run (faulty_exec TreeSum))) in
  report_label tr1 = report_label tr2 /\
  last_dispatched tr1 None = Some BatchSum /\
  last_dispatched tr2 None = Some TreeSum /\
  report_line tr1 = Some 117 /\ report_line tr2 = Some 175.
Proof. vm_compute. repeat split. Qed.

(** C5, amended: in every run of [main_with], as long as no check has
    failed every comparison made was of the reference sum with an equal
    value and nothing was reported; and when a compared value differs the
    run ends there with an uncaught exception: the last things it does
    are that comparison and one report to [std::cerr], which carries the
    message, the expected value, the actual value, the file name and the
    line of the check.  In particular a GPU block whose accumulator, read
    back after the ten trials, differs from the reference sum ends the run
    so.  The line identifies the check; the message is one of three and is
    the same for the five GPU strategies. *)
Theorem mismatch_is_fatal_and_reported
    (Rng : Type) (FastRandom : Z -> Rng) (rng_next : Rng -> Z -> Z -> Z * Rng)
    (omp_schedule : Z -> Reduction) (uninitialised : nat -> Z)
    (kernel_exec : Kernel -> WorkSize -> list Z -> Z -> list Z -> list Z * list Z)
    (benchmarkingIters n workGroupSize : Z) :
  (exists ref,
     match main_with Rng FastRandom rng_next omp_schedule uninitialised kernel_exec
             benchmarkingIters n workGroupSize initial_state with
     | (Throw what, st') => mismatch_reported ref what (trace st')
     | (_, st') => all_passed ref (trace st')
     end) /\
  (forall k ws label line ref st v rest,
     let st1 := Nat.iter (Z.to_nat benchmarkingIters_main)
                  (gpu_trial_state kernel_exec n k ws) st in
     sum_buffer st1 = v :: rest -> v <> ref ->
     gpu_block kernel_exec benchmarkingIters_main n k ws label line ref st
     = (Throw gpu_message,
        add_trace st1 [EvReadSum v; EvCompare gpu_message ref v line;
                       EvCerr gpu_message ref v file_name line])) /\
  NoDup (map snd checks) /\
  map (fun c => snd (fst c)) checks
    = [cpu_message; omp_message; gpu_message; gpu_message; gpu_message;
       gpu_message; gpu_message].
Proof.
  split; [|split; [|split; [|reflexivity]]].
  - apply (main_with_inv passed_event mismatch_reported); [|reflexivity].
    intros ref. unfold block_invariant. cbn. repeat split; auto.
    intros tr message b line Htr Hne Hc.
    exists tr, b, line. auto.
  - intros k ws label line ref st v rest st1 Hbuf Hne.
    rewrite gpu_block_run by (vm_compute; discriminate).
    fold st1. unfold gpu_outcome. rewrite Hbuf.
    destruct (Z.eqb_spec ref v); [congruence | reflexivity].
  - cbn. repeat constructor; cbn; intuition discriminate.
Qed.

(** C6, as stated, fails: in a run of the example in which every check
    passes, each CPU strategy is compared with the reference 10 times, once
    per run, but each GPU kernel is run 10 times and compared once. *)
Lemma gpu_results_compared_once :
  let run := example_run ideal_exec in
  let tr := trace (snd run) in
  fst run = Ok 0 /\
  compares_at line_CPU tr = 10%nat /\ compares_at line_OMP tr = 10%nat /\
  dispatches globalAtomSum tr = 10%nat /\ compares_at 97 tr = 1%nat /\
  dispatches TreeSum tr = 10%nat /\ compares_at 175 tr = 1%nat /\
  compares_at 97 tr <> dispatches globalAtomSum tr.
Proof. vm_compute. repeat split; discriminate. Qed.

(** C6, amended: a CPU block (sequential or OpenMP) recomputes the sum
    and compares it with the reference in every one of its
    [benchmarkingIters] iterations.  A GPU block dispatches its kernel
    [benchmarkingIters] times without any comparison; after the loop it
    reads the accumulator back once and makes exactly one comparison, of
    the reference with the value [v] it has read, which is what the last
    dispatch has left: it returns when they are equal and throws when not.
    The results of the earlier dispatches are never looked at. *)
Theorem results_compared_per_block
    (omp_schedule : Z -> Reduction)
    (kernel_exec : Kernel -> WorkSize -> list Z -> Z -> list Z -> list Z * list Z)
    (benchmarkingIters n : Z) (as_ : list Z)
    (k : Kernel) (ws : WorkSize) (label : string) (line ref : Z) (st : State) :
  Z.of_nat (length as_) = n -> n <= INT_MAX ->
  benchmarkingIters <= INT_MAX ->
  fair_reduction (omp_schedule n) (length as_) ->
  keeps_accumulator_size kernel_exec -> sum_buffer st <> [] ->
  let cpu := cpu_block benchmarkingIters n as_ (seq_sum as_) st in
  let omp := omp_block omp_schedule benchmarkingIters n as_ (seq_sum as_) st in
  let gpu := gpu_block kernel_exec benchmarkingIters n k ws label line ref st in
  let st1 := Nat.iter (Z.to_nat benchmarkingIters)
               (gpu_trial_state kernel_exec n k ws) st in
  (cpu = (Ok tt,
          add_trace st
            (cpu_pass_trace cpu_message line_CPU "CPU:     " (seq_sum as_)
               (Z.to_nat benchmarkingIters))) /\
   compares (trace (snd cpu)) = (compares (trace st) + Z.to_nat benchmarkingIters)%nat) /\
  (omp = (Ok tt,
          add_trace st
            (cpu_pass_trace omp_message line_OMP "CPU OMP: " (seq_sum as_)
               (Z.to_nat benchmarkingIters))) /\
   compares (trace (snd omp)) = (compares (trace st) + Z.to_nat benchmarkingIters)%nat) /\
  (dispatches k (trace st1)
     = (dispatches k (trace st) + Z.to_nat benchmarkingIters)%nat /\
   compares (trace st1) = compares (trace st) /\
   exists v rest,
     sum_buffer st1 = v :: rest /\
     gpu = (if ref =? v then Ok tt else Throw gpu_message,
            add_trace st1
              ([EvReadSum v; EvCompare gpu_message ref v line]
               ++ if ref =? v then [EvCout label; EvCout label]
                  else [EvCerr gpu_message ref v file_name line])) /\
     compares (trace (snd gpu)) = (compares (trace st) + 1)%nat /\
     dispatches k (trace (snd gpu))
       = (dispatches k (trace st) + Z.to_nat benchmarkingIters)%nat).
Proof.
  intros Hlen Hn Hm Hfair Hkeep Hs. cbn zeta.
  rewrite cpu_block_pass, omp_block_pass, gpu_block_run by assumption.
  rewrite !cpu_pass_iter, !add_trace_app.
  split.
  { split; [reflexivity|]. cbn [snd add_trace trace]. rewrite compares_app.
    pose proof (compares_cpu_pass cpu_message line_CPU "CPU:     " (seq_sum as_)
                  (Z.to_nat benchmarkingIters)) as Hc.
    unfold cpu_pass_trace in Hc. now rewrite Hc. }
  split.
  { split; [reflexivity|]. cbn [snd add_trace trace]. rewrite compares_app.
    pose proof (compares_cpu_pass omp_message line_OMP "CPU OMP: " (seq_sum as_)
                  (Z.to_nat benchmarkingIters)) as Hc.
    unfold cpu_pass_trace in Hc. now rewrite Hc. }
  destruct (gpu_trials_counts kernel_exec n k ws (Z.to_nat benchmarkingIters) st)
    as (Hd & _ & Hcg & _). cbn zeta in Hd, Hcg.
  pose proof (gpu_trials_nonempty kernel_exec n k ws (Z.to_nat benchmarkingIters) st
                Hkeep Hs) as Hne.
  set (st1 := Nat.iter _ _ st) in *.
  split; [exact Hd|]. split; [exact Hcg|].
  destruct (sum_buffer st1) as [|v rest] eqn:Hbuf; [contradiction|].
  exists v, rest. split; [reflexivity|].
  unfold gpu_outcome. rewrite Hbuf.
  destruct (ref =? v); cbn [fst snd add_trace trace app];
    (split; [reflexivity|]);
    rewrite compares_app, dispatches_app, Hd, Hcg;
    unfold compares at 2, dispatches at 2; cbn; split; lia.
Qed.

Lemma results_compared_per_block_witness :
  let st := mkState [] [1; 2; 3] [0] in
  let cpu := cpu_block 10 3 [1; 2; 3] 6 st in
  let gpu := gpu_block ideal_exec 10 3 globalAtomSum (mkWorkSize 128 128)
               "GPU (Atomic): " 97 6 st in
  compares (trace (snd cpu)) = 10%nat /\
  dispatches globalAtomSum (trace (snd gpu)) = 10%nat /\
  compares (trace (snd gpu)) = 1%nat.
Proof.
  pose proof (results_compared_per_block (fun _ => Chunk [0; 1; 2]) ideal_exec
                10 3 [1; 2; 3] globalAtomSum (mkWorkSize 128 128)
                "GPU (Atomic): " 97 6 (mkState [] [1; 2; 3] [0])
                eq_refl ltac:(vm_compute; discriminate)
                ltac:(vm_compute; discriminate) (Permutation_refl _)
                ideal_exec_keeps_size ltac:(discriminate))
    as ((_ & Hc) & _ & (_ & _ & v & rest & _ & _ & Hg & Hd)).
  cbn zeta. split; [exact Hc | split; [exact Hd | exact Hg]].
Defined.

(** C7: with the group size 128 of [main], the global work size [gws] is
    a multiple of 32 whatever [n] is.  What a run of [main_with] launches
    is, in this order, [benchmarkingIters] dispatches of [globalAtomSum]
    with the work size [gws], of [BatchSum] with [gws / 32], of
    [BatchSumCoalesed] with [gws / 32], of [LocalMemSUm] with [gws] and of
    [TreeSum] with [gws], each with the group size 128 and on [n] elements,
    up to and including the block whose check fails; a run that returns has
    launched all of them, so both batch kernels [benchmarkingIters] times
    with exactly one 32nd of the work-items of the atomic kernel.  For the
    [n] of [main] that is 3125000 work-items for 100000000 elements, 32
    elements each. *)
Theorem batch_kernels_launched_with_one_32nd
    (Rng : Type) (FastRandom : Z -> Rng) (rng_next : Rng -> Z -> Z -> Z * Rng)
    (omp_schedule : Z -> Reduction) (uninitialised : nat -> Z)
    (kernel_exec : Kernel -> WorkSize -> list Z -> Z -> list Z -> list Z * list Z)
    (benchmarkingIters n : Z) :
  benchmarkingIters <= INT_MAX ->
  let r := main_with Rng FastRandom rng_next omp_schedule uninitialised kernel_exec
             benchmarkingIters n workGroupSize_main initial_state in
  (exists gws,
     global_work_size n workGroupSize_main = Some gws /\
     32 * UInt.div gws 32 = gws /\
     Forall (launch_geometry workGroupSize_main gws) (trace (snd r)) /\
     exists j,
       (j <= 5)%nat /\
       launches (trace (snd r))
       = flat_map (fun l => repeat l (Z.to_nat benchmarkingIters))
           (firstn j
              [ (globalAtomSum, mkWorkSize workGroupSize_main gws, n);
                (BatchSum, mkWorkSize workGroupSize_main (UInt.div gws 32), n);
                (BatchSumCoalesed,
                 mkWorkSize workGroupSize_main (UInt.div gws 32), n);
                (LocalMemSUm, mkWorkSize workGroupSize_main gws, n);
                (TreeSum, mkWorkSize workGroupSize_main gws, n) ]) /\
       (forall z, fst r = Ok z -> j = 5%nat)) /\
  global_work_size n_main workGroupSize_main = Some 100000000 /\
  UInt.div 100000000 32 = 3125000 /\
  32 * 3125000 = n_main.
Proof.
  intros Hm. cbv zeta. split; [|repeat split].
  destruct (global_work_size_128 n) as (gws & Hgws & Hdiv & _).
  exists gws. split; [assumption|]. split; [lia|]. split.
  - destruct (main_with_inv
                (fun _ e => launch_geometry workGroupSize_main gws e)
                (fun _ _ tr => Forall (launch_geometry workGroupSize_main gws) tr)
                Rng FastRandom rng_next omp_schedule uninitialised kernel_exec
                benchmarkingIters n workGroupSize_main) with (st := initial_state)
      as [ref Hrun].
    + intros ref. unfold block_invariant.
      refine (conj I (conj (fun _ => I) (conj I (conj (fun _ => I)
               (conj (fun _ _ _ => I) (conj _ _)))))).
      * intros tr message b line Htr _ _. apply Forall_app. split; [assumption|].
        repeat constructor.
      * intros gws' Hgws' k ws acc _ Hgeo.
        rewrite Hgws in Hgws'. injection Hgws' as <-. exact Hgeo.
    + reflexivity.
    + destruct (main_with _ _ _ _ _ _ _ _ _ initial_state) as [[a|w|u|] st'];
        exact Hrun.
  - destruct (main_with_launches Rng FastRandom rng_next omp_schedule uninitialised
                kernel_exec benchmarkingIters n workGroupSize_main Hm)
      as [[Hl Hno] | (gws' & ref & tl & j & Hgws' & Htr & Hj & Hl & Hok)].
    + exists O. split; [lia|]. split; [exact Hl|].
      intros z Hz. now apply Hno in Hz.
    + rewrite Hgws in Hgws'. injection Hgws' as <-.
      exists j. split; [exact Hj|]. split; [|exact Hok].
      rewrite Htr, !launches_app, !launches_cpu_pass, Hl. cbn [app].
      rewrite <- firstn_map. reflexivity.
Qed.

Lemma batch_kernels_launched_with_one_32nd_witness :
  launches (trace (snd (example_run ideal_exec)))
  = flat_map (fun l => repeat l 10)
      [ (globalAtomSum, mkWorkSize 128 128, 8);
        (BatchSum, mkWorkSize 128 4, 8);
        (BatchSumCoalesed, mkWorkSize 128 4, 8);
        (LocalMemSUm, mkWorkSize 128 128, 8);
        (TreeSum, mkWorkSize 128 128, 8) ].
Proof.
  destruct (batch_kernels_launched_with_one_32nd Z (fun seed => seed) example_next
              (fun _ => example_reduction) example_garbage ideal_exec
              benchmarkingIters_main 8 ltac:(vm_compute; discriminate))
    as ((gws & Hgws & _ & _ & j & _ & Hl & Hok) & _).
  vm_compute in Hgws. injection Hgws as <-.
  rewrite (Hok 0 eq_refl) in Hl. exact Hl.
Defined.

(** C8: [N >= 1] unsigned integers that are each at most [UINT_MAX / N]
    have a true sum of at most [UINT_MAX], so their sum accumulated with
    wrap-around equals the true sum; and when the generator keeps to the
    bounds it is called with, the [n] elements the harness stores are
    such, and the reference sum it accumulates is their true sum, for every
    [n] the loop of lines 28-31 can count, among them the
    [n = 100000000] of [main]. *)
Theorem reference_sum_does_not_wrap
    (Rng : Type) (FastRandom : Z -> Rng) (rng_next : Rng -> Z -> Z -> Z * Rng)
    (n : Z) (st : State) :
  bounded_generator rng_next -> 1 <= n <= INT_MAX ->
  (forall l : list Z,
     (1 <= length l)%nat ->
     Forall (fun x => 0 <= x <= UINT_MAX / Z.of_nat (length l)) l ->
     0 <= true_sum l <= UINT_MAX /\ seq_sum l = true_sum l) /\
  1 <= n_main <= INT_MAX /\
  exists as_ reference_sum,
    generate Rng FastRandom rng_next n st = (Ok (as_, reference_sum), st) /\
    Z.of_nat (length as_) = n /\
    Forall (fun x => 0 <= x <= UINT_MAX / n) as_ /\
    0 <= true_sum as_ <= UINT_MAX /\
    reference_sum = seq_sum as_ /\
    reference_sum = true_sum as_.
Proof.
  intros Hgen Hn.
  assert (Hlist : forall l : list Z,
            (1 <= length l)%nat ->
            Forall (fun x => 0 <= x <= UINT_MAX / Z.of_nat (length l)) l ->
            0 <= true_sum l <= UINT_MAX /\ seq_sum l = true_sum l).
  { intros l Hlen Hall.
    assert (Hsum : 0 <= true_sum l <= UINT_MAX).
    { split.
      - apply true_sum_nonneg. eapply Forall_impl; [|exact Hall].
        cbv beta. intros; lia.
      - pose proof (true_sum_bound l (UINT_MAX / Z.of_nat (length l))) as Hb.
        pose proof (Z.mul_div_le UINT_MAX (Z.of_nat (length l)) ltac:(lia)).
        assert (true_sum l <= Z.of_nat (length l) * (UINT_MAX / Z.of_nat (length l))).
        { apply Hb. eapply Forall_impl; [|exact Hall]. cbv beta. intros; lia. }
        lia. }
    split; [exact Hsum|]. rewrite seq_sum_wrap. apply wrap_small. exact Hsum. }
  split; [exact Hlist|]. split; [vm_compute; split; discriminate|].
  destruct (generate_ok Rng FastRandom rng_next Hgen n st ltac:(lia))
    as (as_ & Hrun & Hlen & Hall).
  exists as_, (seq_sum as_).
  destruct (Hlist as_ ltac:(lia) ltac:(rewrite Hlen; exact Hall)) as [Hsum Heq].
  repeat split; try assumption; try lia.
Qed.

Lemma example_next_bounded : bounded_generator example_next.
Proof.
  intros r lo hi H. unfold example_next. cbn [fst].
  pose proof (Z.mod_pos_bound r (hi - lo + 1)). lia.
Defined.

Lemma reference_sum_does_not_wrap_witness :
  exists as_ reference_sum,
    generate Z (fun seed => seed) example_next 8 initial_state
      = (Ok (as_, reference_sum), initial_state) /\
    0 <= true_sum as_ <= UINT_MAX /\
    reference_sum = true_sum as_.
Proof.
  destruct (reference_sum_does_not_wrap Z (fun seed => seed) example_next 8
              initial_state example_next_bounded
              ltac:(vm_compute; split; discriminate))
    as (_ & _ & as_ & ref & Hrun & _ & _ & Hsum & _ & Href).
  exists as_, ref. auto.
Defined.

(** C9, as stated, fails: on an input of INT_MAX + 1 elements, dealt out
    fairly, the chunks still add up to the sequential sum, but the OpenMP
    loop of line 52 does not return it: its counter is an [int], which
    overflows before it can count the iterations. *)
Lemma omp_counter_overflows :
  Z.of_nat (length zeros_input) = 2147483648 /\
  fair_reduction (one_chunk zeros_input) (length zeros_input) /\
  omp_reduce zeros_input (one_chunk zeros_input) initial_state
  = (Ok (seq_sum zeros_input), initial_state) /\
  omp_sum (fun _ => one_chunk zeros_input) 2147483648 zeros_input initial_state
  = (Undefined SignedOverflow, initial_state) /\
  ~ (omp_sum (fun _ => one_chunk zeros_input) 2147483648 zeros_input initial_state
     = (Ok (seq_sum zeros_input), initial_state)).
Proof.
  exact (zeros_overflow_omp (Z.to_nat 2147483648)
           (Z2Nat.id 2147483648 (Zle_0_pos 2147483648))).
Qed.

(** C9, amended: for every input and every way of dealing its indices out
    to chunks (each index to exactly one chunk), summing each chunk into a
    private sum from 0 and combining the private sums pairwise in any
    order and grouping yields the sequential left-to-right sum, bit for
    bit; and for every input of at most INT_MAX elements the OpenMP loop
    returns what the reference loop computes.  With more elements its
    [int] counter overflows. *)
Theorem omp_reduction_matches_sequential
    (omp_schedule : Z -> Reduction) (n : Z) (as_ : list Z) (st : State) :
  fair_reduction (omp_schedule n) (length as_) ->
  omp_reduce as_ (omp_schedule n) st = (Ok (seq_sum as_), st) /\
  (Z.of_nat (length as_) = n -> n <= INT_MAX ->
   omp_sum omp_schedule n as_ st = (Ok (seq_sum as_), st)) /\
  (INT_MAX < n ->
   omp_sum omp_schedule n as_ st = (Undefined SignedOverflow, st)).
Proof.
  intros Hfair. split; [|split].
  - now apply omp_reduce_partition.
  - intros Hlen Hn. now apply omp_sum_ok.
  - intros Hn. unfold omp_sum. apply bind_undefined.
    now apply omp_iterations_overflow.
Qed.

Lemma omp_reduction_matches_sequential_witness :
  omp_sum (fun _ => example_reduction) 8 [5; 4; 3; 2; 1; 10; 20; 4294967295]
    initial_state
  = (Ok 44, initial_state).
Proof.
  refine (proj1 (proj2
            (omp_reduction_matches_sequential (fun _ => example_reduction) 8
               [5; 4; 3; 2; 1; 10; 20; 4294967295] initial_state _))
            eq_refl ltac:(vm_compute; discriminate)).
  exact example_reduction_fair.
Defined.

(** C10: [n = 100000000] does not exceed INT_MAX, and for such an [n] a
    loop [for (int i = 0; i < n; ++i)] runs its body at exactly
    [0, 1, ..., n-1], in this order, [n] times, without overflow of the
    counter; each of these is a valid index of a vector of [n] elements, so
    the generation loop and the summation loop return, and so does the
    OpenMP loop, whose [n] iterations the runtime hands out. *)
Theorem input_loops_terminate_in_bounds
    (Rng : Type) (FastRandom : Z -> Rng) (rng_next : Rng -> Z -> Z -> Z * Rng)
    (n : Z) (as_ : list Z) (st : State) :
  0 <= n <= INT_MAX -> Z.of_nat (length as_) = n ->
  0 <= n_main <= INT_MAX /\
  (forall (St : Type) (body : Z -> St -> M St) (s : St),
     for_loop (loop_fuel n) (fun i => int_lt_uint i n) body 0 s st
     = foldM body (Zseq 0 (Z.to_nat n)) s st) /\
  Z.of_nat (length (Zseq 0 (Z.to_nat n))) = n /\
  Forall (fun i => 0 <= i <= n - 1 /\
                   vec_get as_ i st = (Ok (at_index as_ i), st))
    (Zseq 0 (Z.to_nat n)) /\
  cpu_sum n as_ st = (Ok (seq_sum as_), st) /\
  (forall omp_schedule,
     fair_reduction (omp_schedule n) (length as_) ->
     length (iterations_of (omp_schedule n)) = Z.to_nat n /\
     Forall (in_bounds as_) (iterations_of (omp_schedule n)) /\
     omp_sum omp_schedule n as_ st = (Ok (seq_sum as_), st)) /\
  (exists s, for_loop (loop_fuel n) (fun i => int_lt_uint i n)
               (generate_body Rng rng_next n) 0
               (repeat 0 (Z.to_nat n), FastRandom 42, 0) st = (Ok s, st)).
Proof.
  intros Hn Hlen. split; [vm_compute; split; discriminate|].
  split; [intros; now apply for_int_lt_uint|].
  split; [rewrite Zseq_length; lia|].
  split; [|split; [|split]].
  - apply Forall_forall. intros i Hi. apply Zseq_In in Hi.
    split; [lia|]. apply vec_get_in_bounds. unfold in_bounds. lia.
  - apply cpu_sum_ok; lia.
  - intros omp_schedule Hfair. split; [|split].
    + rewrite (Permutation_length Hfair), Zseq_length. lia.
    + eapply Permutation_Forall; [apply Permutation_sym; exact Hfair|].
      apply Zseq_in_bounds.
    + apply omp_sum_ok; [assumption | assumption | lia].
  - rewrite for_int_lt_uint by assumption.
    destruct (foldM_Zseq_invariant (generate_body Rng rng_next n)
                (fun k (s : list Z * Rng * Z) =>
                   Z.of_nat (length (fst (fst s))) = n)
                (Z.to_nat n) (repeat 0 (Z.to_nat n), FastRandom 42, 0) st)
      as [s [Hrun _]].
    + cbn [fst]. rewrite repeat_length. lia.
    + intros j [[v r] ref] Hj Hv. cbn [fst] in Hv.
      unfold generate_body, udiv.
      destruct (Z.eqb_spec n 0) as [->|Hn0]; [lia|].
      change (bind (ret (UInt.div UINT_MAX n)) ?f st) with (f (UInt.div UINT_MAX n) st).
      cbv beta.
      destruct (rng_next r 0 (UInt.div UINT_MAX n)) as [x r'].
      unfold vec_set.
      destruct (Z.leb_spec 0 (Z.of_nat j)); [|lia].
      destruct (Z.ltb_spec (Z.of_nat j) (Z.of_nat (length v))); [|lia].
      cbn [andb]. change (bind (ret ?a) ?f st) with (f a st). cbv beta.
      rewrite (bind_ok _ _ _ _ _
                 (vec_get_in_bounds (list_set v (Z.to_nat (Z.of_nat j)) (wrap x))
                    (Z.of_nat j) st
                    ltac:(unfold in_bounds; rewrite list_set_length; lia))).
      eexists. split; [reflexivity|]. cbn [fst]. now rewrite list_set_length.
    + now exists s.
Qed.

Lemma input_loops_terminate_in_bounds_witness :
  cpu_sum 3 [7; 8; 9] initial_state = (Ok 24, initial_state).
Proof.
  apply (input_loops_terminate_in_bounds Z (fun seed => seed) example_next 3
           [7; 8; 9] initial_state);
    [vm_compute; split; discriminate | reflexivity].
Defined.
